(** * LED-matrix hit visualisation (main.py): model and verified properties

    The MicroPython program drives a 16 x 15 logical grid built from two
    NeoPixel strips.  This development embeds [main.py] in Rocq and proves
    the properties its specification states about it.

    Modelling conventions.
    - Python integers are [Z]; [//] and [%] are [Z.div] and [Z.modulo]
      (both round towards minus infinity, as in Python).
    - Python floats are exact rationals [Q]: [BRIGHTNESS = 0.05] is [1 # 20],
      [int(x)] truncates towards zero.  Rounding of the binary
      representation is not modelled.
    - An RGB colour is the triple [(r, g, b)].
    - The two registries [active_hits] and [active_vertical_leds] are Python
      dicts keyed by [(row, col)]: finite maps [gmap (Z * Z) (rgb * Z)],
      iterated in the order of [map_to_list].
    - The module-level state (strip buffers, registries) and the external
      devices (the wire behind [write()], the millisecond clock behind
      [time.ticks_ms]/[time.sleep_ms], the generator behind
      [urandom.uniform]) are the fields of [world]; every function of the
      program is a computation [M T] that threads the world and may raise.
    - The clock is a monotone millisecond counter that only [sleep_ms]
      advances, and [ticks_diff] is a subtraction: the wrap-around of the
      tick counter is outside the model.
    - The field [calls] is a ghost call log: [set_pixel] and
      [display_hit_effect] record each invocation, [set_pixel] together with
      the call site that made it.  No function reads the log. *)

From Stdlib Require Import ZArith QArith Qround Qminmax Lia Lqa.
From stdpp Require Import base gmap list list_numbers.

Local Open Scope Z_scope.

(** ** Configuration (main.py, lines 8-26 and 55-61) *)

Definition LED_NUM_A : Z := 120.
Definition LED_NUM_B : Z := 64.
Definition BRIGHTNESS : Q := 1 # 20.
Definition HIT_POINT_BRIGHTNESS_BOOST : Q := 10 # 1.
Definition HIT_DISPLAY_DURATION : Z := 500.
Definition WAVE_LIGHT_SPREAD_DELAY : Z := 80.
Definition WAVE_LIGHT_DURATION : Z := 120.
Definition FADE_STEPS : Z := 10.
Definition FADE_INTERVAL : Z := 40.

Definition NORMAL_MODE_MIN_DELAY : Z := 2.
Definition NORMAL_MODE_MAX_DELAY : Z := 5.
Definition CORNER_MODE_MIN_DELAY : Z := 5.
Definition CORNER_MODE_MAX_DELAY : Z := 10.

Definition ROWS : Z := 16.
Definition COLS : Z := 15.

Definition A_ROWS : Z := (ROWS + 1) / 2.
Definition B_ROWS : Z := ROWS / 2.
Definition LEDS_PER_ACOL : Z := A_ROWS.
Definition LEDS_PER_BROW : Z := (COLS + 1) / 2.

(** ** Data *)

Definition rgb : Type := Z * Z * Z.
Definition black : rgb := (0, 0, 0).

(** The strip names ['A'] and ['B']. *)
Inductive strip_id := A | B.

Inductive exn := ValueError | IndexError | TypeError.

(** Result of running a piece of the program: a value, a raised exception,
    or exhaustion of the iteration budget of an unbounded loop. *)
Inductive outcome (T : Type) :=
| Ok (v : T)
| Raise (e : exn)
| OutOfFuel.
Arguments Ok {T} v.
Arguments Raise {T} e.
Arguments OutOfFuel {T}.

(** Call sites of [set_pixel] in main.py. *)
Inductive site :=
| FadeHit        (* process_active_points, lines 136 and 147 *)
| FadeCompanion  (* process_active_points, lines 160 and 170 *)
| HitPoint       (* display_hit_effect, line 196 *)
| Companion      (* display_hit_effect, line 198 *)
| WaveLeft       (* display_hit_effect, line 222 *)
| WaveRight      (* display_hit_effect, line 229 *)
| WaveAge        (* display_hit_effect, line 238 *)
| Reflect        (* display_hit_effect, line 257 *)
| ReflectAge     (* display_hit_effect, line 265 *)
| RowClear.      (* display_hit_effect, line 277 *)

Inductive call :=
| Call_display_hit_effect (row col : Z) (color : rgb)
| Call_set_pixel (from : site) (location : Z * Z) (color : rgb).

Record world := World {
  stripA : list rgb;
  stripB : list rgb;
  shownA : list rgb;
  shownB : list rgb;
  active_hits : gmap (Z * Z) (rgb * Z);
  active_vertical_leds : gmap (Z * Z) (rgb * Z);
  clock : Z;
  entropy : nat -> Q;
  draws : nat;
  calls : list call
}.

Definition with_strip (s : strip_id) (buf : list rgb) (w : world) : world :=
  match s with
  | A => World buf (stripB w) (shownA w) (shownB w) (active_hits w)
           (active_vertical_leds w) (clock w) (entropy w) (draws w) (calls w)
  | B => World (stripA w) buf (shownA w) (shownB w) (active_hits w)
           (active_vertical_leds w) (clock w) (entropy w) (draws w) (calls w)
  end.

Definition with_shown (s : strip_id) (buf : list rgb) (w : world) : world :=
  match s with
  | A => World (stripA w) (stripB w) buf (shownB w) (active_hits w)
           (active_vertical_leds w) (clock w) (entropy w) (draws w) (calls w)
  | B => World (stripA w) (stripB w) (shownA w) buf (active_hits w)
           (active_vertical_leds w) (clock w) (entropy w) (draws w) (calls w)
  end.

Definition with_active_hits (m : gmap (Z * Z) (rgb * Z)) (w : world) : world :=
  World (stripA w) (stripB w) (shownA w) (shownB w) m
    (active_vertical_leds w) (clock w) (entropy w) (draws w) (calls w).

Definition with_active_vertical_leds (m : gmap (Z * Z) (rgb * Z)) (w : world)
  : world :=
  World (stripA w) (stripB w) (shownA w) (shownB w) (active_hits w)
    m (clock w) (entropy w) (draws w) (calls w).

Definition with_clock (t : Z) (w : world) : world :=
  World (stripA w) (stripB w) (shownA w) (shownB w) (active_hits w)
    (active_vertical_leds w) t (entropy w) (draws w) (calls w).

Definition with_draws (n : nat) (w : world) : world :=
  World (stripA w) (stripB w) (shownA w) (shownB w) (active_hits w)
    (active_vertical_leds w) (clock w) (entropy w) n (calls w).

Definition with_calls (l : list call) (w : world) : world :=
  World (stripA w) (stripB w) (shownA w) (shownB w) (active_hits w)
    (active_vertical_leds w) (clock w) (entropy w) (draws w) l.

Definition strip_of (s : strip_id) (w : world) : list rgb :=
  match s with A => stripA w | B => stripB w end.

(** ** The monad of the program *)

Definition M (T : Type) : Type := world -> outcome T * world.

#[global] Instance M_ret : MRet M := λ T v w, (Ok v, w).

#[global] Instance M_bind : MBind M := λ T U f m w,
  match m w with
  | (Ok v, w') => f v w'
  | (Raise e, w') => (Raise e, w')
  | (OutOfFuel, w') => (OutOfFuel, w')
  end.

Definition raise {T} (e : exn) : M T := λ w, (Raise e, w).
Definition out_of_fuel {T} : M T := λ w, (OutOfFuel, w).

(** A pure function that may raise, run inside the program. *)
Definition lift {T} (r : outcome T) : M T := λ w, (r, w).

Definition get {T} (f : world -> T) : M T := λ w, (Ok (f w), w).
Definition modify (f : world -> world) : M unit := λ w, (Ok tt, f w).

(** [for x in l: s = body(s, x)]. *)
Fixpoint for_each {T S} (l : list T) (body : S -> T -> M S) (s : S) : M S :=
  match l with
  | [] => mret s
  | x :: l' => s' ← body s x; for_each l' body s'
  end.

(** ** External devices *)

(** [time.ticks_ms()], [time.ticks_diff(a, b)], [time.sleep_ms(d)]. *)
Definition ticks_ms : M Z := get clock.
Definition ticks_diff (a b : Z) : Z := a - b.
Definition sleep_ms (d : Z) : M unit := modify (λ w, with_clock (clock w + d) w).

(** [urandom.uniform(a, b)]: [a + (b - a) * u] for the next draw [u]. *)
Definition uniform (a b : Q) : M Q := λ w,
  (Ok (a + (b - a) * entropy w (draws w))%Q, with_draws (S (draws w)) w).

(** [strip[index] = c]: an index outside the buffer raises. *)
Definition setitem (s : strip_id) (index : Z) (c : rgb) : M unit := λ w,
  if bool_decide (0 ≤ index < Z.of_nat (length (strip_of s w)))
  then (Ok tt, with_strip s (<[Z.to_nat index := c]> (strip_of s w)) w)
  else (Raise IndexError, w).

(** [strip.fill(c)] and [strip.write()]. *)
Definition strip_fill (s : strip_id) (c : rgb) : M unit :=
  modify (λ w, with_strip s (replicate (length (strip_of s w)) c) w).
Definition strip_write (s : strip_id) : M unit :=
  modify (λ w, with_shown s (strip_of s w) w).

Definition record (c : call) : M unit :=
  modify (λ w, with_calls (calls w ++ [c]) w).

(** ** main.py *)

(** [int(x)] of a float: truncation towards zero. *)
Definition int (x : Q) : Z := Z.quot (Qnum x) (Z.pos (Qden x)).

Definition scale (color : rgb) (boost : Q) : rgb :=
  let '(r, g, b) := color in
  let factor := (BRIGHTNESS * boost)%Q in
  let factor := Qmin factor 1 in
  (int (inject_Z r * factor), int (inject_Z g * factor),
   int (inject_Z b * factor)).

Definition fill (color : rgb) : M unit :=
  let c := scale color 1 in
  strip_fill A c;;
  strip_fill B c;;
  strip_write A;;
  strip_write B.

Definition clear : M unit := fill (0, 0, 0).

Definition grid_to_led (location : Z * Z) : outcome (option (strip_id * Z)) :=
  let '(row, col) := location in
  if negb ((0 <=? row) && (row <? ROWS) && (0 <=? col) && (col <? COLS))
  then Raise ValueError
  else if row mod 2 =? 0 then
    let base := col * LEDS_PER_ACOL in
    let offset := row / 2 in
    let index :=
      if col mod 2 =? 0 then base + offset
      else base + (LEDS_PER_ACOL - 1 - offset) in
    Ok (Some (A, index))
  else if col mod 2 =? 1 then Ok None
  else
    let brow := (row - 1) / 2 in
    let base := brow * LEDS_PER_BROW in
    let offset := col / 2 in
    let index :=
      if brow mod 2 =? 0 then base + offset
      else base + (LEDS_PER_BROW - 1 - offset) in
    Ok (Some (B, index)).

Definition set_pixel (from : site) (location : Z * Z) (color : rgb)
    (boost : Q) (auto_write : bool) : M unit :=
  record (Call_set_pixel from location color);;
  mapping ← lift (grid_to_led location);
  match mapping with
  | None => mret tt
  | Some (strip, index) =>
      setitem strip index (scale color boost);;
      if auto_write then strip_write A;; strip_write B else mret tt
  end.

Definition start_fade_animation (now : Z) (hit_points : list (Z * Z * rgb))
    (vertical_points : list (Z * Z * rgb)) : M unit :=
  for_each hit_points (λ _ '(row, col, color),
    let start_fade_time := now + 100 in
    modify (λ w, with_active_hits
      (<[(row, col) := (color, start_fade_time)]> (active_hits w)) w)) tt;;
  for_each vertical_points (λ _ '(row, col, color),
    let start_fade_time := now + 50 in
    modify (λ w, with_active_vertical_leds
      (<[(row, col) := (color, start_fade_time)]> (active_vertical_leds w)) w))
    tt.

(** [min(1.0, elapsed / (FADE_STEPS * FADE_INTERVAL))]. *)
Definition fade_progress_at (now start_fade_time : Z) : Q :=
  let elapsed := ticks_diff now start_fade_time in
  Qmin 1 (inject_Z elapsed / inject_Z (FADE_STEPS * FADE_INTERVAL)).

(** Body of the loop over [active_hits.items()] (lines 130-147); the
    loop state is [hit_points_to_remove]. *)
Definition fade_hit_point (now : Z) (hit_points_to_remove : list (Z * Z))
    (item : Z * Z * (rgb * Z)) : M (list (Z * Z)) :=
  let '((row, col), (color, start_fade_time)) := item in
  if 0 <=? ticks_diff now start_fade_time then
    let fade_progress := fade_progress_at now start_fade_time in
    if Qle_bool 1 fade_progress then
      set_pixel FadeHit (row, col) (0, 0, 0) 1 true;;
      mret (hit_points_to_remove ++ [(row, col)])
    else
      let fade_factor := (1 - fade_progress)%Q in
      let '(r, g, b) := color in
      let boost_factor :=
        Qmin (fade_factor * HIT_POINT_BRIGHTNESS_BOOST) 1 in
      let boosted_color :=
        (int (inject_Z r * boost_factor), int (inject_Z g * boost_factor),
         int (inject_Z b * boost_factor)) in
      set_pixel FadeHit (row, col) boosted_color 1 true;;
      mret hit_points_to_remove
  else mret hit_points_to_remove.

(** Body of the loop over [active_vertical_leds.items()] (lines 154-170). *)
Definition fade_vertical_led (now : Z) (vertical_leds_to_remove : list (Z * Z))
    (item : Z * Z * (rgb * Z)) : M (list (Z * Z)) :=
  let '((row, col), (color, start_fade_time)) := item in
  if 0 <=? ticks_diff now start_fade_time then
    let fade_progress := fade_progress_at now start_fade_time in
    if Qle_bool 1 fade_progress then
      set_pixel FadeCompanion (row, col) (0, 0, 0) 1 true;;
      mret (vertical_leds_to_remove ++ [(row, col)])
    else
      let fade_factor := (1 - fade_progress)%Q in
      let '(r, g, b) := color in
      let faded_color :=
        (int (inject_Z r * fade_factor), int (inject_Z g * fade_factor),
         int (inject_Z b * fade_factor)) in
      set_pixel FadeCompanion (row, col) faded_color 1 true;;
      mret vertical_leds_to_remove
  else mret vertical_leds_to_remove.

(** [for point in points: if point in d: del d[point]]. *)
Definition delete_points (points : list (Z * Z))
    (d : gmap (Z * Z) (rgb * Z)) : gmap (Z * Z) (rgb * Z) :=
  foldl (λ d point, delete point d) d points.

Definition process_active_points : M unit :=
  now ← ticks_ms;
  items ← get (λ w, map_to_list (active_hits w));
  hit_points_to_remove ← for_each items (fade_hit_point now) [];
  modify (λ w, with_active_hits
    (delete_points hit_points_to_remove (active_hits w)) w);;
  items ← get (λ w, map_to_list (active_vertical_leds w));
  vertical_leds_to_remove ← for_each items (fade_vertical_led now) [];
  modify (λ w, with_active_vertical_leds
    (delete_points vertical_leds_to_remove (active_vertical_leds w)) w).

(** The scan [while above_row >= 0: ...] (lines 180-186).  It runs at most
    [above_row + 1] times; [budget] is that bound. *)
Fixpoint scan_above (budget : nat) (above_row col : Z) (color : rgb)
  : M (list (Z * Z * rgb)) :=
  if 0 <=? above_row then
    match budget with
    | O => out_of_fuel
    | S budget' =>
        mapping ← lift (grid_to_led (above_row, col));
        match mapping with
        | Some _ => mret [(above_row, col, color)]
        | None => scan_above budget' (above_row - 1) col color
        end
    end
  else mret [].

(** The scan [while below_row < ROWS: ...] (lines 188-194). *)
Fixpoint scan_below (budget : nat) (below_row col : Z) (color : rgb)
  : M (list (Z * Z * rgb)) :=
  if below_row <? ROWS then
    match budget with
    | O => out_of_fuel
    | S budget' =>
        mapping ← lift (grid_to_led (below_row, col));
        match mapping with
        | Some _ => mret [(below_row, col, color)]
        | None => scan_below budget' (below_row + 1) col color
        end
    end
  else mret [].

(** The ageing loop [i = 0; while i < len(active_wave_pixels): ...]
    (lines 234-241 and 261-268): the entries are visited from the first to
    the last, an expired one is blacked out and popped, the others stay in
    order.  [pending] is [active_wave_pixels[i:]]; the result is the list
    after the loop. *)
Fixpoint age_wave_pixels (from : site) (row now : Z) (pending : list (Z * Z))
  : M (list (Z * Z)) :=
  match pending with
  | [] => mret []
  | (wave_col, off_time) :: rest =>
      if 0 <=? ticks_diff now off_time then
        set_pixel from (row, wave_col) (0, 0, 0) 1 false;;
        age_wave_pixels from row now rest
      else
        kept ← age_wave_pixels from row now rest;
        mret ((wave_col, off_time) :: kept)
  end.

Definition right_boundary : Z := COLS - 1.
Definition left_boundary : Z := 0.

(** Body of [for step in range(1, max_steps + 1)] (lines 216-248); returns
    the wave pixels and whether the [break] of line 248 is taken. *)
Definition expansion_step (row col : Z) (color : rgb) (step : Z)
    (active_wave_pixels : list (Z * Z)) : M (list (Z * Z) * bool) :=
  process_active_points;;
  now ← ticks_ms;
  let left_col := col - step in
  active_wave_pixels ←
    (if left_boundary <=? left_col then
       set_pixel WaveLeft (row, left_col) color 1 true;;
       let turn_off_time := now + WAVE_LIGHT_DURATION in
       mret (active_wave_pixels ++ [(left_col, turn_off_time)])
     else mret active_wave_pixels);
  let right_col := col + step in
  active_wave_pixels ←
    (if right_col <=? right_boundary then
       set_pixel WaveRight (row, right_col) color 1 true;;
       let turn_off_time := now + WAVE_LIGHT_DURATION in
       mret (active_wave_pixels ++ [(right_col, turn_off_time)])
     else mret active_wave_pixels);
  active_wave_pixels ← age_wave_pixels WaveAge row now active_wave_pixels;
  strip_write A;;
  strip_write B;;
  sleep_ms WAVE_LIGHT_SPREAD_DELAY;;
  mret (active_wave_pixels,
        (left_col <? left_boundary) && (right_boundary <? right_col)).

Fixpoint expansion_loop (row col : Z) (color : rgb) (steps : list Z)
    (active_wave_pixels : list (Z * Z)) : M (list (Z * Z)) :=
  match steps with
  | [] => mret active_wave_pixels
  | step :: steps' =>
      '(active_wave_pixels, stop) ←
        expansion_step row col color step active_wave_pixels;
      if stop : bool then mret active_wave_pixels
      else expansion_loop row col color steps' active_wave_pixels
  end.

(** Body of [while current_col >= left_boundary] (lines 253-273). *)
Definition reflection_step (row col : Z) (color : rgb) (current_col : Z)
    (active_wave_pixels : list (Z * Z)) : M (list (Z * Z)) :=
  process_active_points;;
  now ← ticks_ms;
  active_wave_pixels ←
    (if negb (current_col =? col) then
       set_pixel Reflect (row, current_col) color 1 true;;
       let turn_off_time := now + WAVE_LIGHT_DURATION in
       mret (active_wave_pixels ++ [(current_col, turn_off_time)])
     else mret active_wave_pixels);
  active_wave_pixels ← age_wave_pixels ReflectAge row now active_wave_pixels;
  strip_write A;;
  strip_write B;;
  sleep_ms WAVE_LIGHT_SPREAD_DELAY;;
  mret active_wave_pixels.

(** The loop runs at most [current_col - left_boundary + 1] times. *)
Fixpoint reflection_loop (budget : nat) (row col : Z) (color : rgb)
    (current_col : Z) (active_wave_pixels : list (Z * Z))
  : M (list (Z * Z)) :=
  if left_boundary <=? current_col then
    match budget with
    | O => out_of_fuel
    | S budget' =>
        active_wave_pixels ←
          reflection_step row col color current_col active_wave_pixels;
        reflection_loop budget' row col color (current_col - 1)
          active_wave_pixels
    end
  else mret active_wave_pixels.

Definition display_hit_effect (row col : Z) (color : rgb) : M unit :=
  record (Call_display_hit_effect row col color);;
  let above_row := row - 1 in
  above ← scan_above (Z.to_nat (above_row + 1)) above_row col color;
  let below_row := row + 1 in
  below ← scan_below (Z.to_nat (ROWS - below_row)) below_row col color;
  let vertical_leds := above ++ below in
  set_pixel HitPoint (row, col) color HIT_POINT_BRIGHTNESS_BOOST true;;
  for_each vertical_leds (λ _ '(vr, vc, vc_color),
    set_pixel Companion (vr, vc) vc_color 1 true) tt;;
  now ← ticks_ms;
  let hit_points := [(row, col, color)] in
  start_fade_animation now hit_points vertical_leds;;
  (* Wave animation logic *)
  let steps_to_right := right_boundary - col in
  let steps_to_left := col - left_boundary in
  let max_steps := Z.max steps_to_right steps_to_left in
  active_wave_pixels ←
    expansion_loop row col color (seqZ 1 max_steps) [];
  (* Reflection wave - from right to left *)
  let current_col := right_boundary in
  active_wave_pixels ←
    reflection_loop (Z.to_nat (current_col - left_boundary + 1))
      row col color current_col active_wave_pixels;
  for_each (seqZ 0 COLS) (λ _ c,
    if negb (c =? col) then set_pixel RowClear (row, c) (0, 0, 0) 1 false
    else mret tt) tt;;
  strip_write A;;
  strip_write B.

(** A field of a hit record read from [hits.json]: a number, a colour
    list [[r, g, b]], or [null]. *)
Inductive field :=
| FNum (z : Z)
| FColor (c : rgb)
| FNull.

Abbreviation hit := (list field).

(** An entry [[current_time, row, col, color]] of [processed_hits]. *)
Abbreviation processed_hit := (Q * field * field * field)%type.

(** Body of [for hit in hits] (lines 304-313); the loop state is
    [(processed_hits, current_time)].  The unpacking of line 308 raises
    [ValueError] unless the hit has exactly four fields. *)
Definition preprocess_hit (min_delay max_delay : Z)
    (acc : list processed_hit * Q) (h : hit)
  : M (list processed_hit * Q) :=
  let '(processed_hits, current_time) := acc in
  if Z.of_nat (length h) <? 4 then mret acc
  else
    match h with
    | [_; row; col; color] =>
        u ← uniform (inject_Z min_delay) (inject_Z max_delay);
        let random_delay := (u * inject_Z 1000)%Q in
        let current_time := (current_time + random_delay)%Q in
        mret (processed_hits ++ [(current_time, row, col, color)],
              current_time)
    | _ => raise ValueError
    end.

(** The call [display_hit_effect(row, col, color)] of line 326 on the
    fields of a processed hit.  With a [row] or [col] that is not a number,
    or a [color] that is not a colour list, the Python code raises before
    it changes any state; the model raises [TypeError] at the call. *)
Definition dispatch (p : processed_hit) : M unit :=
  match p with
  | (_, FNum row, FNum col, FColor color) => display_hit_effect row col color
  | _ => raise TypeError
  end.

(** The inner loop of lines 323-328; it runs at most
    [len(processed_hits) - next_index] times. *)
Fixpoint dispatch_due (budget : nat) (now start_ms : Z)
    (processed_hits : list processed_hit) (next_index : nat) : M nat :=
  match processed_hits !! next_index with
  | Some p =>
      if Qle_bool (fst (fst (fst p))) (inject_Z (ticks_diff now start_ms)) then
        match budget with
        | O => out_of_fuel
        | S budget' =>
            dispatch p;;
            dispatch_due budget' now start_ms processed_hits (S next_index)
        end
      else mret next_index
  | None => mret next_index
  end.

(** The main loop of lines 318-330, with an iteration budget [fuel];
    it returns [next_index] at the exit. *)
Fixpoint show_loop (fuel : nat) (start_ms : Z)
    (processed_hits : list processed_hit) (next_index : nat) : M nat :=
  busy ← get (λ w,
    bool_decide (next_index < length processed_hits)%nat
    || negb (bool_decide (active_hits w = ∅))
    || negb (bool_decide (active_vertical_leds w = ∅)));
  if busy : bool then
    match fuel with
    | O => out_of_fuel
    | S fuel' =>
        now ← ticks_ms;
        process_active_points;;
        next_index ←
          dispatch_due (length processed_hits - next_index) now start_ms
            processed_hits next_index;
        sleep_ms 5;;
        show_loop fuel' start_ms processed_hits next_index
    end
  else mret next_index.

Definition play_visualization (fuel : nat) (hits : list hit)
    (is_in_corner : bool) : M unit :=
  modify (with_active_hits ∅);;
  modify (with_active_vertical_leds ∅);;
  match hits with
  | [] => mret tt
  | _ =>
      let '(min_delay, max_delay) :=
        if is_in_corner
        then (CORNER_MODE_MIN_DELAY, CORNER_MODE_MAX_DELAY)
        else (NORMAL_MODE_MIN_DELAY, NORMAL_MODE_MAX_DELAY) in
      '(processed_hits, _) ←
        for_each hits (preprocess_hit min_delay max_delay) ([], 0%Q);
      start_ms ← ticks_ms;
      show_loop fuel start_ms processed_hits 0%nat;;
      clear
  end.

(** State of the program after the module has been loaded: two dark strips
    of [LED_NUM_A] and [LED_NUM_B] pixels and empty registries. *)
Definition boot (rand : nat -> Q) : world :=
  World (replicate (Z.to_nat LED_NUM_A) black)
        (replicate (Z.to_nat LED_NUM_B) black)
        (replicate (Z.to_nat LED_NUM_A) black)
        (replicate (Z.to_nat LED_NUM_B) black)
        ∅ ∅ 0 rand 0 [].

From stdpp Require Import strings.

Local Open Scope Z_scope.

(** ** The script: [play_hits] and the top level of main.py *)

(** How the script leaves: it ran to its end, it was stopped by [OSError]
    (line 337) or by an exception of the show, or its iteration budget ran
    out. *)
Inductive script_exn :=
| OSError
| Escaped (e : exn).

Inductive exit :=
| Finished
| Failed (e : script_exn)
| Unfinished.

Definition script := world → exit * world.

(** A function of the show called from the script. *)
Definition run (m : M unit) : script := λ w,
  match m w with
  | (Ok _, w') => (Finished, w')
  | (Raise e, w') => (Failed (Escaped e), w')
  | (OutOfFuel, w') => (Unfinished, w')
  end.

(** [a; b]. *)
Definition and_then (a b : script) : script := λ w,
  match a w with
  | (Finished, w') => b w'
  | other => other
  end.

(** [try: body finally: cleanup]: the cleanup runs however the body
    leaves, and the body's exception is raised again after it unless the
    cleanup raises itself. *)
Definition try_finally (body cleanup : script) : script := λ w,
  match body w with
  | (Unfinished, w') => (Unfinished, w')
  | (how, w') =>
      match cleanup w' with
      | (Finished, w'') => (how, w'')
      | other => other
      end
  end.

(** The flash of the Pico: the names [os.listdir()] gives, each with the
    list [ujson.load] reads from that file.  Files that do not hold a JSON
    list of lists are outside the model. *)
Definition flash := gmap string (list hit).

Definition play_hits (files : flash) (fuel : nat) (filename : string)
    (is_in_corner : bool) : script := λ w,
  match files !! filename with
  | None => (Failed OSError, w)
  | Some hits => run (play_visualization fuel hits is_in_corner) w
  end.

(** Lines 342-350. *)
Definition main (files : flash) (fuel : nat) : script :=
  try_finally
    (and_then (run clear) (play_hits files fuel "hits.json" true))
    (run clear).


(** ** heatmap.py *)

(** [np.zeros((rows, cols))]; the counts are whole numbers here. *)
Definition zeros (rows cols : Z) : list (list Z) :=
  replicate (Z.to_nat rows) (replicate (Z.to_nat cols) 0).

(** Body of the loop of [create_heatmap_data] (lines 29-31).  The unpacking
    raises [ValueError] unless the record has exactly four fields; a [row]
    that is not a number raises [TypeError] in the comparison, and so does
    such a [col] -- when it is looked at: [and] stops at a [row] outside
    the grid. *)
Definition count_hit (heatmap_grid : list (list Z)) (h : hit)
  : outcome (list (list Z)) :=
  match h with
  | [_; row; col; _] =>
      match row with
      | FNum row =>
          if bool_decide (0 ≤ row < ROWS) then
            match col with
            | FNum col =>
                if bool_decide (0 ≤ col < COLS) then
                  Ok (alter (alter (λ n, n + 1) (Z.to_nat col))
                        (Z.to_nat row) heatmap_grid)
                else Ok heatmap_grid
            | _ => Raise TypeError
            end
          else Ok heatmap_grid
      | _ => Raise TypeError
      end
  | _ => Raise ValueError
  end.

Fixpoint count_hits (heatmap_grid : list (list Z)) (hits : list hit)
  : outcome (list (list Z)) :=
  match hits with
  | [] => Ok heatmap_grid
  | h :: hits' =>
      match count_hit heatmap_grid h with
      | Ok heatmap_grid' => count_hits heatmap_grid' hits'
      | stopped => stopped
      end
  end.

Definition create_heatmap_data (hits : list hit) : outcome (list (list Z)) :=
  count_hits (zeros ROWS COLS) hits.

(** ** preprocess.py *)

Definition MAX_EVENTS : nat := 50.
Definition DETECTOR_LEVELS : list Z := [1; 2; 3].
Definition TAKE_ALL_EVENTS : bool := false.

Definition TIME_COL : nat := 0.
Definition X_COL : nat := 1.
Definition Y_COL : nat := 2.
Definition DETECTOR_COL : nat := 7.

(** [a < b] on floats. *)
Definition Qltb (a b : Q) : bool := negb (Qle_bool b a).

Definition angle_to_rgb (angle : Q) : option rgb :=
  if Qltb angle (3 # 50) then Some (0, 0, 255)
  else if Qltb angle (3 # 25) then Some (255, 0, 0)
  else None.

(** [round(x)] of a float: to the nearest integer, a tie to the even
    one. *)
Definition py_round (x : Q) : Z :=
  let below := Qfloor x in
  match (x - inject_Z below ?= 1 # 2)%Q with
  | Lt => below
  | Gt => below + 1
  | Eq => if Z.even below then below else below + 1
  end.

(** What stops the third loop: the division by an empty range (lines 122
    and 123), [round] of a NaN ([ValueError]) when no range has been
    measured, the subtraction of [None] ([TypeError]) when no time stamp
    has been seen. *)
Inductive csv_exn :=
| ZeroDivisionError
| NanValueError
| NoneTypeError.

Inductive csv_outcome :=
| Hits (hits : list (Q * Z * Z * option rgb))
| Died (e : csv_exn).

(** [round((v - vmin) / (vmax - vmin) * (cells - 1))]; [None] is the
    division by zero. *)
Definition bucket (v vmin vmax : Q) (cells : Z) : option Z :=
  if Qeq_bool vmax vmin then None
  else Some (py_round ((v - vmin) / (vmax - vmin) * inject_Z (cells - 1))).

(** [events_by_time[t_ns][detector] = [x, y]], creating the inner dict at
    the end of the outer one when [t_ns] is new; the outer dict keeps the
    order of insertion. *)
Fixpoint record_event (events_by_time : list (Q * gmap Z (Q * Q)))
    (t_ns : Q) (detector : Z) (pos : Q * Q) : list (Q * gmap Z (Q * Q)) :=
  match events_by_time with
  | [] => [(t_ns, {[ detector := pos ]})]
  | (t, event) :: rest =>
      if Qeq_bool t t_ns then (t, <[detector := pos]> event) :: rest
      else (t, event) :: record_event rest t_ns detector pos
  end.

Section preprocess.

(** [int(s)] and [float(s)] of a CSV field, [None] when they raise
    [ValueError]; a float that is infinite or a NaN is outside the model.
    [calculate_angle_2d] works with [math.sqrt] and [math.acos] and is
    left open. *)
Variable parse_int : string → option Z.
Variable parse_float : string → option Q.
Variable calculate_angle_2d : Q * Q → Q * Q → Q * Q → Q.

(** Body of the first loop (lines 20-32); the range is [None] while
    [xmin = ymin = inf] and [xmax = ymax = -inf], and
    [(xmin, xmax, ymin, ymax)] afterwards.  [IndexError] and [ValueError]
    skip the row. *)
Definition scan_row (range : option (Q * Q * Q * Q)) (row : list string)
  : option (Q * Q * Q * Q) :=
  match row !! DETECTOR_COL ≫= parse_int with
  | Some detector =>
      if bool_decide (detector ≠ 1) then range
      else
        match row !! X_COL ≫= parse_float, row !! Y_COL ≫= parse_float with
        | Some x, Some y =>
            match range with
            | None => Some (x, x, y, y)
            | Some (xmin, xmax, ymin, ymax) =>
                Some (Qmin xmin x, Qmax xmax x, Qmin ymin y, Qmax ymax y)
            end
        | _, _ => range
        end
  | None => range
  end.

(** Body of the second loop (lines 72-92) on
    [(first_timestamp, events_by_time)]. *)
Definition read_row (state : option Q * list (Q * gmap Z (Q * Q)))
    (row : list string) : option Q * list (Q * gmap Z (Q * Q)) :=
  let '(first_timestamp, events_by_time) := state in
  match row !! DETECTOR_COL ≫= parse_int with
  | Some detector =>
      if bool_decide (detector ∈ DETECTOR_LEVELS) then
        match row !! TIME_COL ≫= parse_float with
        | Some t_ns =>
            let first_timestamp :=
              match first_timestamp with
              | None => Some t_ns
              | Some _ => first_timestamp
              end in
            match row !! X_COL ≫= parse_float, row !! Y_COL ≫= parse_float with
            | Some x, Some y =>
                (first_timestamp,
                 record_event events_by_time t_ns detector (x, y))
            | _, _ => (first_timestamp, events_by_time)
            end
        | None => state
        end
      else state
  | None => state
  end.

(** The third loop (lines 98-129) on [(hits, event_count)]. *)
Fixpoint collect (range : option (Q * Q * Q * Q)) (first_timestamp : option Q)
    (events_by_time : list (Q * gmap Z (Q * Q)))
    (hits : list (Q * Z * Z * option rgb)) (event_count : nat)
  : csv_outcome :=
  match events_by_time with
  | [] => Hits hits
  | (t_ns, event) :: rest =>
      match event !! 1, event !! 2, event !! 3 with
      | Some pos1, Some pos2, Some pos3 =>
          let angle := calculate_angle_2d pos1 pos2 pos3 in
          if Qltb (3 # 25) angle
          then collect range first_timestamp rest hits event_count
          else
            let rgb := angle_to_rgb angle in
            let '(x, y) := pos1 in
            match first_timestamp with
            | None => Died NoneTypeError
            | Some first =>
                let t_sec := ((t_ns - first) / inject_Z (10 ^ 9))%Q in
                match range with
                | None => Died NanValueError
                | Some (xmin, xmax, ymin, ymax) =>
                    match bucket x xmin xmax COLS, bucket y ymin ymax ROWS with
                    | Some col, Some row =>
                        let hits := hits ++ [(t_sec, row, col, rgb)] in
                        let event_count := S event_count in
                        if bool_decide (MAX_EVENTS ≤ event_count)%nat
                           && negb TAKE_ALL_EVENTS
                        then Hits hits
                        else collect range first_timestamp rest hits
                               event_count
                    | _, _ => Died ZeroDivisionError
                    end
                end
            end
      | _, _, _ => collect range first_timestamp rest hits event_count
      end
  end.

(** The script on the rows of [gscan_example_data.csv]: the list it ends
    with, which it writes to [hits.json] when it is not empty. *)
Definition preprocess (rows : list (list string)) : csv_outcome :=
  let range := foldl scan_row None rows in
  let '(first_timestamp, events_by_time) := foldl read_row (None, []) rows in
  collect range first_timestamp events_by_time [] 0.

End preprocess.

(** ** Vocabulary of the specification *)

(** A cell of the 16 x 15 grid. *)
Definition in_grid (location : Z * Z) : Prop :=
  0 ≤ location.1 < ROWS ∧ 0 ≤ location.2 < COLS.

(** A hole: odd row and odd column. *)
Definition is_hole (location : Z * Z) : Prop :=
  location.1 mod 2 = 1 ∧ location.2 mod 2 = 1.

Definition channel_ok (v : Z) : Prop := 0 ≤ v ≤ 255.

Definition color_ok (c : rgb) : Prop :=
  channel_ok c.1.1 ∧ channel_ok c.1.2 ∧ channel_ok c.2.

(** [clamp(x, lo, hi)] as the specification writes it. *)
Definition clamp (x lo hi : Q) : Q := Qmax lo (Qmin x hi).

(** [color * factor], each channel rounded to an integer by [int]. *)
Definition dim (color : rgb) (factor : Q) : rgb :=
  (int (inject_Z color.1.1 * factor), int (inject_Z color.1.2 * factor),
   int (inject_Z color.2 * factor)).

(** The floats of the program are exact rationals here.  Where a statement
    tells from which product an integer channel is cut, it grants this much
    on either side for the rounding of the floats, so that it holds of the
    program as it runs and not only of the exact arithmetic. *)
Definition float_slack : Q := 1 # 1000.

(** [n] is [x] cut down to an integer: [x - 1 <= n <= x], up to the
    slack. *)
Definition cut_from (x : Q) (n : Z) : Prop :=
  (x - 1 - float_slack <= inject_Z n)%Q ∧ (inject_Z n <= x + float_slack)%Q.

(** Every channel of [out] is the channel of [color] times [factor], cut
    down to an integer. *)
Definition dimmed (color : rgb) (factor : Q) (out : rgb) : Prop :=
  cut_from (inject_Z color.1.1 * factor) out.1.1 ∧
  cut_from (inject_Z color.1.2 * factor) out.1.2 ∧
  cut_from (inject_Z color.2 * factor) out.2.

(** [c1] is in no channel brighter than [c2]. *)
Definition no_brighter (c1 c2 : rgb) : Prop :=
  c1.1.1 ≤ c2.1.1 ∧ c1.1.2 ≤ c2.1.2 ∧ c1.2 ≤ c2.2.

(** Both strip buffers have the configured number of pixels. *)
Definition strips_ok (w : world) : Prop :=
  Z.of_nat (length (stripA w)) = LED_NUM_A ∧
  Z.of_nat (length (stripB w)) = LED_NUM_B.

(** Every pixel of both buffers, and of what was last written to the
    wire, is black. *)
Definition all_dark (w : world) : Prop :=
  Forall (λ c, c = black) (stripA w) ∧ Forall (λ c, c = black) (stripB w) ∧
  shownA w = stripA w ∧ shownB w = stripB w.

(** [steady w w']: only pixels and the call log differ between [w] and
    [w']; the buffers keep their sizes. *)
Record steady (w w' : world) : Prop := Steady {
  steady_lenA : length (stripA w') = length (stripA w);
  steady_lenB : length (stripB w') = length (stripB w);
  steady_hits : active_hits w' = active_hits w;
  steady_vertical : active_vertical_leds w' = active_vertical_leds w;
  steady_clock : clock w' = clock w;
  steady_entropy : entropy w' = entropy w;
  steady_draws : draws w' = draws w
}.

(** [untouched w w']: nothing but the call log differs. *)
Definition untouched (w w' : world) : Prop :=
  w' = with_calls (calls w') w.

(** What a vertical scan may answer: it raises [ValueError], or it
    returns companions in column [col] with colour [color] that have an
    LED. *)
Definition scan_result (col : Z) (color : rgb)
    (r : outcome (list (Z * Z * rgb))) : Prop :=
  match r with
  | Ok l =>
      Forall (λ p, p.1.2 = col ∧ p.2 = color ∧
                   ∃ led, grid_to_led (p.1.1, col) = Ok (Some led)) l
  | Raise e => e = ValueError
  | OutOfFuel => False
  end.

(** The part of the call log that tells how a show went: the hits
    dispatched and the pixels the wave lit, without the calls that fade,
    age or clear. *)
Definition keeps (c : call) : bool :=
  match c with
  | Call_display_hit_effect _ _ _ => true
  | Call_set_pixel (WaveLeft | WaveRight | Reflect) _ _ => true
  | Call_set_pixel _ _ _ => false
  end.

Definition trail (l : list call) : list call := List.filter keeps l.

(** What one tick of the registry renders for an entry of the hit
    registry, in the words of the specification: nothing before the fade
    starts; black once the progress has reached 1; otherwise the colour
    times [min((1 - progress) * HIT_BOOST, 1)]. *)
Definition render_hit (now : Z) (item : Z * Z * (rgb * Z)) : list call :=
  let '(cell, (color, start_fade_time)) := item in
  if 0 <=? ticks_diff now start_fade_time then
    let progress := fade_progress_at now start_fade_time in
    [Call_set_pixel FadeHit cell
       (if Qle_bool 1 progress then black
        else dim color (Qmin ((1 - progress) * HIT_POINT_BRIGHTNESS_BOOST) 1))]
  else [].

(** The same for a companion entry: the colour times [1 - progress]. *)
Definition render_companion (now : Z) (item : Z * Z * (rgb * Z))
  : list call :=
  let '(cell, (color, start_fade_time)) := item in
  if 0 <=? ticks_diff now start_fade_time then
    let progress := fade_progress_at now start_fade_time in
    [Call_set_pixel FadeCompanion cell
       (if Qle_bool 1 progress then black else dim color (1 - progress))]
  else [].

(** An entry whose fade is over at [now]. *)
Definition faded_out (now : Z) (entry : rgb * Z) : Prop :=
  FADE_STEPS * FADE_INTERVAL ≤ ticks_diff now entry.2.

#[global] Instance faded_out_dec now entry : Decision (faded_out now entry) :=
  decide (FADE_STEPS * FADE_INTERVAL ≤ ticks_diff now entry.2).

(** The registry after a tick at [now]: the entries that are not over. *)
Definition survivors (now : Z) (d : gmap (Z * Z) (rgb * Z))
  : gmap (Z * Z) (rgb * Z) :=
  filter (λ kv, ¬ faded_out now kv.2) d.

(** Every key of a registry is a cell of the grid. *)
Definition cells_in_grid (d : gmap (Z * Z) (rgb * Z)) : Prop :=
  map_Forall (λ cell _, in_grid cell) d.

(** The state the program keeps between two operations: strips of the
    configured sizes, registry keys inside the grid, and no fade scheduled
    to start more than 100 ms ahead. *)
Record healthy (w : world) : Prop := Healthy {
  healthy_strips : strips_ok w;
  healthy_hits :
    map_Forall (λ cell entry, in_grid cell ∧ entry.2 ≤ clock w + 100)
      (active_hits w);
  healthy_vertical :
    map_Forall (λ cell entry, in_grid cell ∧ entry.2 ≤ clock w + 100)
      (active_vertical_leds w)
}.

(** [ticked w w']: [w'] is [w] after one tick of the two registries at
    the time [clock w]. *)
Record ticked (w w' : world) : Prop := Ticked {
  ticked_lenA : length (stripA w') = length (stripA w);
  ticked_lenB : length (stripB w') = length (stripB w);
  ticked_hits : active_hits w' = survivors (clock w) (active_hits w);
  ticked_vertical :
    active_vertical_leds w' = survivors (clock w) (active_vertical_leds w);
  ticked_clock : clock w' = clock w;
  ticked_entropy : entropy w' = entropy w;
  ticked_draws : draws w' = draws w;
  ticked_calls :
    calls w' =
    calls w ++
    flat_map (render_hit (clock w)) (map_to_list (active_hits w)) ++
    flat_map (render_companion (clock w))
      (map_to_list (active_vertical_leds w))
}.

#[global] Instance site_eq_dec : EqDecision site.
Proof. solve_decision. Defined.

(** The colours that the calls of [l] made from the site [from] hand to
    [set_pixel] for the cell [cell], in order. *)
Definition rendered (from : site) (cell : Z * Z) (l : list call) : list rgb :=
  omap (λ c,
    match c with
    | Call_set_pixel f location color =>
        if decide (f = from ∧ location = cell) then Some color else None
    | Call_display_hit_effect _ _ _ => None
    end) l.

(** A world in the middle of a fade, used to exercise the registry tick:
    the hit at (0, 0) and its companion at (1, 0) started to fade at 100 ms
    and the clock reads 300 ms. *)
Definition fading_world : world :=
  with_active_vertical_leds {[ (1, 0) := ((255, 0, 0), 100) ]}
    (with_active_hits {[ (0, 0) := ((255, 0, 0), 100) ]}
       (with_clock 300 (boot (λ _, 0%Q)))).

(** The pixels that step [step] of the expansion lights for a hit at
    [(row, col)]: [col - step] and [col + step], each when it is inside the
    row. *)
Definition expansion_lit (row col : Z) (color : rgb) (step : Z) : list call :=
  (if decide (0 ≤ col - step)
   then [Call_set_pixel WaveLeft (row, col - step) color] else []) ++
  (if decide (col + step ≤ COLS - 1)
   then [Call_set_pixel WaveRight (row, col + step) color] else []).

(** The expansion phase: steps [1 .. max(col, COLS - 1 - col)]. *)
Definition expansion_calls (row col : Z) (color : rgb) : list call :=
  flat_map (expansion_lit row col color)
    (seqZ 1 (Z.max col (COLS - 1 - col))).

(** The pixel that the reflection lights when its sweep is at
    [current_col]: that column, unless it is the hit column. *)
Definition reflection_lit (row col : Z) (color : rgb) (current_col : Z)
  : list call :=
  if decide (current_col ≠ col)
  then [Call_set_pixel Reflect (row, current_col) color] else [].

(** The reflection phase: columns [COLS - 1] down to [0]. *)
Definition reflection_calls (row col : Z) (color : rgb) : list call :=
  flat_map (reflection_lit row col color) (reverse (seqZ 0 COLS)).

(** The world right after the module has been loaded, with a generator
    that always draws 0. *)
Definition fresh_world : world := boot (λ _, 0%Q).

(** A processed hit that can be dispatched: numeric row and column inside
    the grid and a colour list. *)
Definition dispatchable (p : processed_hit) : Prop :=
  match p with
  | (_, FNum row, FNum col, FColor _) => in_grid (row, col)
  | _ => False
  end.

(** What the dispatch of a processed hit adds to the trail: the call of
    [display_hit_effect], the pixels of the expansion, the pixels of the
    reflection. *)
Definition show_trail (p : processed_hit) : list call :=
  match p with
  | (_, FNum row, FNum col, FColor color) =>
      Call_display_hit_effect row col color
        :: expansion_calls row col color ++ reflection_calls row col color
  | _ => []
  end.

(** The delay drawn for the [k]-th retained hit, in milliseconds:
    [uniform(min_delay, max_delay) * 1000]. *)
Definition delay_ms (rand : nat → Q) (min_delay max_delay : Z) (k : nat) : Q :=
  ((inject_Z min_delay
    + (inject_Z max_delay - inject_Z min_delay) * rand k) * inject_Z 1000)%Q.

(** The schedule the specification describes: the hits with four fields,
    in their order, the [i]-th of them due at
    [dueTime[i] = dueTime[i-1] + uniform(min, max)]; [k] counts the draws
    made so far and [due] is the last due time. *)
Fixpoint synthetic_schedule (delay : nat → Q) (k : nat) (due : Q)
    (hits : list hit) : list processed_hit :=
  match hits with
  | [] => []
  | [_; row; col; color] :: hits' =>
      let due' := (due + delay k)%Q in
      (due', row, col, color) :: synthetic_schedule delay (S k) due' hits'
  | _ :: hits' => synthetic_schedule delay k due hits'
  end.

(** The row, column and colour of the hits that have exactly four
    fields, in their order. *)
Definition retained (hits : list hit) : list (field * field * field) :=
  omap (λ h : hit,
    match h with
    | [_; row; col; color] => Some (row, col, color)
    | _ => None
    end) hits.

(** The delay bounds of the profile selected by [is_in_corner]. *)
Definition profile (is_in_corner : bool) : Z * Z :=
  if is_in_corner then (CORNER_MODE_MIN_DELAY, CORNER_MODE_MAX_DELAY)
  else (NORMAL_MODE_MIN_DELAY, NORMAL_MODE_MAX_DELAY).

(** A hit record that the show can play: fewer than four fields (it is
    skipped), or a time stamp, a row and a column inside the grid, and a
    colour list. *)
Definition playable (h : hit) : Prop :=
  match h with
  | [_; FNum row; FNum col; FColor _] => in_grid (row, col)
  | _ => (length h < 4)%nat
  end.

(** A world in which the first pixel of strip A is lit. *)
Definition lit_world : world :=
  with_strip A (<[0%nat := (12, 0, 0)]> (stripA fresh_world)) fresh_world.

(** The registries as [play_visualization] resets them on entry. *)
Definition reset_registries (w : world) : world :=
  with_active_vertical_leds ∅ (with_active_hits ∅ w).

(** ** Vocabulary for the further properties *)

(** The colour a cell shows in the buffers: the pixel of its LED, nothing
    for a hole or a cell outside the grid. *)
Definition pixel_at (w : world) (cell : Z * Z) : option rgb :=
  match grid_to_led cell with
  | Ok (Some (s, i)) => strip_of s w !! Z.to_nat i
  | _ => None
  end.

(** Number of pixels of a strip. *)
(** The wire shows what the buffers hold. *)
Definition on_wire (w : world) : Prop :=
  shownA w = stripA w ∧ shownB w = stripB w.

(** What [set_pixel] leaves in the buffers at [cell] when it is handed
    [color] with [boost]: the scaled colour, and nothing at a hole. *)
Definition painted (w : world) (cell : Z * Z) (color : rgb) (boost : Q)
  : Prop :=
  pixel_at w cell
  = if decide (is_hole cell) then None else Some (scale color boost).

(** The same at the default boost, for a colour with channels in
    [0, 255], with the scaling spelled out: every channel divided by 20. *)
Definition shows (w : world) (cell : Z * Z) (handed : rgb) : Prop :=
  pixel_at w cell
  = if decide (is_hole cell) then None
    else Some (handed.1.1 / 20, handed.1.2 / 20, handed.2 / 20).



Definition capacity (s : strip_id) : Z :=
  match s with A => LED_NUM_A | B => LED_NUM_B end.

(** The cell wired to the LED [i] of strip [s]: strip A runs down the
    even columns and up the odd ones, strip B runs right along the even
    b-rows and left along the odd ones. *)
Definition led_to_grid (s : strip_id) (i : Z) : Z * Z :=
  let run := i / 8 in
  let k := if run mod 2 =? 0 then i mod 8 else 7 - i mod 8 in
  match s with
  | A => (2 * k, run)
  | B => (2 * run + 1, 2 * k)
  end.

(** Two cells next to each other along the cable of strip [s]. *)
Definition cable_neighbours (s : strip_id) (c1 c2 : Z * Z) : Prop :=
  match s with
  | A => (c2.2 = c1.2 ∧ (c2.1 = c1.1 + 2 ∨ c2.1 = c1.1 - 2)) ∨
         (c2.2 = c1.2 + 1 ∧ c2.1 = c1.1)
  | B => (c2.1 = c1.1 ∧ (c2.2 = c1.2 + 2 ∨ c2.2 = c1.2 - 2)) ∨
         (c2.1 = c1.1 + 2 ∧ c2.2 = c1.2)
  end.

(** A colour without negative channel. *)
Definition nonneg_color (c : rgb) : Prop :=
  0 ≤ c.1.1 ∧ 0 ≤ c.1.2 ∧ 0 ≤ c.2.

(** The outcome of the upward scan for a hit in row [row]: nothing when
    no cell above has an LED, otherwise the nearest row above that has
    one. *)
Definition nearest_led_above (row col : Z) (found : list Z) : Prop :=
  match found with
  | [] => ∀ r, 0 ≤ r < row → grid_to_led (r, col) = Ok None
  | [r'] =>
      0 ≤ r' < row ∧ (∃ led, grid_to_led (r', col) = Ok (Some led)) ∧
      ∀ r, r' < r < row → grid_to_led (r, col) = Ok None
  | _ => False
  end.

(** The same for the downward scan. *)
Definition nearest_led_below (row col : Z) (found : list Z) : Prop :=
  match found with
  | [] => ∀ r, row < r < ROWS → grid_to_led (r, col) = Ok None
  | [r'] =>
      row < r' < ROWS ∧ (∃ led, grid_to_led (r', col) = Ok (Some led)) ∧
      ∀ r, row < r < r' → grid_to_led (r, col) = Ok None
  | _ => False
  end.

(** A cell that shows black, or nothing because it has no LED. *)
Definition dark (w : world) (cell : Z * Z) : Prop :=
  ∀ p, pixel_at w cell = Some p → p = black.

(** Every fade of both registries is over by the time [T]. *)
Definition fades_end_by (T : Z) (w : world) : Prop :=
  map_Forall (λ _ entry, entry.2 + FADE_STEPS * FADE_INTERVAL ≤ T)
    (active_hits w) ∧
  map_Forall (λ _ entry, entry.2 + FADE_STEPS * FADE_INTERVAL ≤ T)
    (active_vertical_leds w).

(** [w'] has the registries of [w] after a tick at [clock w]. *)
Definition registries_ticked (w w' : world) : Prop :=
  active_hits w' = survivors (clock w) (active_hits w) ∧
  active_vertical_leds w' = survivors (clock w) (active_vertical_leds w).

(** Two hit records that agree on everything after their first field,
    the time stamp. *)
Definition same_but_time (h h' : hit) : Prop := tail h = tail h'.

(** Processed hits whose due times never decrease, starting from
    [previous], and of which the first is due between [k * lo] and [k * hi]
    milliseconds, the second between [(k + 1) * lo] and [(k + 1) * hi], and
    so on. *)
Fixpoint scheduled (lo hi : Q) (k : Z) (previous : Q)
    (l : list processed_hit) : Prop :=
  match l with
  | [] => True
  | p :: l' =>
      (previous <= p.1.1.1)%Q ∧
      (inject_Z k * lo <= p.1.1.1)%Q ∧ (p.1.1.1 <= inject_Z k * hi)%Q ∧
      scheduled lo hi (k + 1) p.1.1.1 l'
  end.

(** [heatmap_grid[row][col]]. *)
Definition cell_count (heatmap_grid : list (list Z)) (row col : Z)
  : option Z :=
  heatmap_grid !! Z.to_nat row ≫= λ cells, cells !! Z.to_nat col.

(** A record that names the cell [(row, col)]. *)
Definition lands_on (row col : Z) (h : hit) : bool :=
  match h with
  | [_; FNum r; FNum c; _] => bool_decide (r = row ∧ c = col)
  | _ => false
  end.

(** How many records of [hits] name the cell [(row, col)]. *)
Definition hits_at (row col : Z) (hits : list hit) : Z :=
  Z.of_nat (length (filter (λ h, lands_on row col h = true) hits)).

(** A record the heat map can count: four fields, a number for the row,
    and a number for the column when the row is inside the grid. *)
Definition countable_hit (h : hit) : Prop :=
  match h with
  | [_; FNum row; col; _] => 0 ≤ row < ROWS → ∃ c, col = FNum c
  | _ => False
  end.

(** A grid of [ROWS] rows of [COLS] cells. *)
Definition grid_shaped (heatmap_grid : list (list Z)) : Prop :=
  length heatmap_grid = Z.to_nat ROWS ∧
  Forall (λ cells, length cells = Z.to_nat COLS) heatmap_grid.

(** Coordinates up to this size stay clear of the overflow of the floats,
    which is not modelled. *)
Definition coordinate_bound : Q := inject_Z (10 ^ 300).

(** The point [(x, y)] lies in a measured range. *)
Definition within (range : option (Q * Q * Q * Q)) (x y : Q) : Prop :=
  match range with
  | Some (xmin, xmax, ymin, ymax) =>
      (xmin <= x <= xmax)%Q ∧ (ymin <= y <= ymax)%Q
  | None => False
  end.

(** The colours [angle_to_rgb] can answer. *)
Definition angle_colour (c : option rgb) : Prop :=
  c = Some (0, 0, 255) ∨ c = Some (255, 0, 0) ∨ c = None.

(** A row of detector 1 whose position can be read as [(x, y)]. *)
Definition measured (parse_int : string → option Z)
    (parse_float : string → option Q) (row : list string) (x y : Q) : Prop :=
  row !! DETECTOR_COL ≫= parse_int = Some 1 ∧
  row !! X_COL ≫= parse_float = Some x ∧
  row !! Y_COL ≫= parse_float = Some y.

(** A small data set to run the preprocessing on: two complete events,
    one at each corner of the range, a row of an unknown detector and a row
    that is too short; every angle is 0.12. *)
Definition sample_int (s : string) : option Z :=
  match s with
  | "1" => Some 1
  | "2" => Some 2
  | "3" => Some 3
  | "9" => Some 9
  | _ => None
  end.

Definition sample_float (s : string) : option Q :=
  match s with
  | "0" => Some 0%Q
  | "1" => Some 1%Q
  | "5" => Some 5%Q
  | _ => None
  end.

Definition sample_rows : list (list string) :=
  [ ["0"; "0"; "0"; "-"; "-"; "-"; "-"; "1"];
    ["0"; "1"; "1"; "-"; "-"; "-"; "-"; "2"];
    ["0"; "5"; "5"; "-"; "-"; "-"; "-"; "3"];
    ["1"; "5"; "5"; "-"; "-"; "-"; "-"; "9"];
    ["1"; "5"; "5"];
    ["1"; "5"; "5"; "-"; "-"; "-"; "-"; "1"];
    ["1"; "1"; "1"; "-"; "-"; "-"; "-"; "2"];
    ["1"; "0"; "0"; "-"; "-"; "-"; "-"; "3"] ].

(** The wave of [display_hit_effect] (lines 204-280): the expansion, the
    reflection and the clearing of the row, as they stand in
    [display_hit_effect]. *)
Definition wave (row col : Z) (color : rgb) : M unit :=
  let steps_to_right := right_boundary - col in
  let steps_to_left := col - left_boundary in
  let max_steps := Z.max steps_to_right steps_to_left in
  active_wave_pixels ←
    expansion_loop row col color (seqZ 1 max_steps) [];
  let current_col := right_boundary in
  active_wave_pixels ←
    reflection_loop (Z.to_nat (current_col - left_boundary + 1))
      row col color current_col active_wave_pixels;
  for_each (seqZ 0 COLS) (λ _ c,
    if negb (c =? col) then set_pixel RowClear (row, c) (0, 0, 0) 1 false
    else mret tt) tt;;
  strip_write A;;
  strip_write B.

(** The reflection over the columns of a list, one step each. *)
Definition sweep (row col : Z) (color : rgb) (columns : list Z)
    (active_wave_pixels : list (Z * Z)) : M (list (Z * Z)) :=
  for_each columns
    (λ active_wave_pixels current_col,
       reflection_step row col color current_col active_wave_pixels)
    active_wave_pixels.

(** The wave pixels that are pending when [k] steps of the expansion have
    been made and the clock reads [now]: each was lit in a step [s] at
    [col - s] or [col + s], goes dark [WAVE_LIGHT_DURATION] ms after it was
    lit, and was not due yet when the list was last aged. *)
Definition expansion_pending (col k now : Z) (pending : list (Z * Z))
  : Prop :=
  Forall (λ p : Z * Z,
    0 ≤ p.1 ≤ COLS - 1 ∧
    ∃ s, 1 ≤ s ≤ k ∧ (p.1 = col - s ∨ p.1 = col + s) ∧
         p.2 = now - WAVE_LIGHT_SPREAD_DELAY * (k - s + 1)
               + WAVE_LIGHT_DURATION ∧
         now - WAVE_LIGHT_SPREAD_DELAY < p.2) pending.

(** The same when the reflection, begun at [start] after [k] steps of
    expansion, has swept [j] columns: what is pending was left by the
    expansion or lit by the sweep at a column [COLS - 1 - i]. *)
Definition reflection_pending (col k start j now : Z)
    (pending : list (Z * Z)) : Prop :=
  Forall (λ p : Z * Z,
    0 ≤ p.1 ≤ COLS - 1 ∧
    ((∃ s, 1 ≤ s ≤ k ∧ (p.1 = col - s ∨ p.1 = col + s) ∧
           p.2 = start - WAVE_LIGHT_SPREAD_DELAY * (k - s + 1)
                 + WAVE_LIGHT_DURATION ∧
           now - WAVE_LIGHT_SPREAD_DELAY < p.2) ∨
     (∃ i, 0 ≤ i < j ∧ p.1 = COLS - 1 - i ∧
           p.2 = start + WAVE_LIGHT_SPREAD_DELAY * i
                 + WAVE_LIGHT_DURATION ∧
           now - WAVE_LIGHT_SPREAD_DELAY < p.2))) pending.

(** ** Arithmetic helpers *)

Ltac zlia := Z.div_mod_to_equations; lia.

Ltac grid_cases :=
  unfold grid_to_led, in_grid, is_hole, LED_NUM_A, LED_NUM_B, LEDS_PER_ACOL,
    LEDS_PER_BROW, A_ROWS, ROWS, COLS in *;
  simpl in *;
  repeat match goal with
  | |- context [?a <=? ?b] => destruct (Z.leb_spec a b)
  | |- context [?a <? ?b] => destruct (Z.ltb_spec a b)
  | |- context [?a =? ?b] => destruct (Z.eqb_spec a b)
  | H : context [?a <=? ?b] |- _ => destruct (Z.leb_spec a b)
  | H : context [?a <? ?b] |- _ => destruct (Z.ltb_spec a b)
  | H : context [?a =? ?b] |- _ => destruct (Z.eqb_spec a b)
  end; simpl in *.

Arguments grid_to_led : simpl never.
Arguments scale : simpl never.
Arguments set_pixel : simpl never.
Arguments process_active_points : simpl never.
Arguments int : simpl never.

Lemma int_floor (x : Q) : (0 <= x)%Q → int x = Qfloor x.
Proof.
  destruct x as [n d]. unfold Qle, int, Qfloor. simpl. intros H.
  apply Z.quot_div_nonneg; lia.
Qed.

Lemma int_Qeq (x y : Q) : (0 <= x)%Q → (x == y)%Q → int x = int y.
Proof.
  intros Hx Hxy. rewrite !int_floor; [|by rewrite <- Hxy|done].
  by rewrite Hxy.
Qed.

Lemma inject_Z_nonneg (r : Z) : 0 ≤ r → (0 <= inject_Z r)%Q.
Proof. intros H. unfold Qle. simpl. lia. Qed.

Lemma scaled_bounds (r : Z) (f : Q) :
  0 ≤ r → (0 <= f)%Q → (f <= 1)%Q →
  (0 <= inject_Z r * f)%Q ∧ (inject_Z r * f <= inject_Z r)%Q.
Proof.
  intros Hr H0 H1. pose proof (inject_Z_nonneg r Hr) as Hq. split.
  - by apply Qmult_le_0_compat.
  - rewrite <- (Qmult_1_r (inject_Z r)) at 2.
    rewrite !(Qmult_comm (inject_Z r)). by apply Qmult_le_compat_r.
Qed.

Lemma int_scaled_range (r : Z) (f : Q) :
  channel_ok r → (0 <= f)%Q → (f <= 1)%Q → channel_ok (int (inject_Z r * f)).
Proof.
  unfold channel_ok. intros [Hr0 Hr1] H0 H1.
  destruct (scaled_bounds r f Hr0 H0 H1) as [Hlo Hhi].
  rewrite int_floor by done. split.
  - change 0 with (Qfloor (inject_Z 0)). by apply Qfloor_resp_le.
  - apply Qfloor_resp_le in Hhi. rewrite Qfloor_Z in Hhi. lia.
Qed.

Lemma dim_range (color : rgb) (f : Q) :
  color_ok color → (0 <= f)%Q → (f <= 1)%Q → color_ok (dim color f).
Proof.
  intros (?&?&?) ??. unfold dim, color_ok. simpl.
  repeat split; by apply int_scaled_range.
Qed.

Lemma scale_dim (color : rgb) (boost : Q) :
  scale color boost = dim color (Qmin (BRIGHTNESS * boost) 1).
Proof. by destruct color as [[r g] b]. Qed.

Lemma scale_default (color : rgb) :
  nonneg_color color →
  scale color 1 = (color.1.1 / 20, color.1.2 / 20, color.2 / 20).
Proof.
  destruct color as [[r g] b]. intros (Hr & Hg & Hb). simpl in *.
  assert (∀ v, 0 ≤ v → int (inject_Z v * (1 # 20)) = v / 20) as H20.
  { intros v Hv. unfold int. simpl. rewrite Z.quot_div_nonneg by lia.
    f_equal. lia. }
  rewrite scale_dim. unfold dim. simpl.
  change (Qmin (BRIGHTNESS * 1) 1) with (1 # 20). by rewrite !H20.
Qed.

Lemma scale_hit_boost (color : rgb) :
  nonneg_color color →
  scale color HIT_POINT_BRIGHTNESS_BOOST
  = (color.1.1 / 2, color.1.2 / 2, color.2 / 2).
Proof.
  destruct color as [[r g] b]. intros (Hr & Hg & Hb). simpl in *.
  assert (∀ v, 0 ≤ v → int (inject_Z v * (10 # 20)) = v / 2) as H2.
  { intros v Hv. unfold int. simpl. rewrite Z.quot_div_nonneg by lia. zlia. }
  rewrite scale_dim. unfold dim. simpl.
  change (Qmin (BRIGHTNESS * HIT_POINT_BRIGHTNESS_BOOST) 1) with (10 # 20).
  by rewrite !H2.
Qed.

Lemma scale_saturated (color : rgb) (boost : Q) :
  nonneg_color color → (20 <= boost)%Q → scale color boost = color.
Proof.
  destruct color as [[r g] b]. intros (Hr & Hg & Hb) Hboost. simpl in *.
  rewrite scale_dim. unfold dim. simpl.
  assert (Qmin (BRIGHTNESS * boost) 1 == 1)%Q as Hone.
  { apply Q.min_r. unfold BRIGHTNESS. lra. }
  assert (∀ v, 0 ≤ v → int (inject_Z v * Qmin (BRIGHTNESS * boost) 1) = v)
    as Hid.
  { intros v Hv. rewrite (int_Qeq _ (inject_Z v)).
    - rewrite int_floor by by apply inject_Z_nonneg. apply Qfloor_Z.
    - apply Qmult_le_0_compat; [by apply inject_Z_nonneg|].
      rewrite Hone. lra.
    - rewrite Hone. ring. }
  by rewrite !Hid.
Qed.

Lemma color_ok_nonneg (color : rgb) : color_ok color → nonneg_color color.
Proof. intros ([? _] & [? _] & [? _]). by repeat split. Qed.

(** ** The coordinate mapper *)

Lemma grid_to_led_inv row col s i :
  grid_to_led (row, col) = Ok (Some (s, i)) →
  in_grid (row, col) ∧
  ((s = A ∧ row mod 2 = 0 ∧
    i = col * 8 + (if decide (col mod 2 = 0) then row / 2 else 7 - row / 2)) ∨
   (s = B ∧ row mod 2 = 1 ∧ col mod 2 = 0 ∧
    i = ((row - 1) / 2) * 8 +
        (if decide (((row - 1) / 2) mod 2 = 0) then col / 2
         else 7 - col / 2))).
Proof.
  intros H. grid_cases; try discriminate;
  injection H as <- <-; repeat case_decide; try (exfalso; zlia);
  (split; [lia|]);
  first [left; repeat split; zlia | right; repeat split; zlia].
Qed.

Lemma grid_to_led_raises location :
  ¬ in_grid location → grid_to_led location = Raise ValueError.
Proof. destruct location as [row col]. intros H. grid_cases; done || lia. Qed.

Lemma grid_to_led_in_grid location :
  in_grid location →
  (is_hole location ∧ grid_to_led location = Ok None) ∨
  (¬ is_hole location ∧ ∃ s i, grid_to_led location = Ok (Some (s, i))).
Proof.
  destruct location as [row col]. intros H.
  grid_cases; try lia;
  first [left; split; [zlia | done] | right; split; [zlia | eauto]].
Qed.

(** C7. For an in-bounds cell the mapper answers "no LED" exactly when
    the row and the column are both odd.  Every other in-bounds cell has an
    LED: on strip A when the row is even, on strip B when the row is odd
    and the column even. *)
Theorem grid_to_led_none_iff_odd_odd (row col : Z) :
  in_grid (row, col) →
  (grid_to_led (row, col) = Ok None ↔ row mod 2 = 1 ∧ col mod 2 = 1) ∧
  (row mod 2 = 0 → ∃ i, grid_to_led (row, col) = Ok (Some (A, i))) ∧
  (row mod 2 = 1 → col mod 2 = 0 →
   ∃ i, grid_to_led (row, col) = Ok (Some (B, i))).
Proof.
  intros H.
  destruct (grid_to_led_in_grid _ H) as [[Hh E]|[Hh (s & i & E)]];
    unfold is_hole in Hh; simpl in Hh; rewrite E.
  - split; [done|]. split; intros; exfalso; lia.
  - split; [split; [discriminate | by intros []%Hh]|].
    apply grid_to_led_inv in E as [_ [(-> & ? & _)|(-> & ? & ? & _)]];
      split; intros; first [by eauto | exfalso; lia].
Qed.

Lemma grid_to_led_none_iff_odd_odd_witness :
  (grid_to_led (3, 5) = Ok None ↔ 3 mod 2 = 1 ∧ 5 mod 2 = 1) ∧
  (3 mod 2 = 0 → ∃ i, grid_to_led (3, 5) = Ok (Some (A, i))) ∧
  (3 mod 2 = 1 → 5 mod 2 = 0 →
   ∃ i, grid_to_led (3, 5) = Ok (Some (B, i))).
Proof.
  apply (grid_to_led_none_iff_odd_odd 3 5).
  unfold in_grid, ROWS, COLS. simpl. lia.
Defined.

Lemma grid_to_led_same_led (loc1 loc2 : Z * Z) (s : strip_id) (i : Z) :
  grid_to_led loc1 = Ok (Some (s, i)) →
  grid_to_led loc2 = Ok (Some (s, i)) →
  loc1 = loc2.
Proof.
  destruct loc1 as [r1 c1], loc2 as [r2 c2].
  intros [[??] G1]%grid_to_led_inv [[??] G2]%grid_to_led_inv.
  unfold in_grid, ROWS, COLS in *. simpl in *.
  assert (r1 = r2 ∧ c1 = c2) as [-> ->]; [|done].
  destruct G1 as [(-> & ? & ->)|(-> & ? & ? & ->)],
           G2 as [(? & ? & E)|(? & ? & ? & E)];
    try discriminate; repeat case_decide; zlia.
Qed.

(** C3. The mapper is injective over the cells that have an LED: two
    distinct in-bounds cells that are not holes resolve to two distinct
    (strip, index) pairs. *)
Theorem grid_to_led_injective (loc1 loc2 : Z * Z) :
  in_grid loc1 → in_grid loc2 → ¬ is_hole loc1 → ¬ is_hole loc2 →
  loc1 ≠ loc2 →
  ∃ led1 led2,
    grid_to_led loc1 = Ok (Some led1) ∧ grid_to_led loc2 = Ok (Some led2) ∧
    led1 ≠ led2.
Proof.
  intros H1 H2 N1 N2 Hne.
  destruct (grid_to_led_in_grid _ H1) as [[? _]|[_ (s1 & i1 & E1)]]; [done|].
  destruct (grid_to_led_in_grid _ H2) as [[? _]|[_ (s2 & i2 & E2)]]; [done|].
  exists (s1, i1), (s2, i2). repeat split; [done..|].
  intros [= <- <-]. by apply Hne, (grid_to_led_same_led _ _ s1 i1).
Qed.

Lemma grid_to_led_injective_witness :
  ∃ led1 led2,
    grid_to_led (4, 7) = Ok (Some led1) ∧ grid_to_led (5, 8) = Ok (Some led2) ∧
    led1 ≠ led2.
Proof.
  apply (grid_to_led_injective (4, 7) (5, 8));
    unfold in_grid, is_hole, ROWS, COLS; simpl;
    first [lia | (intros [? ?]; discriminate) | discriminate].
Defined.

(** ** Brightness scaling *)

Lemma int_cut (x : Q) : (0 <= x)%Q → cut_from x (int x).
Proof.
  intros Hx. rewrite int_floor by done.
  pose proof (Qfloor_le x). pose proof (Qlt_floor x) as Hlt.
  rewrite inject_Z_plus in Hlt. unfold cut_from, float_slack.
  change (inject_Z 1) with 1%Q in Hlt. split; lra.
Qed.

Lemma dim_dimmed (color : rgb) (f : Q) :
  color_ok color → (0 <= f)%Q → dimmed color f (dim color f).
Proof.
  intros ([? _] & [? _] & [? _]) Hf. unfold dimmed, dim. simpl.
  repeat split; apply int_cut;
    (apply Qmult_le_0_compat; [by apply inject_Z_nonneg|done]).
Qed.

Lemma dimmed_Qeq (color : rgb) (f f' : Q) (out : rgb) :
  (f == f')%Q → dimmed color f out → dimmed color f' out.
Proof.
  intros E ([? ?] & [? ?] & [? ?]). unfold dimmed, cut_from.
  rewrite <- !E. done.
Qed.

Lemma dim_no_brighter (color : rgb) (f : Q) :
  color_ok color → (0 <= f)%Q → (f <= 1)%Q → no_brighter (dim color f) color.
Proof.
  intros ([Hr _] & [Hg _] & [Hb _]) H0 H1. unfold no_brighter, dim. simpl.
  assert (∀ v, 0 ≤ v → int (inject_Z v * f) ≤ v) as Hle.
  { intros v Hv. destruct (scaled_bounds v f Hv H0 H1) as [Hlo Hhi].
    rewrite int_floor by done. apply Qfloor_resp_le in Hhi.
    by rewrite Qfloor_Z in Hhi. }
  repeat split; by apply Hle.
Qed.

(** C6. With channels in [0, 255] and a boost that is not negative
    [scale] applies the factor [clamp(BRIGHTNESS * boost, 0, 1)]: every
    channel it returns is the channel times that factor, cut down to an
    integer; it is in [0, 255] and not above the channel it came from. *)
Theorem scale_clamps_into_range (color : rgb) (boost : Q) :
  color_ok color → (0 <= boost)%Q →
  dimmed color (clamp (BRIGHTNESS * boost) 0 1) (scale color boost) ∧
  color_ok (scale color boost) ∧
  no_brighter (scale color boost) color.
Proof.
  intros Hc Hb.
  assert (0 <= BRIGHTNESS * boost)%Q as Hf by by apply Qmult_le_0_compat.
  assert (0 <= Qmin (BRIGHTNESS * boost) 1)%Q as Hm
    by by apply Q.min_glb.
  rewrite scale_dim. split; [|split].
  - apply (dimmed_Qeq _ (Qmin (BRIGHTNESS * boost) 1));
      [|by apply dim_dimmed].
    unfold clamp. by rewrite Q.max_r.
  - apply dim_range; [done..|]. apply Q.le_min_r.
  - apply dim_no_brighter; [done..|]. apply Q.le_min_r.
Qed.

Lemma scale_clamps_into_range_witness :
  dimmed (255, 20, 19) (clamp (BRIGHTNESS * (10 # 1)) 0 1)
    (scale (255, 20, 19) (10 # 1)) ∧
  color_ok (scale (255, 20, 19) (10 # 1)) ∧
  no_brighter (scale (255, 20, 19) (10 # 1)) (255, 20, 19).
Proof.
  apply (scale_clamps_into_range (255, 20, 19) (10 # 1)).
  - unfold color_ok, channel_ok. simpl. lia.
  - unfold Qle. simpl. lia.
Defined.

(** ** Running the program *)

Lemma bind_ok {T U} (m : M T) (f : T → M U) w v w1 :
  m w = (Ok v, w1) → (m ≫= f) w = f v w1.
Proof. intros H. unfold mbind, M_bind. by rewrite H. Qed.

Lemma bind_raise {T U} (m : M T) (f : T → M U) w e w1 :
  m w = (Raise e, w1) → (m ≫= f) w = (Raise e, w1).
Proof. intros H. unfold mbind, M_bind. by rewrite H. Qed.

Lemma bind_inv {T U} (m : M T) (f : T → M U) w u w' :
  (m ≫= f) w = (Ok u, w') →
  ∃ v w1, m w = (Ok v, w1) ∧ f v w1 = (Ok u, w').
Proof.
  unfold mbind, M_bind. destruct (m w) as [[v|e|] w1]; [eauto|done..].
Qed.

(** ** The pixel buffers *)

Lemma fill_black w :
  fill (0, 0, 0) w =
  (Ok tt,
   with_shown B (replicate (length (stripB w)) black)
     (with_shown A (replicate (length (stripA w)) black)
        (with_strip B (replicate (length (stripB w)) black)
           (with_strip A (replicate (length (stripA w)) black) w)))).
Proof. reflexivity. Qed.

Lemma clear_dark w w' : clear w = (Ok tt, w') → all_dark w'.
Proof.
  unfold clear. rewrite fill_black. intros [= <-]. unfold all_dark. simpl.
  repeat split; try done; apply Forall_forall; by intros c [-> _]%elem_of_replicate.
Qed.

(** C9. Clearing twice leaves the two strip buffers (and what is on the
    wire) as one clearing left them: every pixel black. *)
Theorem clear_idempotent (w : world) :
  ∃ w1 w2,
    clear w = (Ok tt, w1) ∧ clear w1 = (Ok tt, w2) ∧
    stripA w2 = stripA w1 ∧ stripB w2 = stripB w1 ∧
    shownA w2 = shownA w1 ∧ shownB w2 = shownB w1 ∧
    all_dark w1.
Proof.
  eexists _, _. split; [reflexivity|]. split; [reflexivity|].
  simpl. rewrite !length_replicate.
  repeat split; try done; apply Forall_forall; by intros c [-> _]%elem_of_replicate.
Qed.

Lemma grid_to_led_index_bound location s i :
  grid_to_led location = Ok (Some (s, i)) →
  0 ≤ i < match s with A => LED_NUM_A | B => LED_NUM_B end.
Proof.
  destruct location as [row col].
  intros [[??] G]%grid_to_led_inv.
  unfold in_grid, ROWS, COLS, LED_NUM_A, LED_NUM_B in *. simpl in *.
  destruct G as [(-> & ? & ->)|(-> & ? & ? & ->)]; repeat case_decide; zlia.
Qed.

Lemma steady_refl w : steady w w.
Proof. by split. Qed.

Lemma steady_trans w1 w2 w3 : steady w1 w2 → steady w2 w3 → steady w1 w3.
Proof. intros [] []. split; congruence. Qed.

Lemma steady_strips_ok w w' : steady w w' → strips_ok w → strips_ok w'.
Proof. intros [] []. split; congruence. Qed.

Lemma set_pixel_ok from location color boost auto_write w :
  in_grid location → strips_ok w →
  ∃ w', set_pixel from location color boost auto_write w = (Ok tt, w') ∧
        steady w w' ∧
        calls w' = calls w ++ [Call_set_pixel from location color].
Proof.
  intros Hg [HA HB]. unfold set_pixel, record.
  destruct (grid_to_led_in_grid _ Hg) as [[_ E]|[_ (s & i & E)]].
  - unfold mbind, M_bind, modify, lift. simpl. rewrite E. simpl.
    eexists. split; [done|]. by split.
  - pose proof (grid_to_led_index_bound _ _ _ E) as Hi.
    unfold mbind, M_bind, modify, lift, setitem. simpl. rewrite E. simpl.
    rewrite bool_decide_true by (destruct s; simpl; lia).
    destruct s, auto_write; simpl; (eexists; split; [done|]);
      (split; [split; simpl; by rewrite ?length_insert | done]).
Qed.

Lemma set_pixel_out_of_grid from location color boost auto_write w :
  ¬ in_grid location →
  set_pixel from location color boost auto_write w =
  (Raise ValueError,
   with_calls (calls w ++ [Call_set_pixel from location color]) w).
Proof.
  intros Hg. unfold set_pixel, record, mbind, M_bind, modify, lift. simpl.
  by rewrite (grid_to_led_raises _ Hg).
Qed.

Lemma set_pixel_led from cell color boost auto_write w s i :
  grid_to_led cell = Ok (Some (s, i)) → strips_ok w →
  ∃ w', set_pixel from cell color boost auto_write w = (Ok tt, w') ∧
        strip_of s w' = <[Z.to_nat i := scale color boost]> (strip_of s w) ∧
        (∀ s', s' ≠ s → strip_of s' w' = strip_of s' w) ∧
        (if auto_write then shownA w' = stripA w' ∧ shownB w' = stripB w'
         else shownA w' = shownA w ∧ shownB w' = shownB w).
Proof.
  intros E [HA HB]. pose proof (grid_to_led_index_bound _ _ _ E) as Hi.
  unfold set_pixel, record, mbind, M_bind, modify, lift, setitem. simpl.
  rewrite E. simpl.
  rewrite bool_decide_true by (destruct s; simpl; lia).
  destruct s, auto_write; simpl; (eexists; split; [done|]); simpl;
    (split; [done|]); (split; [by intros []|done]).
Qed.

Lemma set_pixel_pixels from cell color boost auto_write w :
  strips_ok w → in_grid cell →
  ∃ w', set_pixel from cell color boost auto_write w = (Ok tt, w') ∧
        steady w w' ∧
        (∀ p, pixel_at w' cell = Some p → p = scale color boost) ∧
        (∀ other, other ≠ cell → pixel_at w' other = pixel_at w other).
Proof.
  intros Hw Hg.
  destruct (set_pixel_ok from cell color boost auto_write w Hg Hw)
    as (w' & Hrun & Hst & _).
  exists w'. split; [done|]. split; [done|].
  destruct (grid_to_led_in_grid _ Hg) as [[_ E]|[_ (s & i & E)]].
  - split; [intros p; unfold pixel_at; by rewrite E|].
    revert Hrun.
    unfold set_pixel, record, mbind, M_bind, modify, lift. simpl.
    rewrite E. simpl. intros [= <-]. intros other _. unfold pixel_at.
    by destruct (grid_to_led other) as [[[[] i]|]|e|].
  - destruct (set_pixel_led from cell color boost auto_write w s i E Hw)
      as (w'' & Hrun' & Hs & Hother & _).
    rewrite Hrun in Hrun'. injection Hrun' as <-.
    pose proof (grid_to_led_index_bound _ _ _ E) as Hi.
    split.
    + intros p. unfold pixel_at. rewrite E, Hs.
      rewrite list_lookup_insert_eq by (destruct Hw, s; simpl in *; lia).
      by intros [= <-].
    + intros other Hne. unfold pixel_at.
      destruct (grid_to_led other) as [[[s' i']|]|e|] eqn:E'; try done.
      assert (s' = s ∨ s' ≠ s) as [->|Hs']
        by (destruct s, s'; (by left) || (by right)).
      * rewrite Hs. apply list_lookup_insert_ne. intros Heq.
        apply Hne, (grid_to_led_same_led _ _ s i); [|done].
        pose proof (grid_to_led_index_bound _ _ _ E').
        replace i with i' by lia. done.
      * by rewrite Hother.
Qed.

(** C10. The index the mapper gives for an in-bounds cell lies inside
    the strip it names: 0..119 on strip A ([LED_NUM_A] = 120) and 0..63 on
    strip B ([LED_NUM_B] = 64); hence [set_pixel] on an in-bounds cell never
    fails on the strip buffers. *)
Theorem led_index_within_strip (location : Z * Z) :
  in_grid location →
  (∀ s i, grid_to_led location = Ok (Some (s, i)) →
     match s with
     | A => 0 ≤ i ≤ 119 ∧ i < LED_NUM_A
     | B => 0 ≤ i ≤ 63 ∧ i < LED_NUM_B
     end) ∧
  (∀ from color boost auto_write w, strips_ok w →
     (set_pixel from location color boost auto_write w).1 = Ok tt).
Proof.
  intros Hg. split.
  - intros s i E. apply grid_to_led_index_bound in E.
    unfold LED_NUM_A, LED_NUM_B in *. destruct s; lia.
  - intros from color boost auto_write w Hw.
    destruct (set_pixel_ok from location color boost auto_write w Hg Hw)
      as (w' & -> & _). done.
Qed.

Lemma led_index_within_strip_witness :
  (∀ s i, grid_to_led (14, 13) = Ok (Some (s, i)) →
     match s with
     | A => 0 ≤ i ≤ 119 ∧ i < LED_NUM_A
     | B => 0 ≤ i ≤ 63 ∧ i < LED_NUM_B
     end) ∧
  (∀ from color boost auto_write w, strips_ok w →
     (set_pixel from (14, 13) color boost auto_write w).1 = Ok tt).
Proof.
  apply (led_index_within_strip (14, 13)).
  unfold in_grid, ROWS, COLS. simpl. lia.
Defined.

(** ** Hits outside the grid *)

Lemma scan_above_spec budget above_row col color w :
  (Z.to_nat (above_row + 1) ≤ budget)%nat →
  ∃ r, scan_above budget above_row col color w = (r, w) ∧
       scan_result col color r ∧
       (above_row < ROWS → 0 ≤ col < COLS → ∃ l, r = Ok l).
Proof.
  revert above_row. induction budget as [|budget IH]; intros above_row Hb;
    simpl; destruct (Z.leb_spec 0 above_row) as [Hge|Hlt]; try lia.
  - exists (Ok []). unfold scan_result. eauto.
  - unfold mbind, M_bind, lift.
    destruct (grid_to_led (above_row, col)) as [[led|]|e|] eqn:E.
    + exists (Ok [(above_row, col, color)]). split; [done|].
      split; [|by eauto]. unfold scan_result.
      apply Forall_singleton. simpl. eauto.
    + destruct (IH (above_row - 1)) as (r & Hr & Hres & Hok); [lia|].
      exists r. split; [done|]. split; [done|]. intros ??. apply Hok; lia.
    + exists (Raise e). split; [done|].
      assert (e = ValueError) as ->.
      { revert E. clear. intros E. grid_cases; congruence. }
      split; [done|]. intros ??. exfalso.
      destruct (grid_to_led_in_grid (above_row, col))
        as [[_ E']|[_ (? & ? & E')]];
        [unfold in_grid; simpl; lia | congruence..].
    + exfalso. revert E. clear. intros E. grid_cases; discriminate.
  - exists (Ok []). unfold scan_result. eauto.
Qed.

Lemma scan_below_spec budget below_row col color w :
  (Z.to_nat (ROWS - below_row) ≤ budget)%nat →
  ∃ r, scan_below budget below_row col color w = (r, w) ∧
       scan_result col color r ∧
       (0 ≤ below_row → 0 ≤ col < COLS → ∃ l, r = Ok l).
Proof.
  revert below_row. induction budget as [|budget IH]; intros below_row Hb;
    simpl; destruct (Z.ltb_spec below_row ROWS) as [Hlt|Hge]; try lia.
  - exists (Ok []). unfold scan_result. eauto.
  - unfold mbind, M_bind, lift.
    destruct (grid_to_led (below_row, col)) as [[led|]|e|] eqn:E.
    + exists (Ok [(below_row, col, color)]). split; [done|].
      split; [|by eauto]. unfold scan_result.
      apply Forall_singleton. simpl. eauto.
    + destruct (IH (below_row + 1)) as (r & Hr & Hres & Hok); [lia|].
      exists r. split; [done|]. split; [done|]. intros ??. apply Hok; lia.
    + exists (Raise e). split; [done|].
      assert (e = ValueError) as ->.
      { revert E. clear. intros E. grid_cases; congruence. }
      split; [done|]. intros ??. exfalso.
      destruct (grid_to_led_in_grid (below_row, col))
        as [[_ E']|[_ (? & ? & E')]];
        [unfold in_grid; simpl; lia | congruence..].
    + exfalso. revert E. clear. intros E. grid_cases; discriminate.
  - exists (Ok []). unfold scan_result. eauto.
Qed.

Lemma untouched_record c w : untouched w (with_calls (calls w ++ [c]) w).
Proof. reflexivity. Qed.

Lemma untouched_trans w1 w2 w3 : untouched w1 w2 → untouched w2 w3 → untouched w1 w3.
Proof. unfold untouched. intros H1 H2. rewrite H2 at 1. by rewrite H1 at 1. Qed.

(** C1 (as the code has it). A hit whose row or column lies outside the
    grid is not ignored: [set_pixel] and [display_hit_effect] both raise
    [ValueError] on it, and they do so before any pixel, wire or registry
    is changed. *)
Theorem out_of_grid_hit_raises (row col : Z) (color : rgb) (w : world) :
  ¬ in_grid (row, col) →
  (∃ w', display_hit_effect row col color w = (Raise ValueError, w') ∧
         untouched w w') ∧
  (∀ from boost auto_write,
     ∃ w', set_pixel from (row, col) color boost auto_write w
             = (Raise ValueError, w') ∧
           untouched w w').
Proof.
  intros Hg. split.
  - unfold display_hit_effect.
    erewrite bind_ok by reflexivity.
    set (w1 := with_calls _ w).
    destruct (scan_above_spec (Z.to_nat (row - 1 + 1)) (row - 1) col color w1
                (le_n _)) as (ra & Ha & Hra & _).
    destruct ra as [above|e|]; simpl in Hra; [|subst e|done].
    + rewrite (bind_ok _ _ _ _ _ Ha).
      destruct (scan_below_spec (Z.to_nat (ROWS - (row + 1))) (row + 1) col
                  color w1 (le_n _)) as (rb & Hb & Hrb & _).
      destruct rb as [below|e|]; simpl in Hrb; [|subst e|done].
      * rewrite (bind_ok _ _ _ _ _ Hb).
        erewrite bind_raise by by apply set_pixel_out_of_grid.
        eexists. split; [done|]. reflexivity.
      * rewrite (bind_raise _ _ _ _ _ Hb). eexists. split; [done|]. reflexivity.
    + rewrite (bind_raise _ _ _ _ _ Ha). eexists. split; [done|]. reflexivity.
  - intros from boost auto_write. rewrite set_pixel_out_of_grid by done.
    eexists. split; [done|]. reflexivity.
Qed.

Lemma out_of_grid_hit_raises_witness :
  (∃ w', display_hit_effect 16 0 (255, 0, 0) (boot (λ _, 0%Q))
           = (Raise ValueError, w') ∧
         untouched (boot (λ _, 0%Q)) w') ∧
  (∀ from boost auto_write,
     ∃ w', set_pixel from (16, 0) (255, 0, 0) boost auto_write
             (boot (λ _, 0%Q)) = (Raise ValueError, w') ∧
           untouched (boot (λ _, 0%Q)) w').
Proof.
  apply (out_of_grid_hit_raises 16 0 (255, 0, 0) (boot (λ _, 0%Q))).
  unfold in_grid, ROWS, COLS. simpl. lia.
Defined.

(** Counterexample to C1 as stated: the hit (16, 0) is not silently
    ignored, the dispatch raises. *)
Lemma hit_in_row_16_raises :
  (display_hit_effect 16 0 (255, 0, 0) (boot (λ _, 0%Q))).1
    = Raise ValueError ∧
  (set_pixel HitPoint (16, 0) (255, 0, 0) 1 true (boot (λ _, 0%Q))).1
    = Raise ValueError.
Proof. split; reflexivity. Qed.

Lemma fade_progress_full now (entry : rgb * Z) :
  Qle_bool 1 (fade_progress_at now entry.2) = true ↔ faded_out now entry.
Proof.
  destruct entry as [color start].
  unfold faded_out, fade_progress_at, ticks_diff, FADE_STEPS, FADE_INTERVAL.
  simpl. rewrite Qle_bool_iff, Q.min_glb_iff.
  unfold Qle, Qdiv, Qmult, Qinv. simpl. lia.
Qed.


Lemma fade_started_full now (entry : rgb * Z) :
  faded_out now entry → 0 ≤ ticks_diff now entry.2.
Proof. unfold faded_out, FADE_STEPS, FADE_INTERVAL. simpl. lia. Qed.

Lemma for_each_steady {T S} (body : S → T → M S) (next : S → T → S)
    (log : T → list call) (P : T → Prop) items s w :
  (∀ s x w, strips_ok w → P x →
     ∃ w', body s x w = (Ok (next s x), w') ∧ steady w w' ∧
           calls w' = calls w ++ log x) →
  strips_ok w → Forall P items →
  ∃ w', for_each items body s w = (Ok (foldl next s items), w') ∧
        steady w w' ∧ calls w' = calls w ++ flat_map log items.
Proof.
  intros Hbody. revert s w.
  induction items as [|x items IH]; intros s w Hw Hitems.
  - exists w. simpl. rewrite app_nil_r. split; [done|]. by split; [apply steady_refl|].
  - apply Forall_cons in Hitems as [Hx Hitems].
    destruct (Hbody s x w Hw Hx) as (w1 & Hrun & Hst & Hcalls).
    destruct (IH (next s x) w1) as (w' & Hrun' & Hst' & Hcalls');
      [by eapply steady_strips_ok | done |].
    exists w'. simpl. rewrite (bind_ok _ _ _ _ _ Hrun).
    split; [done|]. split; [by eapply steady_trans|].
    by rewrite Hcalls', Hcalls, <- app_assoc.
Qed.

Ltac fade_entry :=
  match goal with
  | Hw : strips_ok ?w, Hcell : in_grid (?row, ?col)
    |- context [decide (faded_out ?now (?color, ?start))] =>
      destruct (Z.leb_spec 0 (ticks_diff now start)) as [Hs|Hs];
      [ destruct (Qle_bool 1 (fade_progress_at now start)) eqn:Hp;
        [ apply (fade_progress_full now (color, start)) in Hp;
          rewrite decide_True by exact Hp
        | rewrite decide_False
            by (intros Hf; apply (fade_progress_full now (color, start)) in Hf;
                simpl in Hf; congruence) ];
        (edestruct set_pixel_ok as (w1 & Hset & Hst & Hcalls);
           [exact Hcell | exact Hw |]);
        erewrite bind_ok by exact Hset;
        exists w1; rewrite ?app_nil_r; by split; [|split]
      | rewrite decide_False
          by (intros Hf%fade_started_full; simpl in Hf; lia);
        exists w; rewrite !app_nil_r; by split; [|split; [apply steady_refl|]] ]
  end.

Lemma fade_hit_point_ok now removed item w :
  strips_ok w → in_grid item.1 →
  ∃ w', fade_hit_point now removed item w
          = (Ok (removed ++
                 if decide (faded_out now item.2) then [item.1]
                 else []), w') ∧
        steady w w' ∧ calls w' = calls w ++ render_hit now item.
Proof.
  destruct item as [[row col] [[[r g] b] start]]. simpl.
  intros Hw Hcell. unfold fade_hit_point. fade_entry.
Qed.

Lemma fade_vertical_led_ok now removed item w :
  strips_ok w → in_grid item.1 →
  ∃ w', fade_vertical_led now removed item w
          = (Ok (removed ++
                 if decide (faded_out now item.2) then [item.1]
                 else []), w') ∧
        steady w w' ∧ calls w' = calls w ++ render_companion now item.
Proof.
  destruct item as [[row col] [[[r g] b] start]]. simpl.
  intros Hw Hcell. unfold fade_vertical_led. fade_entry.
Qed.

Lemma delete_points_lookup (points : list (Z * Z))
    (d : gmap (Z * Z) (rgb * Z)) (cell : Z * Z) :
  delete_points points d !! cell =
  if decide (cell ∈ points) then None else d !! cell.
Proof.
  unfold delete_points. revert d.
  induction points as [|p points IH]; intros d; cbn [foldl].
  - case_decide as Hin; [by apply elem_of_nil in Hin|done].
  - rewrite IH. destruct (decide (cell = p)) as [->|Hne].
    + rewrite lookup_delete_eq.
      rewrite (decide_True (P := p ∈ p :: points)) by by left.
      by case_decide.
    + rewrite lookup_delete_ne by done.
      destruct (decide (cell ∈ points)) as [Hin|Hin].
      * by rewrite decide_True by by right.
      * by rewrite decide_False by by intros [?|?]%elem_of_cons.
Qed.

Lemma faded_cells_elem (now : Z) (items : list (Z * Z * (rgb * Z)))
    (removed : list (Z * Z)) (cell : Z * Z) :
  cell ∈ foldl (λ removed item,
                  removed ++ if decide (faded_out now item.2) then [item.1]
                             else []) removed items ↔
  cell ∈ removed ∨ ∃ entry, (cell, entry) ∈ items ∧ faded_out now entry.
Proof.
  revert removed. induction items as [|[c e] items IH]; intros removed; simpl.
  - split; [by left|]. intros [?|(? & []%elem_of_nil & _)]. done.
  - rewrite IH, elem_of_app. split.
    + intros [[?|Hc]|(entry & ? & ?)]; [by left| |right; exists entry; split; [by right|done]].
      case_decide; [|by apply elem_of_nil in Hc].
      apply list_elem_of_singleton in Hc as ->. right. exists e. split; [by left|done].
    + intros [?|(entry & [[= -> ->]|?]%elem_of_cons & ?)]; [by left;left| |right; by exists entry].
      left. right. rewrite decide_True by done. by apply list_elem_of_singleton.
Qed.

Lemma delete_faded (now : Z) (d : gmap (Z * Z) (rgb * Z)) :
  delete_points
    (foldl (λ removed item,
              removed ++ if decide (faded_out now item.2) then [item.1]
                         else []) [] (map_to_list d)) d
  = survivors now d.
Proof.
  apply map_eq. intros cell. rewrite delete_points_lookup. unfold survivors.
  case_decide as Hin.
  - apply faded_cells_elem in Hin as [[]%elem_of_nil|(entry & Hin & Hf)].
    apply elem_of_map_to_list in Hin. symmetry.
    apply map_lookup_filter_None. right. intros x Hx. simpl.
    rewrite Hin in Hx. injection Hx as <-. by intros [].
  - destruct (d !! cell) as [entry|] eqn:E.
    + symmetry. apply map_lookup_filter_Some. split; [done|]. simpl.
      intros Hf. apply Hin, faded_cells_elem. right. exists entry.
      split; [by apply elem_of_map_to_list|done].
    + symmetry. apply map_lookup_filter_None. by left.
Qed.

Lemma cells_in_grid_items (d : gmap (Z * Z) (rgb * Z)) :
  cells_in_grid d →
  Forall (λ item : Z * Z * (rgb * Z), in_grid item.1) (map_to_list d).
Proof.
  intros H. apply Forall_forall. intros [cell entry] Hin%elem_of_map_to_list.
  by apply H in Hin.
Qed.

Lemma healthy_cells w :
  healthy w →
  cells_in_grid (active_hits w) ∧ cells_in_grid (active_vertical_leds w).
Proof.
  intros [_ Hh Hv]. split; intros cell entry Hin;
    [by apply Hh in Hin as [? _] | by apply Hv in Hin as [? _]].
Qed.

Lemma tick_ok w :
  strips_ok w → cells_in_grid (active_hits w) →
  cells_in_grid (active_vertical_leds w) →
  ∃ w', process_active_points w = (Ok tt, w') ∧ ticked w w'.
Proof.
  intros Hw Hh%cells_in_grid_items Hv%cells_in_grid_items.
  unfold process_active_points, ticks_ms.
  erewrite bind_ok by reflexivity. erewrite bind_ok by reflexivity.
  destruct (for_each_steady (fade_hit_point (clock w)) _ _ _
              (map_to_list (active_hits w)) [] w
              (λ s x w0, fade_hit_point_ok (clock w) s x w0) Hw Hh)
    as (w1 & Hrun1 & Hst1 & Hc1).
  rewrite (bind_ok _ _ _ _ _ Hrun1).
  erewrite bind_ok by reflexivity. erewrite bind_ok by reflexivity.
  cbn [active_vertical_leds with_active_hits].
  set (w2 := with_active_hits _ w1).
  assert (strips_ok w2) as Hw2 by by eapply (steady_strips_ok w w1).
  rewrite (steady_vertical _ _ Hst1).
  destruct (for_each_steady (fade_vertical_led (clock w)) _ _ _
              (map_to_list (active_vertical_leds w)) [] w2
              (λ s x w0, fade_vertical_led_ok (clock w) s x w0) Hw2 Hv)
    as (w3 & Hrun2 & Hst2 & Hc2).
  rewrite (bind_ok _ _ _ _ _ Hrun2).
  eexists. split; [reflexivity|].
  split; simpl.
  - by rewrite (steady_lenA _ _ Hst2), <- (steady_lenA _ _ Hst1).
  - by rewrite (steady_lenB _ _ Hst2), <- (steady_lenB _ _ Hst1).
  - rewrite (steady_hits _ _ Hst2). subst w2. simpl.
    rewrite (steady_hits _ _ Hst1). apply delete_faded.
  - rewrite (steady_vertical _ _ Hst2). subst w2. simpl.
    rewrite (steady_vertical _ _ Hst1). apply delete_faded.
  - by rewrite (steady_clock _ _ Hst2), <- (steady_clock _ _ Hst1).
  - by rewrite (steady_entropy _ _ Hst2), <- (steady_entropy _ _ Hst1).
  - by rewrite (steady_draws _ _ Hst2), <- (steady_draws _ _ Hst1).
  - rewrite Hc2. subst w2. simpl. by rewrite Hc1, <- app_assoc.
Qed.

Lemma process_active_points_ok w :
  healthy w → ∃ w', process_active_points w = (Ok tt, w') ∧ ticked w w'.
Proof.
  intros Hw. destruct (healthy_cells w Hw). apply tick_ok; [apply Hw|done..].
Qed.

Lemma survivors_Forall (now : Z) (d : gmap (Z * Z) (rgb * Z)) P :
  map_Forall P d → map_Forall P (survivors now d).
Proof.
  intros H cell entry [Hin _]%map_lookup_filter_Some. by apply H.
Qed.

Lemma ticked_healthy w w' : ticked w w' → healthy w → healthy w'.
Proof.
  intros Ht [[] Hh Hv]. split.
  - split; [rewrite (ticked_lenA _ _ Ht) | rewrite (ticked_lenB _ _ Ht)]; done.
  - rewrite (ticked_hits _ _ Ht), (ticked_clock _ _ Ht).
    by apply survivors_Forall.
  - rewrite (ticked_vertical _ _ Ht), (ticked_clock _ _ Ht).
    by apply survivors_Forall.
Qed.

Lemma steady_healthy w w' : steady w w' → healthy w → healthy w'.
Proof.
  intros Hst [Hs Hh Hv]. pose proof (steady_strips_ok _ _ Hst Hs).
  split; [done| |].
  - by rewrite (steady_hits _ _ Hst), (steady_clock _ _ Hst).
  - by rewrite (steady_vertical _ _ Hst), (steady_clock _ _ Hst).
Qed.

Lemma rendered_app from cell l1 l2 :
  rendered from cell (l1 ++ l2) = rendered from cell l1 ++ rendered from cell l2.
Proof. apply omap_app. Qed.

Lemma rendered_hit_other (now : Z) from cell (items : list (Z * Z * (rgb * Z))) :
  (from ≠ FadeHit ∨ cell ∉ items.*1) →
  rendered from cell (flat_map (render_hit now) items) = [].
Proof.
  intros H. induction items as [|[c [color start]] items IH]; [done|].
  cbn [flat_map]. rewrite rendered_app, IH.
  - rewrite app_nil_r. unfold render_hit.
    destruct (0 <=? ticks_diff now start); [|done].
    unfold rendered. cbn [omap list_omap].
    rewrite decide_False; [done|]. intros [<- <-].
    destruct H as [H|H]; [done|]. apply H. simpl. by left.
  - destruct H as [H|H]; [by left|right]. intros Hin. apply H. simpl. by right.
Qed.

Lemma rendered_companion_other (now : Z) from cell
    (items : list (Z * Z * (rgb * Z))) :
  (from ≠ FadeCompanion ∨ cell ∉ items.*1) →
  rendered from cell (flat_map (render_companion now) items) = [].
Proof.
  intros H. induction items as [|[c [color start]] items IH]; [done|].
  cbn [flat_map]. rewrite rendered_app, IH.
  - rewrite app_nil_r. unfold render_companion.
    destruct (0 <=? ticks_diff now start); [|done].
    unfold rendered. cbn [omap list_omap].
    rewrite decide_False; [done|]. intros [<- <-].
    destruct H as [H|H]; [done|]. apply H. simpl. by left.
  - destruct H as [H|H]; [by left|right]. intros Hin. apply H. simpl. by right.
Qed.

Lemma rendered_hit_entry (now : Z) cell entry
    (items : list (Z * Z * (rgb * Z))) :
  NoDup items.*1 → (cell, entry) ∈ items →
  rendered FadeHit cell (flat_map (render_hit now) items)
  = rendered FadeHit cell (render_hit now (cell, entry)).
Proof.
  induction items as [|item items IH]; [by intros _ ?%elem_of_nil|].
  cbn [fmap list_fmap flat_map]. intros [Hnotin Hnd]%NoDup_cons Hin.
  rewrite rendered_app. apply elem_of_cons in Hin as [<-|Hin].
  - rewrite rendered_hit_other by by right. by rewrite app_nil_r.
  - rewrite IH by done.
    assert (rendered FadeHit cell (render_hit now item) = []) as ->; [|done].
    rewrite <- (app_nil_r (render_hit now item)).
    apply (rendered_hit_other now FadeHit cell [item]).
    right. simpl. intros ->%list_elem_of_singleton. apply Hnotin.
    by apply (list_elem_of_fmap_2 fst) in Hin.
Qed.

Lemma rendered_companion_entry (now : Z) cell entry
    (items : list (Z * Z * (rgb * Z))) :
  NoDup items.*1 → (cell, entry) ∈ items →
  rendered FadeCompanion cell (flat_map (render_companion now) items)
  = rendered FadeCompanion cell (render_companion now (cell, entry)).
Proof.
  induction items as [|item items IH]; [by intros _ ?%elem_of_nil|].
  cbn [fmap list_fmap flat_map]. intros [Hnotin Hnd]%NoDup_cons Hin.
  rewrite rendered_app. apply elem_of_cons in Hin as [<-|Hin].
  - rewrite rendered_companion_other by by right. by rewrite app_nil_r.
  - rewrite IH by done.
    assert (rendered FadeCompanion cell (render_companion now item) = []) as ->; [|done].
    rewrite <- (app_nil_r (render_companion now item)).
    apply (rendered_companion_other now FadeCompanion cell [item]).
    right. simpl. intros ->%list_elem_of_singleton. apply Hnotin.
    by apply (list_elem_of_fmap_2 fst) in Hin.
Qed.

Lemma survivors_lookup (now : Z) (d : gmap (Z * Z) (rgb * Z)) cell entry :
  d !! cell = Some entry →
  survivors now d !! cell = if decide (faded_out now entry) then None
                            else Some entry.
Proof.
  intros H. unfold survivors. case_decide as Hf.
  - apply map_lookup_filter_None. right. intros x Hx. simpl.
    rewrite H in Hx. injection Hx as <-. by intros [].
  - by apply map_lookup_filter_Some.
Qed.


Lemma set_pixel_paints from cell color boost auto_write w :
  strips_ok w → in_grid cell →
  ∃ w', set_pixel from cell color boost auto_write w = (Ok tt, w') ∧
        steady w w' ∧
        calls w' = calls w ++ [Call_set_pixel from cell color] ∧
        painted w' cell color boost ∧
        (∀ other, other ≠ cell → pixel_at w' other = pixel_at w other) ∧
        (if auto_write
         then (on_wire w → on_wire w') ∧ (¬ is_hole cell → on_wire w')
         else shownA w' = shownA w ∧ shownB w' = shownB w).
Proof.
  intros Hw Hg.
  destruct (set_pixel_ok from cell color boost auto_write w Hg Hw)
    as (w' & Hrun & Hst & Hcalls).
  exists w'. split; [done|]. split; [done|]. split; [done|].
  unfold painted.
  destruct (grid_to_led_in_grid _ Hg) as [[Hh E]|[Hh (s & i & E)]].
  - rewrite decide_True by done. revert Hrun.
    unfold set_pixel, record, mbind, M_bind, modify, lift. simpl.
    rewrite E. simpl. intros [= <-].
    split; [unfold pixel_at; by rewrite E|].
    split; [intros other _; unfold pixel_at;
            by destruct (grid_to_led other) as [[[[] ?]|]|?|]|].
    by destruct auto_write.
  - rewrite decide_False by done.
    destruct (set_pixel_led from cell color boost auto_write w s i E Hw)
      as (w'' & Hrun' & Hs & Hother & Hwire).
    rewrite Hrun in Hrun'. injection Hrun' as <-.
    destruct (set_pixel_pixels from cell color boost auto_write w Hw Hg)
      as (w'' & Hrun' & _ & _ & Hframe).
    rewrite Hrun in Hrun'. injection Hrun' as <-.
    pose proof (grid_to_led_index_bound _ _ _ E) as Hi.
    split; [|split; [done|]].
    + unfold pixel_at. rewrite E, Hs. apply list_lookup_insert_eq.
      destruct Hw, s; simpl in *; lia.
    + destruct auto_write; [|done]. by split.
Qed.





Lemma pixel_at_strips w w' :
  stripA w' = stripA w → stripB w' = stripB w →
  ∀ cell, pixel_at w' cell = pixel_at w cell.
Proof.
  intros HA HB cell. unfold pixel_at.
  destruct (grid_to_led cell) as [[[[] i]|]|e|]; simpl; congruence.
Qed.

Lemma painted_strips w w' cell color boost :
  stripA w' = stripA w → stripB w' = stripB w →
  painted w cell color boost → painted w' cell color boost.
Proof.
  intros HA HB. unfold painted. by rewrite (pixel_at_strips w w' HA HB).
Qed.


Lemma painted_shows w cell handed :
  nonneg_color handed → painted w cell handed 1 → shows w cell handed.
Proof.
  intros Hn. unfold painted, shows. by rewrite (scale_default _ Hn).
Qed.






Lemma fading_world_healthy : healthy fading_world.
Proof.
  split.
  - split; reflexivity.
  - unfold fading_world.
    cbn [active_hits with_active_hits with_active_vertical_leds].
    apply map_Forall_singleton. unfold in_grid, ROWS, COLS. simpl. lia.
  - unfold fading_world.
    cbn [active_vertical_leds with_active_hits with_active_vertical_leds].
    apply map_Forall_singleton. unfold in_grid, ROWS, COLS. simpl. lia.
Qed.


(** ** The wave *)

Lemma trail_app l1 l2 : trail (l1 ++ l2) = trail l1 ++ trail l2.
Proof. apply List.filter_app. Qed.

Lemma trail_flat_map_nil {T} (f : T → list call) (items : list T) :
  (∀ x, trail (f x) = []) → trail (flat_map f items) = [].
Proof.
  intros H. induction items as [|x items IH]; [done|].
  cbn [flat_map]. by rewrite trail_app, H, IH.
Qed.

Lemma trail_render_hit (now : Z) item : trail (render_hit now item) = [].
Proof.
  destruct item as [cell [color start]]. unfold render_hit.
  by destruct (0 <=? ticks_diff now start).
Qed.

Lemma trail_render_companion (now : Z) item :
  trail (render_companion now item) = [].
Proof.
  destruct item as [cell [color start]]. unfold render_companion.
  by destruct (0 <=? ticks_diff now start).
Qed.

Lemma ticked_trail w w' : ticked w w' → trail (calls w') = trail (calls w).
Proof.
  intros Ht. rewrite (ticked_calls _ _ Ht), !trail_app.
  rewrite (trail_flat_map_nil _ _ (trail_render_hit (clock w))).
  rewrite (trail_flat_map_nil _ _ (trail_render_companion (clock w))).
  by rewrite !app_nil_r.
Qed.

Lemma steady_shown s buf w : steady w (with_shown s buf w).
Proof. by destruct s. Qed.

Lemma healthy_sleep w d :
  healthy w → 0 ≤ d → healthy (with_clock (clock w + d) w).
Proof.
  intros [Hs Hh Hv] Hd. split; [done| |]; simpl.
  - intros cell entry Hin. apply Hh in Hin as [? ?]. split; [done|lia].
  - intros cell entry Hin. apply Hv in Hin as [? ?]. split; [done|lia].
Qed.

Lemma age_wave_pixels_ok from row now pending w :
  keeps (Call_set_pixel from (0, 0) black) = false →
  strips_ok w → Forall (λ p : Z * Z, in_grid (row, p.1)) pending →
  ∃ kept w', age_wave_pixels from row now pending w = (Ok kept, w') ∧
             steady w w' ∧ trail (calls w') = trail (calls w) ∧
             Forall (λ p : Z * Z, in_grid (row, p.1)) kept.
Proof.
  intros Hfrom. revert w.
  induction pending as [|[wave_col off_time] pending IH]; intros w Hw Hp.
  - exists [], w. by split; [|split; [apply steady_refl|]].
  - apply Forall_cons in Hp as [Hcol Hp]. simpl in Hcol. cbn [age_wave_pixels].
    destruct (0 <=? ticks_diff now off_time).
    + destruct (set_pixel_ok from (row, wave_col) (0, 0, 0) 1 false w Hcol Hw)
        as (w1 & Hset & Hst & Hcalls).
      rewrite (bind_ok _ _ _ _ _ Hset).
      destruct (IH w1) as (kept & w' & Hrun & Hst' & Htr & Hk);
        [by eapply steady_strips_ok | done |].
      exists kept, w'. split; [done|]. split; [by eapply steady_trans|].
      split; [|done]. rewrite Htr, Hcalls, trail_app.
      unfold trail at 2. cbn [List.filter].
      replace (keeps (Call_set_pixel from (row, wave_col) (0, 0, 0)))
        with false by by destruct from.
      by rewrite app_nil_r.
    + destruct (IH w) as (kept & w' & Hrun & Hst' & Htr & Hk); [done..|].
      rewrite (bind_ok _ _ _ _ _ Hrun).
      exists ((wave_col, off_time) :: kept), w'.
      split; [done|]. split; [done|]. split; [done|]. by apply Forall_cons.
Qed.

Lemma light_ok (cond : bool) from location color
    (active_wave_pixels : list (Z * Z)) entry w :
  strips_ok w → (cond = true → in_grid location) →
  ∃ w', (if cond then
           set_pixel from location color 1 true;;
           mret (active_wave_pixels ++ [entry])
         else mret active_wave_pixels) w
        = (Ok (if cond then active_wave_pixels ++ [entry]
               else active_wave_pixels), w') ∧
        steady w w' ∧
        calls w' = calls w ++
                   if cond then [Call_set_pixel from location color] else [].
Proof.
  intros Hw Hg. destruct cond.
  - destruct (set_pixel_ok from location color 1 true w (Hg eq_refl) Hw)
      as (w' & Hset & Hst & Hcalls).
    exists w'. by rewrite (bind_ok _ _ _ _ _ Hset).
  - exists w. rewrite app_nil_r. by split; [|split; [apply steady_refl|]].
Qed.

Lemma expansion_step_ok row col color step active_wave_pixels w :
  healthy w → in_grid (row, col) →
  1 ≤ step ≤ Z.max col (COLS - 1 - col) →
  Forall (λ p : Z * Z, in_grid (row, p.1)) active_wave_pixels →
  ∃ kept w',
    expansion_step row col color step active_wave_pixels w
      = (Ok (kept, false), w') ∧
    healthy w' ∧ clock w' = clock w + WAVE_LIGHT_SPREAD_DELAY ∧
    trail (calls w') = trail (calls w) ++ expansion_lit row col color step ∧
    Forall (λ p : Z * Z, in_grid (row, p.1)) kept.
Proof.
  intros Hw [Hrow Hcol] Hstep Hawp. simpl in Hrow, Hcol.
  unfold expansion_step, ticks_ms.
  destruct (process_active_points_ok w Hw) as (w1 & Hrun1 & Ht).
  rewrite (bind_ok _ _ _ _ _ Hrun1). erewrite bind_ok by reflexivity.
  pose proof (ticked_healthy _ _ Ht Hw) as Hw1.
  destruct (light_ok (left_boundary <=? col - step) WaveLeft
              (row, col - step) color active_wave_pixels
              (col - step, clock w1 + WAVE_LIGHT_DURATION) w1)
    as (w2 & Hrun2 & Hst2 & Hc2); [apply Hw1| |].
  { intros ?%Z.leb_le. unfold in_grid, left_boundary, COLS in *. simpl. lia. }
  rewrite (bind_ok _ _ _ _ _ Hrun2).
  pose proof (steady_healthy _ _ Hst2 Hw1) as Hw2.
  match goal with
  | |- context [if col + step <=? right_boundary then _ else mret ?l] =>
      destruct (light_ok (col + step <=? right_boundary) WaveRight
                  (row, col + step) color l
                  (col + step, clock w1 + WAVE_LIGHT_DURATION) w2)
        as (w3 & Hrun3 & Hst3 & Hc3); [apply Hw2| |]
  end.
  { intros ?%Z.leb_le. unfold in_grid, right_boundary, COLS in *. simpl. lia. }
  rewrite (bind_ok _ _ _ _ _ Hrun3).
  pose proof (steady_healthy _ _ Hst3 Hw2) as Hw3.
  match goal with
  | |- context [age_wave_pixels WaveAge row ?now ?l] =>
      destruct (age_wave_pixels_ok WaveAge row now l w3 eq_refl)
        as (kept & w4 & Hrun4 & Hst4 & Htr4 & Hk); [apply Hw3| |]
  end.
  { unfold in_grid, left_boundary, right_boundary, COLS in *.
    destruct (Z.leb_spec 0 (col - step)), (Z.leb_spec (col + step) (15 - 1));
      rewrite ?Forall_app, ?Forall_singleton; simpl; repeat split;
      done || lia. }
  rewrite (bind_ok _ _ _ _ _ Hrun4).
  pose proof (steady_healthy _ _ Hst4 Hw3) as Hw4.
  erewrite bind_ok by reflexivity. erewrite bind_ok by reflexivity.
  erewrite bind_ok by reflexivity.
  exists kept. eexists. split.
  { unfold mret, M_ret. do 3 f_equal. unfold left_boundary, right_boundary, COLS.
    destruct (Z.ltb_spec (col - step) 0), (Z.ltb_spec (15 - 1) (col + step));
      simpl; try done. unfold COLS in Hstep. lia. }
  split; [|split; [|split; [|done]]].
  - apply healthy_sleep; [|done].
    eapply steady_healthy; [|exact Hw4].
    eapply steady_trans; apply steady_shown.
  - simpl. rewrite (steady_clock _ _ Hst4), (steady_clock _ _ Hst3),
      (steady_clock _ _ Hst2), (ticked_clock _ _ Ht). done.
  - simpl. rewrite Htr4, Hc3, Hc2, !trail_app, (ticked_trail _ _ Ht).
    rewrite <- app_assoc. f_equal. unfold expansion_lit, left_boundary, right_boundary.
    destruct (Z.leb_spec 0 (col - step)), (Z.leb_spec (col + step) (COLS - 1));
      repeat case_decide; try lia; done.
Qed.

Lemma expansion_loop_ok row col color steps active_wave_pixels w :
  healthy w → in_grid (row, col) →
  Forall (λ step, 1 ≤ step ≤ Z.max col (COLS - 1 - col)) steps →
  Forall (λ p : Z * Z, in_grid (row, p.1)) active_wave_pixels →
  ∃ kept w',
    expansion_loop row col color steps active_wave_pixels w = (Ok kept, w') ∧
    healthy w' ∧
    clock w' = clock w + WAVE_LIGHT_SPREAD_DELAY * Z.of_nat (length steps) ∧
    trail (calls w')
      = trail (calls w) ++ flat_map (expansion_lit row col color) steps ∧
    Forall (λ p : Z * Z, in_grid (row, p.1)) kept.
Proof.
  intros Hw Hg Hsteps. revert active_wave_pixels w Hw.
  induction Hsteps as [|step steps Hstep Hsteps IH];
    intros active_wave_pixels w Hw Hawp.
  - exists active_wave_pixels, w. simpl. rewrite app_nil_r.
    unfold WAVE_LIGHT_SPREAD_DELAY.
    split; [done|]. split; [done|]. split; [lia|]. by split.
  - destruct (expansion_step_ok row col color step active_wave_pixels w)
      as (kept1 & w1 & Hrun1 & Hw1 & Hc1 & Htr1 & Hk1); [done..|].
    destruct (IH kept1 w1 Hw1 Hk1) as (kept & w' & Hrun & Hw' & Hc & Htr & Hk).
    exists kept, w'. cbn [expansion_loop]. rewrite (bind_ok _ _ _ _ _ Hrun1).
    split; [done|]. split; [done|].
    split; [rewrite Hc, Hc1; cbn [length]; unfold WAVE_LIGHT_SPREAD_DELAY; lia|].
    split; [|done]. cbn [flat_map]. by rewrite Htr, Htr1, <- app_assoc.
Qed.

Lemma reflection_step_ok row col color current_col active_wave_pixels w :
  healthy w → 0 ≤ row < ROWS → 0 ≤ current_col < COLS →
  Forall (λ p : Z * Z, in_grid (row, p.1)) active_wave_pixels →
  ∃ kept w',
    reflection_step row col color current_col active_wave_pixels w
      = (Ok kept, w') ∧
    healthy w' ∧ clock w' = clock w + WAVE_LIGHT_SPREAD_DELAY ∧
    trail (calls w')
      = trail (calls w) ++ reflection_lit row col color current_col ∧
    Forall (λ p : Z * Z, in_grid (row, p.1)) kept.
Proof.
  intros Hw Hrow Hcol Hawp. unfold reflection_step, ticks_ms.
  destruct (process_active_points_ok w Hw) as (w1 & Hrun1 & Ht).
  rewrite (bind_ok _ _ _ _ _ Hrun1). erewrite bind_ok by reflexivity.
  pose proof (ticked_healthy _ _ Ht Hw) as Hw1.
  destruct (light_ok (negb (current_col =? col)) Reflect
              (row, current_col) color active_wave_pixels
              (current_col, clock w1 + WAVE_LIGHT_DURATION) w1)
    as (w2 & Hrun2 & Hst2 & Hc2); [apply Hw1|by intros _; split|].
  rewrite (bind_ok _ _ _ _ _ Hrun2).
  pose proof (steady_healthy _ _ Hst2 Hw1) as Hw2.
  match goal with
  | |- context [age_wave_pixels ReflectAge row ?now ?l] =>
      destruct (age_wave_pixels_ok ReflectAge row now l w2 eq_refl)
        as (kept & w3 & Hrun3 & Hst3 & Htr3 & Hk); [apply Hw2| |]
  end.
  { destruct (negb (current_col =? col)); [|done].
    apply Forall_app. split; [done|]. apply Forall_singleton. by split. }
  rewrite (bind_ok _ _ _ _ _ Hrun3).
  pose proof (steady_healthy _ _ Hst3 Hw2) as Hw3.
  erewrite bind_ok by reflexivity. erewrite bind_ok by reflexivity.
  erewrite bind_ok by reflexivity.
  exists kept. eexists. split; [reflexivity|].
  split; [|split; [|split; [|done]]].
  - apply healthy_sleep; [|done].
    eapply steady_healthy; [|exact Hw3].
    eapply steady_trans; apply steady_shown.
  - simpl. by rewrite (steady_clock _ _ Hst3), (steady_clock _ _ Hst2),
      (ticked_clock _ _ Ht).
  - simpl. rewrite Htr3, Hc2, !trail_app, (ticked_trail _ _ Ht).
    f_equal. unfold reflection_lit.
    destruct (Z.eqb_spec current_col col); by case_decide.
Qed.

Lemma reverse_seqZ_S (n : Z) :
  0 ≤ n → reverse (seqZ 0 (n + 1)) = n :: reverse (seqZ 0 n).
Proof.
  intros Hn. rewrite seqZ_app by lia. rewrite reverse_app.
  rewrite Z.add_0_l. change (seqZ n 1) with ([0 + n]). by rewrite Z.add_0_l.
Qed.

Lemma reflection_loop_ok budget row col color current_col
    active_wave_pixels w :
  healthy w → 0 ≤ row < ROWS → -1 ≤ current_col < COLS →
  (Z.to_nat (current_col + 1) ≤ budget)%nat →
  Forall (λ p : Z * Z, in_grid (row, p.1)) active_wave_pixels →
  ∃ kept w',
    reflection_loop budget row col color current_col active_wave_pixels w
      = (Ok kept, w') ∧
    healthy w' ∧
    clock w' = clock w + WAVE_LIGHT_SPREAD_DELAY * (current_col + 1) ∧
    trail (calls w')
      = trail (calls w) ++
        flat_map (reflection_lit row col color)
          (reverse (seqZ 0 (current_col + 1))).
Proof.
  intros Hw Hrow. revert current_col active_wave_pixels w Hw.
  induction budget as [|budget IH];
    intros current_col active_wave_pixels w Hw Hcol Hb Hawp;
    cbn [reflection_loop]; unfold left_boundary;
    destruct (Z.leb_spec 0 current_col) as [Hge|Hlt]; try lia.
  - assert (current_col = -1) as -> by lia.
    exists active_wave_pixels, w. simpl. rewrite app_nil_r.
    unfold WAVE_LIGHT_SPREAD_DELAY.
    split; [done|]. split; [done|]. split; [lia|done].
  - destruct (reflection_step_ok row col color current_col
                active_wave_pixels w)
      as (kept1 & w1 & Hrun1 & Hw1 & Hc1 & Htr1 & Hk1); [done|done|lia|done|].
    destruct (IH (current_col - 1) kept1 w1 Hw1)
      as (kept & w' & Hrun & Hw' & Hc & Htr); [lia|lia|done|].
    exists kept, w'. rewrite (bind_ok _ _ _ _ _ Hrun1).
    split; [done|]. split; [done|].
    split; [unfold WAVE_LIGHT_SPREAD_DELAY in *; lia|].
    rewrite reverse_seqZ_S by done. cbn [flat_map].
    replace (current_col - 1 + 1) with current_col in Htr by lia.
    by rewrite Htr, Htr1, <- app_assoc.
  - assert (current_col = -1) as -> by lia.
    exists active_wave_pixels, w. simpl. rewrite app_nil_r.
    unfold WAVE_LIGHT_SPREAD_DELAY.
    split; [done|]. split; [done|]. split; [lia|done].
Qed.

Lemma for_each_invariant {T} (I : world → Prop) (P : T → Prop)
    (body : unit → T → M unit) items w :
  (∀ x w, I w → P x → ∃ w', body tt x w = (Ok tt, w') ∧ I w') →
  I w → Forall P items →
  ∃ w', for_each items body tt w = (Ok tt, w') ∧ I w'.
Proof.
  intros Hbody. revert w. induction items as [|x items IH]; intros w Hw Hitems.
  - by exists w.
  - apply Forall_cons in Hitems as [Hx Hitems].
    destruct (Hbody x w Hw Hx) as (w1 & Hrun & Hw1).
    destruct (IH w1 Hw1 Hitems) as (w' & Hrun' & Hw').
    exists w'. simpl. by rewrite (bind_ok _ _ _ _ _ Hrun).
Qed.

Lemma start_fade_animation_ok now hit_points vertical_points w :
  healthy w → now ≤ clock w →
  Forall (λ p : Z * Z * rgb, in_grid p.1) hit_points →
  Forall (λ p : Z * Z * rgb, in_grid p.1) vertical_points →
  ∃ w', start_fade_animation now hit_points vertical_points w = (Ok tt, w') ∧
        healthy w' ∧ clock w' = clock w ∧ calls w' = calls w.
Proof.
  intros Hw Hnow Hh Hv. unfold start_fade_animation.
  set (I := λ w0, healthy w0 ∧ clock w0 = clock w ∧ calls w0 = calls w).
  match goal with
  | |- context [for_each hit_points ?body tt] =>
      destruct (for_each_invariant I (λ p : Z * Z * rgb, in_grid p.1) body
                  hit_points w) as (w1 & Hrun1 & Hw1);
        [|done|exact Hh|]
  end.
  { intros [[row col] color] w0 ([Hs Hhits Hvert] & Hc & Hl) Hg.
    eexists. split; [reflexivity|]. split; [|done].
    split; [done| |done]. simpl. apply map_Forall_insert_2; [|done].
    split; [done|]. simpl. lia. }
  rewrite (bind_ok _ _ _ _ _ Hrun1).
  match goal with
  | |- context [for_each vertical_points ?body tt] =>
      destruct (for_each_invariant I (λ p : Z * Z * rgb, in_grid p.1) body
                  vertical_points w1)
        as (w2 & Hrun2 & Hw2); [|done|exact Hv|]
  end.
  { intros [[row col] color] w0 ([Hs Hhits Hvert] & Hc & Hl) Hg.
    eexists. split; [reflexivity|]. split; [|done].
    split; [done|done|]. simpl. apply map_Forall_insert_2; [|done].
    split; [done|]. simpl. lia. }
  by exists w2.
Qed.

Lemma scan_result_in_grid col color l :
  scan_result col color (Ok l) → Forall (λ p : Z * Z * rgb, in_grid p.1) l.
Proof.
  unfold scan_result. intros H. eapply Forall_impl; [exact H|].
  intros [[vr vc] k]. simpl. intros (-> & _ & [s i] & E).
  by apply grid_to_led_inv in E as [? _].
Qed.

Lemma trail_quiet_call from location color :
  keeps (Call_set_pixel from (0, 0) black) = false →
  trail [Call_set_pixel from location color] = [].
Proof. by destruct from. Qed.

Lemma display_hit_effect_ok row col color w :
  healthy w → in_grid (row, col) →
  ∃ w', display_hit_effect row col color w = (Ok tt, w') ∧
        healthy w' ∧
        clock w' = clock w + WAVE_LIGHT_SPREAD_DELAY
                             * (Z.max col (COLS - 1 - col) + COLS) ∧
        trail (calls w')
          = trail (calls w) ++
            Call_display_hit_effect row col color
              :: expansion_calls row col color ++
                 reflection_calls row col color.
Proof.
  intros Hw Hg. pose proof Hg as [Hrow Hcol]. simpl in Hrow, Hcol.
  unfold display_hit_effect, ticks_ms.
  erewrite bind_ok by reflexivity.
  set (w0 := with_calls _ w).
  assert (healthy w0) as Hw0 by (eapply steady_healthy; [|exact Hw]; by split).
  (* the two vertical scans *)
  destruct (scan_above_spec (Z.to_nat (row - 1 + 1)) (row - 1) col color w0
              (le_n _)) as (ra & Ha & Hra & Haok).
  destruct Haok as [above ->]; [lia|done|].
  rewrite (bind_ok _ _ _ _ _ Ha).
  destruct (scan_below_spec (Z.to_nat (ROWS - (row + 1))) (row + 1) col color
              w0 (le_n _)) as (rb & Hb & Hrb & Hbok).
  destruct Hbok as [below ->]; [lia|done|].
  rewrite (bind_ok _ _ _ _ _ Hb).
  assert (Forall (λ p : Z * Z * rgb, in_grid p.1) (above ++ below)) as Hvert.
  { apply Forall_app. split; by eapply scan_result_in_grid. }
  (* the hit pixel and its companions *)
  destruct (set_pixel_ok HitPoint (row, col) color HIT_POINT_BRIGHTNESS_BOOST
              true w0 Hg (healthy_strips _ Hw0))
    as (w1 & Hrun1 & Hst1 & Hc1).
  rewrite (bind_ok _ _ _ _ _ Hrun1).
  pose proof (steady_healthy _ _ Hst1 Hw0) as Hw1.
  match goal with
  | |- context [for_each (above ++ below) ?body tt] =>
      destruct (for_each_steady body (λ _ _, tt)
                  (λ p, [Call_set_pixel Companion p.1 p.2])
                  (λ p, in_grid p.1) (above ++ below) tt w1)
        as (w2 & Hrun2 & Hst2 & Hc2); [|apply Hw1|exact Hvert|]
  end.
  { intros [] [[vr vc] k] w' Hs Hin. simpl in *.
    by apply set_pixel_ok. }
  rewrite (bind_ok _ _ _ _ _ Hrun2).
  pose proof (steady_healthy _ _ Hst2 Hw1) as Hw2.
  erewrite bind_ok by reflexivity.
  destruct (start_fade_animation_ok (clock w2) [(row, col, color)]
              (above ++ below) w2 Hw2) as (w3 & Hrun3 & Hw3 & Hk3 & Hc3);
    [lia|by apply Forall_singleton|done|].
  rewrite (bind_ok _ _ _ _ _ Hrun3).
  (* the expansion *)
  replace (Z.max (right_boundary - col) (col - left_boundary))
    with (Z.max col (COLS - 1 - col))
    by (unfold right_boundary, left_boundary; lia).
  destruct (expansion_loop_ok row col color
              (seqZ 1 (Z.max col (COLS - 1 - col))) [] w3 Hw3 Hg)
    as (awp1 & w4 & Hrun4 & Hw4 & Hk4 & Htr4 & Hawp1); [|done|].
  { apply Forall_seqZ. intros step ?. lia. }
  rewrite (bind_ok _ _ _ _ _ Hrun4).
  (* the reflection *)
  destruct (reflection_loop_ok
              (Z.to_nat (right_boundary - left_boundary + 1)) row col color
              right_boundary awp1 w4 Hw4 Hrow)
    as (awp2 & w5 & Hrun5 & Hw5 & Hk5 & Htr5);
    [unfold right_boundary, COLS; lia
    |unfold right_boundary, left_boundary; lia|done|].
  rewrite (bind_ok _ _ _ _ _ Hrun5).
  (* the row is cleared *)
  match goal with
  | |- context [for_each (seqZ 0 COLS) ?body tt] =>
      destruct (for_each_steady body (λ _ _, tt)
                  (λ c, if negb (c =? col)
                        then [Call_set_pixel RowClear (row, c) (0, 0, 0)]
                        else [])
                  (λ c, 0 ≤ c < COLS) (seqZ 0 COLS) tt w5)
        as (w6 & Hrun6 & Hst6 & Hc6); [|apply Hw5| |]
  end.
  { intros [] c w' Hs Hc. destruct (negb (c =? col)).
    - by apply set_pixel_ok.
    - exists w'. rewrite app_nil_r. by split; [|split; [apply steady_refl|]]. }
  { apply Forall_seqZ. intros c ?. lia. }
  rewrite (bind_ok _ _ _ _ _ Hrun6).
  pose proof (steady_healthy _ _ Hst6 Hw5) as Hw6.
  erewrite bind_ok by reflexivity.
  eexists. split; [reflexivity|]. split; [|split].
  - eapply steady_healthy; [|exact Hw6]. eapply steady_trans; apply steady_shown.
  - simpl. rewrite (steady_clock _ _ Hst6), Hk5, Hk4, Hk3.
    rewrite (steady_clock _ _ Hst2), (steady_clock _ _ Hst1).
    rewrite length_seqZ. subst w0. simpl.
    unfold right_boundary, WAVE_LIGHT_SPREAD_DELAY, COLS in *. lia.
  - simpl. rewrite Hc6, trail_app.
    rewrite (trail_flat_map_nil _ (seqZ 0 COLS)), app_nil_r
      by (intros c; by destruct (negb (c =? col))).
    rewrite Htr5, Htr4, Hc3, Hc2, trail_app.
    rewrite (trail_flat_map_nil _ (above ++ below)), app_nil_r by done.
    rewrite Hc1, trail_app. subst w0. simpl. rewrite trail_app.
    unfold expansion_calls, reflection_calls.
    replace (right_boundary + 1) with COLS by (unfold right_boundary; lia).
    cbn. rewrite app_nil_r. by rewrite <- !app_assoc.
Qed.

Lemma fresh_world_healthy : healthy fresh_world.
Proof.
  split; [split; reflexivity| |]; apply map_Forall_empty.
Qed.

(** *** The wave in the buffers *)

Lemma age_wave_pixels_frame from row now pending w :
  keeps (Call_set_pixel from (0, 0) black) = false →
  strips_ok w → Forall (λ p : Z * Z, in_grid (row, p.1)) pending →
  ∃ w', age_wave_pixels from row now pending w
          = (Ok (filter (λ p : Z * Z, now < p.2) pending), w') ∧
        steady w w' ∧ trail (calls w') = trail (calls w) ∧
        shownA w' = shownA w ∧ shownB w' = shownB w ∧
        ∀ cell, Forall (λ p : Z * Z, now < p.2 ∨ (row, p.1) ≠ cell) pending →
                pixel_at w' cell = pixel_at w cell.
Proof.
  intros Hfrom. revert w.
  induction pending as [|[wave_col off_time] pending IH]; intros w Hw Hp.
  - exists w. by split; [|split; [apply steady_refl|]].
  - apply Forall_cons in Hp as [Hcol Hp]. simpl in Hcol. cbn [age_wave_pixels].
    unfold ticks_diff.
    destruct (Z.leb_spec 0 (now - off_time)) as [Hdue|Hdue].
    + destruct (set_pixel_paints from (row, wave_col) (0, 0, 0) 1 false w
                  Hw Hcol)
        as (w1 & Hset & Hst & Hcalls & _ & Hframe & HsA & HsB).
      rewrite (bind_ok _ _ _ _ _ Hset).
      destruct (IH w1) as (w' & Hrun & Hst' & Htr & HA & HB & Hpix);
        [by eapply steady_strips_ok | done |].
      exists w'. rewrite filter_cons_False by (simpl; lia).
      split; [done|]. split; [by eapply steady_trans|].
      split; [|split; [congruence|split; [congruence|]]].
      * rewrite Htr, Hcalls, trail_app.
        unfold trail at 2. cbn [List.filter].
        replace (keeps (Call_set_pixel from (row, wave_col) (0, 0, 0)))
          with false by by destruct from.
        by rewrite app_nil_r.
      * intros cell [Hhead Htail]%Forall_cons. simpl in Hhead.
        rewrite (Hpix cell Htail). apply Hframe.
        destruct Hhead as [?|Hne]; [lia|]. by intros ->.
    + destruct (IH w) as (w' & Hrun & Hst' & Htr & HA & HB & Hpix);
        [done..|].
      rewrite (bind_ok _ _ _ _ _ Hrun).
      exists w'. rewrite filter_cons_True by (simpl; lia).
      split; [done|]. split; [done|]. split; [done|].
      split; [done|]. split; [done|].
      intros cell [_ Htail]%Forall_cons. by apply Hpix.
Qed.

Lemma light_paints (cond : bool) from location color
    (active_wave_pixels : list (Z * Z)) entry w :
  strips_ok w → (cond = true → in_grid location) →
  ∃ w', (if cond then
           set_pixel from location color 1 true;;
           mret (active_wave_pixels ++ [entry])
         else mret active_wave_pixels) w
        = (Ok (if cond then active_wave_pixels ++ [entry]
               else active_wave_pixels), w') ∧
        steady w w' ∧
        calls w' = calls w ++
                   (if cond then [Call_set_pixel from location color]
                    else []) ∧
        (cond = true → painted w' location color 1) ∧
        ∀ other, (cond = true → other ≠ location) →
                 pixel_at w' other = pixel_at w other.
Proof.
  intros Hw Hg. destruct cond.
  - destruct (set_pixel_paints from location color 1 true w Hw (Hg eq_refl))
      as (w' & Hset & Hst & Hcalls & Hp & Hframe & _).
    exists w'. rewrite (bind_ok _ _ _ _ _ Hset).
    split; [done|]. split; [done|]. split; [done|]. split; [done|].
    intros other Hne. by apply Hframe, Hne.
  - exists w. rewrite app_nil_r.
    split; [done|]. split; [apply steady_refl|]. by repeat split.
Qed.

Lemma wave_pending_in_grid row (P : Z * Z → Prop) pending :
  0 ≤ row < ROWS →
  Forall (λ p : Z * Z, 0 ≤ p.1 ≤ COLS - 1 ∧ P p) pending →
  Forall (λ p : Z * Z, in_grid (row, p.1)) pending.
Proof.
  intros Hrow H. eapply Forall_impl; [exact H|].
  intros p [Hp _]. split; simpl; [done|lia].
Qed.

Lemma expansion_step_lights row col color step active_wave_pixels w :
  healthy w → in_grid (row, col) →
  1 ≤ step ≤ Z.max col (COLS - 1 - col) →
  Forall (λ p : Z * Z, 0 ≤ p.1 ≤ COLS - 1 ∧
            (clock w < p.2 ∨ (p.1 ≠ col - step ∧ p.1 ≠ col + step)))
    active_wave_pixels →
  ∃ w',
    expansion_step row col color step active_wave_pixels w
      = (Ok (filter (λ p : Z * Z, clock w < p.2)
               (active_wave_pixels
                ++ (if 0 <=? col - step
                    then [(col - step, clock w + WAVE_LIGHT_DURATION)] else [])
                ++ (if col + step <=? COLS - 1
                    then [(col + step, clock w + WAVE_LIGHT_DURATION)]
                    else [])), false), w') ∧
    healthy w' ∧ clock w' = clock w + WAVE_LIGHT_SPREAD_DELAY ∧ on_wire w' ∧
    (0 ≤ col - step → painted w' (row, col - step) color 1) ∧
    (col + step ≤ COLS - 1 → painted w' (row, col + step) color 1).
Proof.
  intros Hw [Hrow Hcol] Hstep Hawp. simpl in Hrow, Hcol.
  unfold expansion_step, ticks_ms.
  destruct (process_active_points_ok w Hw) as (w1 & Hrun1 & Ht).
  rewrite (bind_ok _ _ _ _ _ Hrun1). erewrite bind_ok by reflexivity.
  pose proof (ticked_healthy _ _ Ht Hw) as Hw1.
  pose proof (ticked_clock _ _ Ht) as Hk1.
  destruct (light_paints (left_boundary <=? col - step) WaveLeft
              (row, col - step) color active_wave_pixels
              (col - step, clock w1 + WAVE_LIGHT_DURATION) w1)
    as (w2 & Hrun2 & Hst2 & _ & Hp2 & _); [apply Hw1| |].
  { intros ?%Z.leb_le. unfold in_grid, left_boundary, COLS in *. simpl. lia. }
  rewrite (bind_ok _ _ _ _ _ Hrun2).
  pose proof (steady_healthy _ _ Hst2 Hw1) as Hw2.
  match goal with
  | |- context [if col + step <=? right_boundary then _ else mret ?l] =>
      destruct (light_paints (col + step <=? right_boundary) WaveRight
                  (row, col + step) color l
                  (col + step, clock w1 + WAVE_LIGHT_DURATION) w2)
        as (w3 & Hrun3 & Hst3 & _ & Hp3 & Hf3); [apply Hw2| |]
  end.
  { intros ?%Z.leb_le. unfold in_grid, right_boundary, COLS in *. simpl. lia. }
  rewrite (bind_ok _ _ _ _ _ Hrun3).
  pose proof (steady_healthy _ _ Hst3 Hw2) as Hw3.
  match goal with
  | |- context [age_wave_pixels WaveAge row ?now ?l] =>
      assert (Forall (λ p : Z * Z, 0 ≤ p.1 ≤ COLS - 1 ∧
                (now < p.2 ∨ (p.1 ≠ col - step ∧ p.1 ≠ col + step))) l)
        as Hall
  end.
  { rewrite Hk1. unfold left_boundary, right_boundary, COLS,
      WAVE_LIGHT_DURATION in *.
    destruct (Z.leb_spec 0 (col - step)), (Z.leb_spec (col + step) (15 - 1));
      rewrite ?Forall_app, ?Forall_singleton; simpl; repeat split;
      done || lia. }
  match goal with
  | |- context [age_wave_pixels WaveAge row ?now ?l] =>
      destruct (age_wave_pixels_frame WaveAge row now l w3 eq_refl)
        as (w4 & Hrun4 & Hst4 & _ & _ & _ & Hf4);
        [apply Hw3|exact (wave_pending_in_grid row _ _ Hrow Hall)|]
  end.
  rewrite (bind_ok _ _ _ _ _ Hrun4).
  pose proof (steady_healthy _ _ Hst4 Hw3) as Hw4.
  erewrite bind_ok by reflexivity. erewrite bind_ok by reflexivity.
  erewrite bind_ok by reflexivity.
  eexists. split.
  { unfold mret, M_ret. f_equal. f_equal. f_equal.
    - rewrite Hk1. unfold left_boundary, right_boundary.
      destruct (Z.leb_spec 0 (col - step)),
        (Z.leb_spec (col + step) (COLS - 1));
        by rewrite <- ?app_assoc, ?app_nil_r.
    - unfold left_boundary, right_boundary, COLS.
      destruct (Z.ltb_spec (col - step) 0), (Z.ltb_spec (15 - 1) (col + step));
        simpl; try done. unfold COLS in Hstep. lia. }
  split; [|split; [|split; [|split]]].
  - apply healthy_sleep; [|done].
    eapply steady_healthy; [|exact Hw4].
    eapply steady_trans; apply steady_shown.
  - simpl. by rewrite (steady_clock _ _ Hst4), (steady_clock _ _ Hst3),
      (steady_clock _ _ Hst2), Hk1.
  - done.
  - intros Hleft. unfold painted, pixel_at. simpl.
    change (pixel_at w4 (row, col - step)
            = if decide (is_hole (row, col - step)) then None
              else Some (scale color 1)).
    rewrite Hf4.
    + rewrite Hf3.
      * apply Hp2. apply Z.leb_le. by unfold left_boundary.
      * intros _ [=]. lia.
    + eapply Forall_impl; [exact Hall|]. intros p [_ [?|[Hne _]]]; [by left|].
      right. intros [=]. done.
  - intros Hright. unfold painted, pixel_at. simpl.
    change (pixel_at w4 (row, col + step)
            = if decide (is_hole (row, col + step)) then None
              else Some (scale color 1)).
    rewrite Hf4.
    + apply Hp3. apply Z.leb_le. by unfold right_boundary.
    + eapply Forall_impl; [exact Hall|]. intros p [_ [?|[_ Hne]]]; [by left|].
      right. intros [=]. done.
Qed.

Lemma expansion_loop_lights row col color (n : nat) (k : Z)
    active_wave_pixels w :
  healthy w → in_grid (row, col) →
  0 ≤ k → k + Z.of_nat n ≤ Z.max col (COLS - 1 - col) →
  expansion_pending col k (clock w) active_wave_pixels →
  ∃ kept w',
    expansion_loop row col color (seqZ (k + 1) (Z.of_nat n))
      active_wave_pixels w = (Ok kept, w') ∧
    healthy w' ∧
    clock w' = clock w + WAVE_LIGHT_SPREAD_DELAY * Z.of_nat n ∧
    expansion_pending col (k + Z.of_nat n) (clock w') kept ∧
    (∀ rest, expansion_loop row col color
               (seqZ (k + 1) (Z.of_nat n) ++ rest) active_wave_pixels w
             = expansion_loop row col color rest kept w') ∧
    (n ≠ 0%nat →
     on_wire w' ∧
     (0 ≤ col - (k + Z.of_nat n) →
      painted w' (row, col - (k + Z.of_nat n)) color 1) ∧
     (col + (k + Z.of_nat n) ≤ COLS - 1 →
      painted w' (row, col + (k + Z.of_nat n)) color 1)).
Proof.
  intros Hw Hg. pose proof Hg as [Hrow Hcol0]. simpl in Hrow, Hcol0.
  revert k active_wave_pixels w Hw.
  induction n as [|n IH]; intros k active_wave_pixels w Hw Hk Hmax Hp.
  - exists active_wave_pixels, w. change (Z.of_nat 0) with 0.
    rewrite ?Z.mul_0_r, !Z.add_0_r.
    split; [done|]. split; [done|]. split; [done|]. split; [done|].
    split; [done|]. by intros [].
  - rewrite Nat2Z.inj_succ, seqZ_cons by lia. cbn [expansion_loop].
    destruct (expansion_step_lights row col color (k + 1) active_wave_pixels w)
      as (w1 & Hrun1 & Hw1 & Hk1 & Hwire1 & Hl1 & Hr1); [done|done|lia| |].
    { eapply Forall_impl; [exact Hp|]. intros p (Hcol & s & Hs & Hat & Hoff & Hlive).
      split; [done|].
      unfold WAVE_LIGHT_SPREAD_DELAY, WAVE_LIGHT_DURATION in *. lia. }
    rewrite (bind_ok _ _ _ _ _ Hrun1). cbn beta iota.
    replace (Z.pred (Z.succ (Z.of_nat n))) with (Z.of_nat n) by lia.
    replace (Z.succ (k + 1)) with (k + 1 + 1) by lia.
    match type of Hrun1 with
    | _ = (Ok (?l, false), _) => set (kept1 := l) in *
    end.
    destruct (IH (k + 1) kept1 w1 Hw1)
      as (kept & w' & Hrun & Hw' & Hk' & Hp' & Hrest & Hlit); [lia|lia| |].
    { rewrite Hk1. subst kept1. apply Forall_forall. intros p Hin.
      apply list_elem_of_filter in Hin as [Hlive Hin].
      unfold WAVE_LIGHT_SPREAD_DELAY, WAVE_LIGHT_DURATION, COLS in *.
      cbn beta in *.
      rewrite !elem_of_app in Hin. destruct Hin as [Hin|[Hin|Hin]].
      - destruct (proj1 (Forall_forall _ _) Hp p Hin) as (Hcol & s & Hs & Hat & Hoff & _).
        split; [done|]. exists s.
        unfold WAVE_LIGHT_SPREAD_DELAY, WAVE_LIGHT_DURATION, COLS in *. lia.
      - destruct (Z.leb_spec 0 (col - (k + 1))); [|by apply elem_of_nil in Hin].
        apply list_elem_of_singleton in Hin as ->. simpl.
        split; [lia|]. exists (k + 1). lia.
      - destruct (Z.leb_spec (col + (k + 1)) (15 - 1));
          [|by apply elem_of_nil in Hin].
        apply list_elem_of_singleton in Hin as ->. simpl.
        split; [lia|]. exists (k + 1). lia. }
    exists kept, w'. split; [exact Hrun|]. split; [done|].
    split; [unfold WAVE_LIGHT_SPREAD_DELAY in *; lia|].
    replace (k + Z.succ (Z.of_nat n)) with (k + 1 + Z.of_nat n) by lia.
    split; [done|]. split.
    { intros rest. cbn [app expansion_loop].
      rewrite (bind_ok _ _ _ _ _ Hrun1). apply Hrest. }
    intros _. destruct n as [|n].
    + simpl in Hrun. injection Hrun as <- <-.
      replace (k + 1 + Z.of_nat 0) with (k + 1) by lia.
      split; [done|]. by split.
    + by apply Hlit.
Qed.

Lemma reflection_step_lights row col color current_col active_wave_pixels w :
  healthy w → 0 ≤ row < ROWS → 0 ≤ current_col < COLS →
  Forall (λ p : Z * Z, 0 ≤ p.1 ≤ COLS - 1 ∧
            (clock w < p.2 ∨ p.1 ≠ current_col)) active_wave_pixels →
  ∃ w',
    reflection_step row col color current_col active_wave_pixels w
      = (Ok (filter (λ p : Z * Z, clock w < p.2)
               (active_wave_pixels
                ++ (if negb (current_col =? col)
                    then [(current_col, clock w + WAVE_LIGHT_DURATION)]
                    else []))), w') ∧
    healthy w' ∧ clock w' = clock w + WAVE_LIGHT_SPREAD_DELAY ∧ on_wire w' ∧
    (current_col ≠ col → painted w' (row, current_col) color 1).
Proof.
  intros Hw Hrow Hcol Hawp. unfold reflection_step, ticks_ms.
  destruct (process_active_points_ok w Hw) as (w1 & Hrun1 & Ht).
  rewrite (bind_ok _ _ _ _ _ Hrun1). erewrite bind_ok by reflexivity.
  pose proof (ticked_healthy _ _ Ht Hw) as Hw1.
  pose proof (ticked_clock _ _ Ht) as Hk1.
  destruct (light_paints (negb (current_col =? col)) Reflect
              (row, current_col) color active_wave_pixels
              (current_col, clock w1 + WAVE_LIGHT_DURATION) w1)
    as (w2 & Hrun2 & Hst2 & _ & Hp2 & _); [apply Hw1|by intros _; split|].
  rewrite (bind_ok _ _ _ _ _ Hrun2).
  pose proof (steady_healthy _ _ Hst2 Hw1) as Hw2.
  match goal with
  | |- context [age_wave_pixels ReflectAge row ?now ?l] =>
      assert (Forall (λ p : Z * Z, 0 ≤ p.1 ≤ COLS - 1 ∧
                (now < p.2 ∨ p.1 ≠ current_col)) l) as Hall
  end.
  { rewrite Hk1. unfold WAVE_LIGHT_DURATION, COLS in *.
    destruct (negb (current_col =? col)); [|done].
    apply Forall_app. split; [done|]. apply Forall_singleton. simpl. lia. }
  match goal with
  | |- context [age_wave_pixels ReflectAge row ?now ?l] =>
      destruct (age_wave_pixels_frame ReflectAge row now l w2 eq_refl)
        as (w3 & Hrun3 & Hst3 & _ & _ & _ & Hf3);
        [apply Hw2|exact (wave_pending_in_grid row _ _ Hrow Hall)|]
  end.
  rewrite (bind_ok _ _ _ _ _ Hrun3).
  pose proof (steady_healthy _ _ Hst3 Hw2) as Hw3.
  erewrite bind_ok by reflexivity. erewrite bind_ok by reflexivity.
  erewrite bind_ok by reflexivity.
  eexists. split.
  { unfold mret, M_ret. f_equal. f_equal. rewrite Hk1.
    by destruct (negb (current_col =? col)); rewrite ?app_nil_r. }
  split; [|split; [|split]].
  - apply healthy_sleep; [|done].
    eapply steady_healthy; [|exact Hw3].
    eapply steady_trans; apply steady_shown.
  - simpl. by rewrite (steady_clock _ _ Hst3), (steady_clock _ _ Hst2), Hk1.
  - done.
  - intros Hne.
    change (pixel_at w3 (row, current_col)
            = if decide (is_hole (row, current_col)) then None
              else Some (scale color 1)).
    rewrite Hf3.
    + apply Hp2. by destruct (Z.eqb_spec current_col col).
    + eapply Forall_impl; [exact Hall|]. intros p [_ [?|Hne']]; [by left|].
      right. intros [=]. done.
Qed.

Lemma reverse_seqZ_cons (c : Z) (n : nat) :
  reverse (seqZ c (Z.of_nat (S n)))
  = (c + Z.of_nat n) :: reverse (seqZ c (Z.of_nat n)).
Proof.
  rewrite Nat2Z.inj_succ.
  replace (Z.succ (Z.of_nat n)) with (Z.of_nat n + 1) by lia.
  rewrite seqZ_app by lia. rewrite reverse_app. done.
Qed.

Lemma sweep_lights row col color (n : nat) (k start j : Z)
    active_wave_pixels w :
  healthy w → in_grid (row, col) → k = Z.max col (COLS - 1 - col) →
  0 ≤ j → j + Z.of_nat n ≤ COLS →
  clock w = start + WAVE_LIGHT_SPREAD_DELAY * j →
  reflection_pending col k start j (clock w) active_wave_pixels →
  ∃ kept w',
    sweep row col color (reverse (seqZ (COLS - j - Z.of_nat n) (Z.of_nat n)))
      active_wave_pixels w = (Ok kept, w') ∧
    healthy w' ∧
    clock w' = clock w + WAVE_LIGHT_SPREAD_DELAY * Z.of_nat n ∧
    reflection_pending col k start (j + Z.of_nat n) (clock w') kept ∧
    (∀ rest, sweep row col color
               (reverse (seqZ (COLS - j - Z.of_nat n) (Z.of_nat n)) ++ rest)
               active_wave_pixels w
             = sweep row col color rest kept w') ∧
    (n ≠ 0%nat →
     on_wire w' ∧
     (COLS - j - Z.of_nat n ≠ col →
      painted w' (row, COLS - j - Z.of_nat n) color 1)).
Proof.
  intros Hw Hg Hmax. pose proof Hg as [Hrow Hcol]. simpl in Hrow, Hcol.
  revert j active_wave_pixels w Hw.
  induction n as [|n IH]; intros j active_wave_pixels w Hw Hj Hjn Hclock Hp.
  - exists active_wave_pixels, w. change (Z.of_nat 0) with 0.
    rewrite ?Z.mul_0_r, !Z.add_0_r.
    split; [done|]. split; [done|]. split; [done|]. split; [done|].
    split; [done|]. by intros [].
  - rewrite reverse_seqZ_cons. unfold sweep. cbn [for_each].
    replace (COLS - j - Z.of_nat (S n) + Z.of_nat n) with (COLS - 1 - j)
      by lia.
    destruct (reflection_step_lights row col color (COLS - 1 - j)
                active_wave_pixels w)
      as (w1 & Hrun1 & Hw1 & Hk1 & Hwire1 & Hl1); [done|done|lia| |].
    { eapply Forall_impl; [exact Hp|].
      intros p (Hin & [(s & Hs & Hat & Hoff & Hlive)
                      |(i & Hi & Hat & Hoff & Hlive)]);
        (split; [done|]);
        unfold WAVE_LIGHT_SPREAD_DELAY, WAVE_LIGHT_DURATION, COLS in *; lia. }
    rewrite (bind_ok _ _ _ _ _ Hrun1).
    replace (COLS - j - Z.of_nat (S n)) with (COLS - (j + 1) - Z.of_nat n)
      by lia.
    match type of Hrun1 with
    | _ = (Ok ?l, _) => set (kept1 := l) in *
    end.
    destruct (IH (j + 1) kept1 w1 Hw1)
      as (kept & w' & Hrun & Hw' & Hk' & Hp' & Hrest & Hlit);
      [lia|lia|unfold WAVE_LIGHT_SPREAD_DELAY in *; lia| |].
    { rewrite Hk1. subst kept1. apply Forall_forall. intros p Hin.
      apply list_elem_of_filter in Hin as [Hlive Hin].
      unfold WAVE_LIGHT_SPREAD_DELAY, WAVE_LIGHT_DURATION, COLS in *.
      cbn beta in *.
      rewrite elem_of_app in Hin. destruct Hin as [Hin|Hin].
      - destruct (proj1 (Forall_forall _ _) Hp p Hin) as (Hcolp & [(s & Hs & Hat & Hoff & _)
                                        |(i & Hi & Hat & Hoff & _)]).
        + split; [done|]. left. exists s.
          unfold WAVE_LIGHT_SPREAD_DELAY, WAVE_LIGHT_DURATION, COLS in *. lia.
        + split; [done|]. right. exists i.
          unfold WAVE_LIGHT_SPREAD_DELAY, WAVE_LIGHT_DURATION, COLS in *. lia.
      - destruct (negb (15 - 1 - j =? col)); [|by apply elem_of_nil in Hin].
        apply list_elem_of_singleton in Hin as ->. simpl.
        split; [lia|]. right. exists j. lia. }
    exists kept, w'. split; [exact Hrun|]. split; [done|].
    split; [unfold WAVE_LIGHT_SPREAD_DELAY in *; lia|].
    replace (j + Z.of_nat (S n)) with (j + 1 + Z.of_nat n) by lia.
    split; [done|]. split.
    { intros rest. cbn [app for_each].
      rewrite (bind_ok _ _ _ _ _ Hrun1). apply Hrest. }
    intros _. destruct n as [|n].
    + simpl in Hrun. injection Hrun as <- <-.
      replace (COLS - (j + 1) - Z.of_nat 0) with (COLS - 1 - j) by lia.
      by split.
    + by apply Hlit.
Qed.

Lemma reflection_loop_sweep budget row col color current_col
    active_wave_pixels w :
  -1 ≤ current_col → (Z.to_nat (current_col + 1) ≤ budget)%nat →
  reflection_loop budget row col color current_col active_wave_pixels w
  = sweep row col color (reverse (seqZ 0 (current_col + 1)))
      active_wave_pixels w.
Proof.
  revert current_col active_wave_pixels w.
  induction budget as [|budget IH]; intros current_col active_wave_pixels w
    Hcol Hb; cbn [reflection_loop]; unfold left_boundary;
    destruct (Z.leb_spec 0 current_col) as [Hge|Hlt]; try lia.
  - by assert (current_col = -1) as -> by lia.
  - rewrite reverse_seqZ_S by done. unfold sweep. cbn [for_each].
    unfold mbind, M_bind.
    destruct (reflection_step row col color current_col active_wave_pixels w)
      as [[kept| |] w1]; [|done..].
    rewrite IH by lia.
    by replace (current_col - 1 + 1) with current_col by lia.
  - by assert (current_col = -1) as -> by lia.
Qed.

Lemma display_hit_effect_wave row col color w :
  healthy w → in_grid (row, col) →
  ∃ ws, healthy ws ∧ clock ws = clock w ∧
        display_hit_effect row col color w = wave row col color ws.
Proof.
  intros Hw Hg. pose proof Hg as [Hrow Hcol]. simpl in Hrow, Hcol.
  unfold display_hit_effect, ticks_ms.
  erewrite bind_ok by reflexivity.
  set (w0 := with_calls _ w).
  assert (healthy w0) as Hw0 by (eapply steady_healthy; [|exact Hw]; by split).
  destruct (scan_above_spec (Z.to_nat (row - 1 + 1)) (row - 1) col color w0
              (le_n _)) as (ra & Ha & Hra & Haok).
  destruct Haok as [above ->]; [lia|done|].
  rewrite (bind_ok _ _ _ _ _ Ha).
  destruct (scan_below_spec (Z.to_nat (ROWS - (row + 1))) (row + 1) col color
              w0 (le_n _)) as (rb & Hb & Hrb & Hbok).
  destruct Hbok as [below ->]; [lia|done|].
  rewrite (bind_ok _ _ _ _ _ Hb).
  assert (Forall (λ p : Z * Z * rgb, in_grid p.1) (above ++ below)) as Hvert.
  { apply Forall_app. split; by eapply scan_result_in_grid. }
  destruct (set_pixel_ok HitPoint (row, col) color HIT_POINT_BRIGHTNESS_BOOST
              true w0 Hg (healthy_strips _ Hw0))
    as (w1 & Hrun1 & Hst1 & Hc1).
  rewrite (bind_ok _ _ _ _ _ Hrun1).
  pose proof (steady_healthy _ _ Hst1 Hw0) as Hw1.
  match goal with
  | |- context [for_each (above ++ below) ?body tt] =>
      destruct (for_each_steady body (λ _ _, tt)
                  (λ p, [Call_set_pixel Companion p.1 p.2])
                  (λ p, in_grid p.1) (above ++ below) tt w1)
        as (w2 & Hrun2 & Hst2 & Hc2); [|apply Hw1|exact Hvert|]
  end.
  { intros [] [[vr vc] k] w' Hs Hin. simpl in *.
    by apply set_pixel_ok. }
  rewrite (bind_ok _ _ _ _ _ Hrun2).
  pose proof (steady_healthy _ _ Hst2 Hw1) as Hw2.
  erewrite bind_ok by reflexivity.
  destruct (start_fade_animation_ok (clock w2) [(row, col, color)]
              (above ++ below) w2 Hw2) as (w3 & Hrun3 & Hw3 & Hk3 & Hc3);
    [lia|by apply Forall_singleton|done|].
  rewrite (bind_ok _ _ _ _ _ Hrun3).
  exists w3. split; [done|]. split; [|done].
  by rewrite Hk3, (steady_clock _ _ Hst2), (steady_clock _ _ Hst1).
Qed.

Lemma expansion_pending_reflection col k now pending :
  expansion_pending col k now pending →
  reflection_pending col k now 0 now pending.
Proof.
  intros H. eapply Forall_impl; [exact H|].
  intros p [Hcol Hs]. split; [done|]. by left.
Qed.

(** C4. In a healthy state a hit inside the grid runs through to the
    end and leaves a healthy state.  The pixels its wave hands to
    [set_pixel] for lighting are, in this order: for each step 1 ..
    max(col, COLS - 1 - col) of the expansion, [col - step] and [col + step]
    when they are inside the row; then, in the reflection, every column
    from [COLS - 1] down to 0 except the hit column.  Every step of the
    expansion lights at least one pixel, and the whole effect sleeps once
    per step and once per swept column.

    In the buffers and on the wire: the effect is the wave run from a
    state [ws], reached when the hit pixel and its companions are lit and
    registered.  The expansion runs through all its steps.  When [step]
    steps are made and slept, the rest of the loop goes on from a state
    whose wire shows what the buffers hold, and in it the cells
    [(row, col - step)] and [(row, col + step)] that are inside the row
    hold the colour at the default brightness, each channel divided by 20
    for a colour with channels in [0, 255]; a hole of the matrix holds
    nothing.  When the reflection has swept the columns from [COLS - 1]
    down to [c], the rest of its loop goes on at [c - 1] from a state
    whose wire shows the buffers, and in it the cell [(row, c)] holds the
    colour in the same way, unless [c] is the hit column. *)
Theorem wave_lights_expansion_then_reflection (row col : Z) (color : rgb)
    (w : world) :
  healthy w → in_grid (row, col) →
  let max_steps := Z.max col (COLS - 1 - col) in
  (∃ w', display_hit_effect row col color w = (Ok tt, w') ∧
         healthy w' ∧
         trail (calls w')
           = trail (calls w) ++
             Call_display_hit_effect row col color
               :: expansion_calls row col color ++
                  reflection_calls row col color ∧
         clock w' = clock w + WAVE_LIGHT_SPREAD_DELAY * (max_steps + COLS)) ∧
  (∀ step, 1 ≤ step ≤ max_steps → expansion_lit row col color step ≠ []) ∧
  (∀ c, Call_set_pixel Reflect (row, c) color
          ∈ reflection_calls row col color ↔ 0 ≤ c < COLS ∧ c ≠ col) ∧
  ∃ ws lit we,
    healthy ws ∧ clock ws = clock w ∧
    display_hit_effect row col color w = wave row col color ws ∧
    expansion_loop row col color (seqZ 1 max_steps) [] ws = (Ok lit, we) ∧
    clock we = clock ws + WAVE_LIGHT_SPREAD_DELAY * max_steps ∧
    (∀ step, 1 ≤ step ≤ max_steps →
       ∃ pending wk,
         expansion_loop row col color (seqZ 1 step) [] ws
           = (Ok pending, wk) ∧
         expansion_loop row col color (seqZ 1 max_steps) [] ws
           = expansion_loop row col color
               (seqZ (step + 1) (max_steps - step)) pending wk ∧
         clock wk = clock ws + WAVE_LIGHT_SPREAD_DELAY * step ∧
         on_wire wk ∧
         (color_ok color →
          (0 ≤ col - step → shows wk (row, col - step) color) ∧
          (col + step ≤ COLS - 1 → shows wk (row, col + step) color))) ∧
    (∀ c, 0 ≤ c < COLS →
       ∃ pending wc,
         sweep row col color (reverse (seqZ c (COLS - c))) lit we
           = (Ok pending, wc) ∧
         reflection_loop (Z.to_nat (right_boundary - left_boundary + 1))
           row col color right_boundary lit we
           = reflection_loop (Z.to_nat c) row col color (c - 1) pending wc ∧
         clock wc = clock we + WAVE_LIGHT_SPREAD_DELAY * (COLS - c) ∧
         on_wire wc ∧
         (color_ok color → c ≠ col → shows wc (row, c) color)).
Proof.
  intros Hw Hg max_steps.
  pose proof Hg as [Hrow Hcol]. simpl in Hrow, Hcol.
  assert (0 ≤ max_steps) as Hmax by (unfold max_steps, COLS in *; lia).
  split; [|split; [|split]].
  - destruct (display_hit_effect_ok row col color w Hw Hg)
      as (w' & Hrun & Hw' & Hclock & Htrail).
    by exists w'.
  - intros step Hstep. unfold expansion_lit. unfold max_steps in Hstep.
    repeat case_decide; try done. lia.
  - intros c. unfold reflection_calls. rewrite list_elem_of_In, in_flat_map.
    setoid_rewrite <- list_elem_of_In. setoid_rewrite elem_of_reverse.
    setoid_rewrite elem_of_seqZ. unfold reflection_lit. split.
    + intros (c' & Hc' & Hin). case_decide; [|by apply elem_of_nil in Hin].
      apply list_elem_of_singleton in Hin as [= <-]. split; [lia|done].
    + intros [Hc Hne]. exists c. split; [lia|].
      rewrite decide_True by done. by apply list_elem_of_singleton.
  - destruct (display_hit_effect_wave row col color w Hw Hg)
      as (ws & Hws & Hks & Hwave).
    destruct (expansion_loop_lights row col color (Z.to_nat max_steps) 0 []
                ws Hws Hg)
      as (lit & we & Hrun & Hwe & Hke & Hlit & _ & _);
      [done|fold max_steps; lia|apply Forall_nil_2|].
    rewrite Z2Nat.id in Hrun, Hke, Hlit by done.
    change (0 + 1) with 1 in Hrun. rewrite Z.add_0_l in Hlit.
    exists ws, lit, we.
    split; [done|]. split; [done|]. split; [done|]. split; [done|].
    split; [done|]. split.
    + intros step Hstep.
      destruct (expansion_loop_lights row col color (Z.to_nat step) 0 []
                  ws Hws Hg)
        as (pending & wk & Hrunk & _ & Hkk & _ & Hrest & Hshow);
        [done|fold max_steps; lia|apply Forall_nil_2|].
      rewrite Z2Nat.id in Hrunk, Hkk, Hrest, Hshow by lia.
      change (0 + 1) with 1 in Hrunk, Hrest. rewrite !Z.add_0_l in Hshow.
      destruct Hshow as (Hwire & Hleft & Hright); [lia|].
      exists pending, wk. split; [done|]. split.
      { rewrite <- Hrest. f_equal.
        replace max_steps with (step + (max_steps - step)) at 1 by lia.
        rewrite seqZ_app by lia. by rewrite (Z.add_comm 1 step). }
      split; [done|]. split; [done|]. intros Hcolor.
      split; intros ?; apply painted_shows; auto using color_ok_nonneg.
    + intros c Hc.
      destruct (sweep_lights row col color (Z.to_nat (COLS - c)) max_steps
                  (clock we) 0 lit we Hwe Hg eq_refl)
        as (pending & wc & Hrunc & _ & Hkc & _ & Hrest & Hshow);
        [done|lia|unfold WAVE_LIGHT_SPREAD_DELAY; lia
        |by apply expansion_pending_reflection|].
      rewrite Z2Nat.id in Hrunc, Hkc, Hrest, Hshow by lia.
      replace (COLS - 0 - (COLS - c)) with c in Hrunc, Hrest, Hshow by lia.
      destruct Hshow as (Hwire & Hpaint); [unfold COLS in *; lia|].
      exists pending, wc. split; [done|]. split.
      { rewrite reflection_loop_sweep
          by (unfold right_boundary, left_boundary, COLS; lia).
        rewrite reflection_loop_sweep by lia.
        replace (c - 1 + 1) with c by lia.
        rewrite <- Hrest. f_equal. rewrite <- reverse_app. f_equal.
        replace (right_boundary + 1) with (c + (COLS - c))
          by (unfold right_boundary; lia).
        rewrite seqZ_app by lia. by rewrite Z.add_0_l. }
      split; [done|]. split; [done|]. intros Hcolor Hne.
      apply painted_shows; auto using color_ok_nonneg.
Qed.

Lemma wave_lights_expansion_then_reflection_witness :
  ∃ w' ws lit we pending wk swept wc,
    display_hit_effect 0 3 (255, 0, 0) fresh_world = (Ok tt, w') ∧
    clock w' = clock fresh_world + WAVE_LIGHT_SPREAD_DELAY * (11 + COLS) ∧
    display_hit_effect 0 3 (255, 0, 0) fresh_world
      = wave 0 3 (255, 0, 0) ws ∧
    expansion_loop 0 3 (255, 0, 0) (seqZ 1 11) [] ws = (Ok lit, we) ∧
    expansion_loop 0 3 (255, 0, 0) (seqZ 1 2) [] ws = (Ok pending, wk) ∧
    on_wire wk ∧
    pixel_at wk (0, 1) = Some (12, 0, 0) ∧
    pixel_at wk (0, 5) = Some (12, 0, 0) ∧
    sweep 0 3 (255, 0, 0) (reverse (seqZ 7 8)) lit we = (Ok swept, wc) ∧
    on_wire wc ∧
    pixel_at wc (0, 7) = Some (12, 0, 0).
Proof.
  destruct (wave_lights_expansion_then_reflection 0 3 (255, 0, 0) fresh_world)
    as ((w' & Hrun & _ & _ & Hclock) & _ & _ & ws & lit & we & _ & _ & Hwave
        & Hexp & _ & Hsteps & Hcols).
  - apply fresh_world_healthy.
  - unfold in_grid, ROWS, COLS. simpl. lia.
  - destruct (Hsteps 2) as (pending & wk & Hk & _ & _ & Hwire & Hshow);
      [unfold COLS; lia|].
    destruct Hshow as [Hleft Hright];
      [unfold color_ok, channel_ok; simpl; lia|].
    destruct (Hcols 7) as (swept & wc & Hc & _ & _ & Hwirec & Hshowc);
      [unfold COLS; lia|].
    exists w', ws, lit, we, pending, wk, swept, wc.
    split; [exact Hrun|]. split; [exact Hclock|]. split; [exact Hwave|].
    split; [exact Hexp|]. split; [exact Hk|]. split; [exact Hwire|].
    split; [apply Hleft; lia|]. split; [apply Hright; unfold COLS; lia|].
    split; [exact Hc|]. split; [exact Hwirec|].
    apply Hshowc; [unfold color_ok, channel_ok; simpl; lia|lia].
Defined.

(** ** The show *)

Lemma due_reached (due : Q) (elapsed : Z) :
  Qle_bool due (inject_Z elapsed) = true ↔ Qceiling due ≤ elapsed.
Proof.
  rewrite Qle_bool_iff. split.
  - intros H%Qceiling_resp_le. by rewrite Qceiling_Z in H.
  - intros H. eapply Qle_trans; [apply Qle_ceiling|]. by rewrite <- Zle_Qle.
Qed.

Lemma dispatch_ok p w :
  healthy w → dispatchable p →
  ∃ w', dispatch p w = (Ok tt, w') ∧ healthy w' ∧ clock w ≤ clock w' ∧
        trail (calls w') = trail (calls w) ++ show_trail p.
Proof.
  intros Hw Hp.
  destruct p as [[[due [row|?|]] [col|?|]] [?|color|]]; simpl in Hp; try done.
  destruct (display_hit_effect_ok row col color w Hw Hp)
    as (w' & Hrun & Hw' & Hclock & Htrail).
  exists w'. split; [done|]. split; [done|]. split; [|done].
  rewrite Hclock. unfold WAVE_LIGHT_SPREAD_DELAY, COLS. lia.
Qed.

Lemma dispatch_due_ok budget now start_ms (processed_hits : list processed_hit)
    (next_index : nat) w :
  healthy w → Forall dispatchable processed_hits →
  (length processed_hits - next_index ≤ budget)%nat →
  ∃ n w',
    dispatch_due budget now start_ms processed_hits next_index w = (Ok n, w') ∧
    healthy w' ∧ clock w ≤ clock w' ∧
    (next_index ≤ n ≤ next_index `max` length processed_hits)%nat ∧
    trail (calls w')
      = trail (calls w) ++
        flat_map show_trail
          (take (n - next_index) (drop next_index processed_hits)) ∧
    match processed_hits !! next_index with
    | Some p =>
        if Qle_bool p.1.1.1 (inject_Z (ticks_diff now start_ms))
        then (next_index < n)%nat
        else n = next_index ∧ w' = w
    | None => n = next_index ∧ w' = w
    end.
Proof.
  intros Hw Hvalid. revert next_index w Hw.
  induction budget as [|budget IH]; intros next_index w Hw Hb;
    cbn [dispatch_due];
    destruct (processed_hits !! next_index) as [p|] eqn:Hp;
    try destruct (Qle_bool p.1.1.1 (inject_Z (ticks_diff now start_ms))) eqn:Hdue;
    try (exists next_index, w; rewrite Nat.sub_diag, take_0, app_nil_r;
         by repeat (split; [done || lia|])).
  - apply lookup_lt_Some in Hp. lia.
  - destruct (dispatch_ok p w Hw) as (w1 & Hrun1 & Hw1 & Hc1 & Htr1).
    { eapply Forall_lookup_1; eassumption. }
    destruct (IH (S next_index) w1 Hw1) as (n & w' & Hrun & Hw' & Hc & Hn & Htr & _);
      [lia|].
    exists n, w'. rewrite (bind_ok _ _ _ _ _ Hrun1).
    pose proof (lookup_lt_Some _ _ _ Hp) as Hlt.
    split; [done|]. split; [done|]. split; [lia|].
    split; [lia|].
    split; [|lia].
    replace (n - next_index)%nat with (S (n - S next_index)) by lia.
    rewrite (drop_S _ _ _ Hp). cbn [take flat_map].
    by rewrite Htr, Htr1, <- app_assoc.
Qed.

Lemma show_loop_unfold fuel start_ms processed_hits next_index w :
  show_loop fuel start_ms processed_hits next_index w =
  if bool_decide (next_index < length processed_hits)%nat
     || negb (bool_decide (active_hits w = ∅))
     || negb (bool_decide (active_vertical_leds w = ∅))
  then
    match fuel with
    | O => (OutOfFuel, w)
    | S fuel' =>
        (process_active_points;;
         next_index ←
           dispatch_due (length processed_hits - next_index) (clock w)
             start_ms processed_hits next_index;
         sleep_ms 5;;
         show_loop fuel' start_ms processed_hits next_index) w
    end
  else (Ok next_index, w).
Proof.
  destruct fuel; cbn [show_loop]; unfold mbind at 1, M_bind at 1, get;
    cbn beta iota; by destruct (_ || _).
Qed.

Lemma survivors_all_faded (now T : Z) (d : gmap (Z * Z) (rgb * Z)) :
  map_Forall (λ _ entry, entry.2 + FADE_STEPS * FADE_INTERVAL ≤ T) d →
  T ≤ now → survivors now d = ∅.
Proof.
  intros H HT. apply map_empty. intros cell.
  apply map_lookup_filter_None.
  destruct (d !! cell) as [entry|] eqn:E; [right|by left].
  intros x [= <-]. simpl. intros Hf. apply Hf. apply H in E.
  unfold faded_out, ticks_diff. lia.
Qed.

Lemma show_loop_drain (k : nat) (T : Z) start_ms
    (processed_hits : list processed_hit) (next_index : nat) w :
  (length processed_hits ≤ next_index)%nat → healthy w →
  map_Forall (λ _ entry, entry.2 + FADE_STEPS * FADE_INTERVAL ≤ T)
    (active_hits w) →
  map_Forall (λ _ entry, entry.2 + FADE_STEPS * FADE_INTERVAL ≤ T)
    (active_vertical_leds w) →
  T - clock w ≤ 5 * Z.of_nat k →
  ∃ fuel w',
    show_loop fuel start_ms processed_hits next_index w = (Ok next_index, w') ∧
    healthy w' ∧ active_hits w' = ∅ ∧ active_vertical_leds w' = ∅ ∧
    trail (calls w') = trail (calls w).
Proof.
  intros Hidx. revert w.
  assert (∀ w, healthy w → active_hits w = ∅ → active_vertical_leds w = ∅ →
          show_loop 0 start_ms processed_hits next_index w
            = (Ok next_index, w)) as Hidle.
  { intros w _ Hh Hv. rewrite show_loop_unfold, Hh, Hv.
    rewrite bool_decide_false by lia. by rewrite !bool_decide_true by done. }
  assert (∀ w, healthy w →
          ∃ w1, ticked w w1 ∧ healthy (with_clock (clock w1 + 5) w1) ∧
                ∀ fuel, show_loop (S fuel) start_ms processed_hits next_index w
                        = if bool_decide (next_index < length processed_hits)%nat
                             || negb (bool_decide (active_hits w = ∅))
                             || negb (bool_decide (active_vertical_leds w = ∅))
                          then show_loop fuel start_ms processed_hits next_index
                                 (with_clock (clock w1 + 5) w1)
                          else (Ok next_index, w)) as Hbody.
  { intros w Hw. destruct (process_active_points_ok w Hw) as (w1 & Hrun & Ht).
    pose proof (ticked_healthy _ _ Ht Hw) as Hw1.
    exists w1. split; [done|]. split; [by apply healthy_sleep|].
    intros fuel. rewrite show_loop_unfold.
    destruct (_ || _); [|done].
    rewrite (bind_ok _ _ _ _ _ Hrun).
    assert (dispatch_due (length processed_hits - next_index) (clock w)
              start_ms processed_hits next_index w1 = (Ok next_index, w1)) as Hd.
    { destruct (length processed_hits - next_index)%nat; cbn [dispatch_due];
        by rewrite lookup_ge_None_2 by lia. }
    rewrite (bind_ok _ _ _ _ _ Hd). by erewrite bind_ok by reflexivity. }
  induction k as [|k IH]; intros w Hw Hh Hv Hk;
    destruct (Hbody w Hw) as (w1 & Ht & Hw2 & Hrun).
  - destruct (bool_decide (next_index < length processed_hits)%nat
              || negb (bool_decide (active_hits w = ∅))
              || negb (bool_decide (active_vertical_leds w = ∅))) eqn:Hbusy.
    + exists 1%nat, (with_clock (clock w1 + 5) w1).
      assert (active_hits w1 = ∅) as Hh1.
      { rewrite (ticked_hits _ _ Ht).
        apply (survivors_all_faded _ T); [done|lia]. }
      assert (active_vertical_leds w1 = ∅) as Hv1.
      { rewrite (ticked_vertical _ _ Ht).
        apply (survivors_all_faded _ T); [done|lia]. }
      rewrite Hrun, Hidle by done.
      split; [done|]. split; [done|]. split; [done|]. split; [done|].
      simpl. by apply ticked_trail.
    + exists 0%nat, w. rewrite show_loop_unfold, Hbusy.
      apply orb_false_elim in Hbusy as [[_ ?%negb_false_iff%bool_decide_eq_true]%orb_false_elim
                                        ?%negb_false_iff%bool_decide_eq_true].
      done.
  - destruct (bool_decide (next_index < length processed_hits)%nat
              || negb (bool_decide (active_hits w = ∅))
              || negb (bool_decide (active_vertical_leds w = ∅))) eqn:Hbusy.
    + destruct (IH (with_clock (clock w1 + 5) w1) Hw2)
        as (fuel & w' & Hrun' & Hw' & Hh' & Hv' & Htr').
      * simpl. rewrite (ticked_hits _ _ Ht). by apply survivors_Forall.
      * simpl. rewrite (ticked_vertical _ _ Ht). by apply survivors_Forall.
      * simpl. rewrite (ticked_clock _ _ Ht). lia.
      * exists (S fuel), w'. rewrite Hrun.
        split; [done|]. split; [done|]. split; [done|]. split; [done|].
        rewrite Htr'. simpl. by apply ticked_trail.
    + exists 0%nat, w. rewrite show_loop_unfold, Hbusy.
      apply orb_false_elim in Hbusy as [[_ ?%negb_false_iff%bool_decide_eq_true]%orb_false_elim
                                        ?%negb_false_iff%bool_decide_eq_true].
      done.
Qed.

Lemma show_loop_total start_ms (processed_hits : list processed_hit) :
  Forall dispatchable processed_hits →
  ∀ (m next_index : nat) w,
    (length processed_hits - next_index ≤ m)%nat → healthy w →
    ∃ fuel w',
      show_loop fuel start_ms processed_hits next_index w
        = (Ok (next_index `max` length processed_hits)%nat, w') ∧
      healthy w' ∧ active_hits w' = ∅ ∧ active_vertical_leds w' = ∅ ∧
      trail (calls w')
        = trail (calls w) ++
          flat_map show_trail (drop next_index processed_hits).
Proof.
  intros Hvalid.
  assert (∀ next_index w,
            (length processed_hits ≤ next_index)%nat → healthy w →
            ∃ fuel w',
              show_loop fuel start_ms processed_hits next_index w
                = (Ok (next_index `max` length processed_hits)%nat, w') ∧
              healthy w' ∧ active_hits w' = ∅ ∧ active_vertical_leds w' = ∅ ∧
              trail (calls w')
                = trail (calls w) ++
                  flat_map show_trail (drop next_index processed_hits))
    as Hdrain.
  { intros next_index w Hge Hw.
    destruct (show_loop_drain 100 (clock w + 500) start_ms processed_hits
                next_index w Hge Hw)
      as (fuel & w' & Hrun & Hw' & Hh & Hv & Htr).
    - intros cell entry Hin. apply (healthy_hits _ Hw) in Hin as [_ ?].
      unfold FADE_STEPS, FADE_INTERVAL. lia.
    - intros cell entry Hin. apply (healthy_vertical _ Hw) in Hin as [_ ?].
      unfold FADE_STEPS, FADE_INTERVAL. lia.
    - lia.
    - exists fuel, w'. rewrite Nat.max_l by done.
      rewrite drop_ge by done. simpl. by rewrite app_nil_r. }
  induction m as [|m IHm]; intros next_index w Hm Hw;
    destruct (decide (length processed_hits ≤ next_index)%nat) as [Hge|Hlt];
    try (by apply Hdrain); [lia|].
  destruct (lookup_lt_is_Some_2 processed_hits next_index) as [p Hp]; [lia|].
  assert (∀ (k : nat) w,
            healthy w →
            Qceiling p.1.1.1 + start_ms - clock w ≤ 5 * Z.of_nat k →
            ∃ fuel w',
              show_loop fuel start_ms processed_hits next_index w
                = (Ok (next_index `max` length processed_hits)%nat, w') ∧
              healthy w' ∧ active_hits w' = ∅ ∧ active_vertical_leds w' = ∅ ∧
              trail (calls w')
                = trail (calls w) ++
                  flat_map show_trail (drop next_index processed_hits))
    as Hwait.
  { clear w Hw. induction k as [|k IHk]; intros w Hw Hk;
      destruct (process_active_points_ok w Hw) as (w1 & Hrun1 & Ht);
      pose proof (ticked_healthy _ _ Ht Hw) as Hw1;
      destruct (dispatch_due_ok (length processed_hits - next_index) (clock w)
                  start_ms processed_hits next_index w1 Hw1 Hvalid (le_n _))
        as (n & w2 & Hrun2 & Hw2 & Hc2 & Hn & Htr2 & Hcase);
      rewrite Hp in Hcase;
      destruct (Qle_bool p.1.1.1 (inject_Z (ticks_diff (clock w) start_ms)))
        eqn:Hdue.
    1, 3:
      destruct (IHm n (with_clock (clock w2 + 5) w2)) as
        (fuel & w' & Hrun & Hw' & Hh & Hv & Htr);
        [lia | by apply healthy_sleep |];
      exists (S fuel), w'; rewrite show_loop_unfold;
      rewrite bool_decide_true by lia; cbn [orb];
      rewrite (bind_ok _ _ _ _ _ Hrun1), (bind_ok _ _ _ _ _ Hrun2);
      (erewrite bind_ok by reflexivity);
      replace (next_index `max` length processed_hits)%nat
        with (n `max` length processed_hits)%nat by lia;
      (split; [exact Hrun|]); (split; [done|]); (split; [done|]);
      (split; [done|]);
      rewrite Htr; cbn [calls with_clock]; rewrite Htr2, (ticked_trail _ _ Ht);
      rewrite <- app_assoc, <- flat_map_app; do 2 f_equal;
      rewrite <- (take_drop (n - next_index) (drop next_index processed_hits))
        at 2;
      rewrite drop_drop; do 2 f_equal; lia.
    - apply not_true_iff_false in Hdue. exfalso. apply Hdue.
      apply due_reached. unfold ticks_diff. lia.
    - destruct Hcase as [-> ->].
      destruct (IHk (with_clock (clock w1 + 5) w1)) as
        (fuel & w' & Hrun & Hw' & Hh & Hv & Htr).
      + by apply healthy_sleep.
      + simpl. rewrite (ticked_clock _ _ Ht). lia.
      + exists (S fuel), w'. rewrite show_loop_unfold.
        rewrite bool_decide_true by lia. cbn [orb].
        rewrite (bind_ok _ _ _ _ _ Hrun1), (bind_ok _ _ _ _ _ Hrun2).
        erewrite bind_ok by reflexivity.
        split; [exact Hrun|]. split; [done|]. split; [done|]. split; [done|].
        rewrite Htr. cbn [calls with_clock]. by rewrite (ticked_trail _ _ Ht). }
  apply (Hwait (Z.to_nat (Qceiling p.1.1.1 + start_ms - clock w))); [done|lia].
Qed.

Lemma dispatch_due_index budget now start_ms
    (processed_hits : list processed_hit) (next_index : nat) w n w' :
  dispatch_due budget now start_ms processed_hits next_index w = (Ok n, w') →
  (next_index ≤ n ≤ next_index `max` length processed_hits)%nat.
Proof.
  revert next_index w.
  induction budget as [|budget IH]; intros next_index w; cbn [dispatch_due];
    destruct (processed_hits !! next_index) as [p|] eqn:Hp;
    try destruct (Qle_bool p.1.1.1 (inject_Z (ticks_diff now start_ms)));
    try (intros [= <- <-]; lia); try done.
  intros (? & w1 & _ & Hrun)%bind_inv. apply IH in Hrun.
  apply lookup_lt_Some in Hp. lia.
Qed.

Lemma show_loop_exit fuel start_ms (processed_hits : list processed_hit)
    (next_index : nat) w n w' :
  show_loop fuel start_ms processed_hits next_index w = (Ok n, w') →
  (next_index ≤ length processed_hits)%nat →
  n = length processed_hits ∧ active_hits w' = ∅ ∧
  active_vertical_leds w' = ∅.
Proof.
  revert next_index w.
  induction fuel as [|fuel IH]; intros next_index w; rewrite show_loop_unfold;
    destruct (bool_decide (next_index < length processed_hits)%nat
              || negb (bool_decide (active_hits w = ∅))
              || negb (bool_decide (active_vertical_leds w = ∅))) eqn:Hbusy;
    try done.
  1, 3:
    intros [= <- <-] Hle;
    apply orb_false_elim in Hbusy as [[Hidx%bool_decide_eq_false
        ?%negb_false_iff%bool_decide_eq_true]%orb_false_elim
        ?%negb_false_iff%bool_decide_eq_true];
    split; [lia|done].
  intros ([] & w1 & _ & (n1 & w2 & Hd%dispatch_due_index & Hrest)%bind_inv)%bind_inv
    Hle.
  apply bind_inv in Hrest as ([] & w3 & _ & Hrun).
  apply IH in Hrun; [done|lia].
Qed.

Lemma with_draws_same w : with_draws (draws w) w = w.
Proof. by destruct w. Qed.

Lemma preprocess_ok (min_delay max_delay : Z) (hits : list hit)
    (processed_hits : list processed_hit) (current_time : Q) w :
  Forall (λ h : hit, (length h ≤ 4)%nat) hits →
  ∃ total,
    for_each hits (preprocess_hit min_delay max_delay)
      (processed_hits, current_time) w
    = (Ok (processed_hits ++
           synthetic_schedule (delay_ms (entropy w) min_delay max_delay)
             (draws w) current_time hits, total),
       with_draws (draws w + length (retained hits)) w).
Proof.
  intros Hhits. revert processed_hits current_time w.
  induction Hhits as [|h hits Hh _ IH]; intros processed_hits current_time w.
  - exists current_time. simpl.
    by rewrite app_nil_r, Nat.add_0_r, with_draws_same.
  - destruct h as [|f1 [|f2 [|f3 [|f4 [|f5 h]]]]]; simpl in Hh; try lia;
      cbn [for_each synthetic_schedule].
    1-4: erewrite bind_ok by reflexivity;
         destruct (IH processed_hits current_time w) as [total Hrun];
         exists total; exact Hrun.
    change (retained ([f1; f2; f3; f4] :: hits))
      with ((f2, f3, f4) :: retained hits).
    erewrite bind_ok by reflexivity.
    match goal with
    | |- context [for_each hits _ (?l, ?t) ?w1] =>
        destruct (IH l t w1) as [total Hrun]
    end.
    exists total. rewrite Hrun. cbn [draws entropy with_draws length].
    f_equal.
    + do 2 f_equal. by rewrite <- app_assoc.
    + destruct w as [sa sb ha hb ah av ck en dr cl]. unfold with_draws.
      cbn [stripA stripB shownA shownB active_hits active_vertical_leds
           clock entropy draws calls].
      f_equal. lia.
Qed.

Lemma schedule_retained delay k due (hits : list hit) :
  (λ p : processed_hit, (p.1.1.2, p.1.2, p.2))
    <$> synthetic_schedule delay k due hits = retained hits.
Proof.
  revert k due. induction hits as [|h hits IH]; intros k due; [done|].
  destruct h as [|f1 [|f2 [|f3 [|f4 [|f5 h]]]]];
    cbn [synthetic_schedule retained omap list_omap fmap list_fmap];
    try apply IH.
  simpl. f_equal. apply IH.
Qed.

Lemma schedule_dispatchable delay k due (hits : list hit) :
  Forall playable hits →
  Forall dispatchable (synthetic_schedule delay k due hits).
Proof.
  intros Hhits. revert k due.
  induction Hhits as [|h hits Hh _ IH]; intros k due; [done|].
  destruct h as [|f1 [|f2 [|f3 [|f4 [|f5 h]]]]];
    cbn [synthetic_schedule]; try apply IH.
  apply Forall_cons. split; [|apply IH].
  destruct f2 as [row| |], f3 as [col| |], f4 as [|color|];
    simpl in Hh; done || lia.
Qed.

Lemma playable_fields (hits : list hit) :
  Forall playable hits → Forall (λ h : hit, (length h ≤ 4)%nat) hits.
Proof.
  intros H. eapply Forall_impl; [exact H|]. intros h Hh.
  destruct h as [|f1 [|f2 [|f3 [|f4 [|f5 h]]]]]; simpl; try lia.
  destruct f2, f3, f4; simpl in Hh; lia.
Qed.

Lemma play_visualization_unfold fuel (hits : list hit) is_in_corner w :
  hits ≠ [] →
  play_visualization fuel hits is_in_corner w =
  ('(processed_hits, _) ←
     for_each hits
       (preprocess_hit (profile is_in_corner).1 (profile is_in_corner).2)
       ([], 0%Q);
   start_ms ← ticks_ms;
   show_loop fuel start_ms processed_hits 0%nat;;
   clear)
    (with_active_vertical_leds ∅ (with_active_hits ∅ w)).
Proof.
  intros Hne. destruct hits as [|h hits]; [done|].
  unfold play_visualization, profile.
  erewrite bind_ok by reflexivity. erewrite bind_ok by reflexivity.
  by destruct is_in_corner.
Qed.

(** C8.  The claim holds of the records the guard of line 305 was written
    for, and the code breaks it on the others: a record with five fields
    passes [len(hit) < 4], the unpacking of line 308 raises [ValueError],
    and neither it is skipped nor the four-field record after it retained;
    [play_visualization] ends in the exception. *)
Lemma five_field_hit_stops_preprocessing :
  let hits := [[FNum 0; FNum 1; FNum 1; FColor (255, 0, 0); FNull];
               [FNum 0; FNum 1; FNum 1; FColor (255, 0, 0)]] in
  (for_each hits (preprocess_hit 2 5) ([], 0%Q) fresh_world).1
    = Raise ValueError ∧
  (play_visualization 100 hits false fresh_world).1 = Raise ValueError.
Proof. split; reflexivity. Qed.

Lemma clear_registries w w' :
  clear w = (Ok tt, w') →
  active_hits w' = active_hits w ∧
  active_vertical_leds w' = active_vertical_leds w ∧ calls w' = calls w.
Proof. unfold clear. rewrite fill_black. by intros [= <-]. Qed.

(** C2 (as the code has it).  For the empty list [play_visualization]
    returns at once: it resets the registries and does not clear the grid.
    For every list that is not empty: whenever the call returns, the main
    loop has left with [next_index = len(processed_hits)] and both
    registries empty, and the grid has then been cleared to black; and if
    the strips have their configured sizes and every hit is playable, the
    call does return, having dispatched every scheduled hit in order. *)
Theorem show_runs_until_idle_then_clears (hits : list hit)
    (is_in_corner : bool) (w : world) :
  (hits = [] →
   ∀ fuel, play_visualization fuel hits is_in_corner w
           = (Ok tt, reset_registries w)) ∧
  (hits ≠ [] →
   (∀ fuel w',
      play_visualization fuel hits is_in_corner w = (Ok tt, w') →
      ∃ processed_hits total w1 w2,
        for_each hits
          (preprocess_hit (profile is_in_corner).1 (profile is_in_corner).2)
          ([], 0%Q) (reset_registries w)
          = (Ok (processed_hits, total), w1) ∧
        show_loop fuel (clock w1) processed_hits 0%nat w1
          = (Ok (length processed_hits), w2) ∧
        active_hits w2 = ∅ ∧ active_vertical_leds w2 = ∅ ∧
        clear w2 = (Ok tt, w') ∧
        all_dark w' ∧ active_hits w' = ∅ ∧ active_vertical_leds w' = ∅) ∧
   (strips_ok w → Forall playable hits →
    ∃ fuel w',
      play_visualization fuel hits is_in_corner w = (Ok tt, w') ∧
      trail (calls w')
        = trail (calls w) ++
          flat_map show_trail
            (synthetic_schedule
               (delay_ms (entropy w) (profile is_in_corner).1
                  (profile is_in_corner).2)
               (draws w) 0 hits))).
Proof.
  split; [by intros ->|]. intros Hne. split.
  - intros fuel w'. rewrite play_visualization_unfold by done.
    intros ([processed_hits total] & w1 & Hpre & Hrest)%bind_inv.
    apply bind_inv in Hrest as (start_ms & w1' & [= <- <-] & Hrest).
    apply bind_inv in Hrest as (n & w2 & Hloop & Hclear).
    destruct (show_loop_exit _ _ _ _ _ _ _ Hloop) as (-> & Hh & Hv); [lia|].
    destruct (clear_registries _ _ Hclear) as (Hh' & Hv' & _).
    exists processed_hits, total, w1, w2.
    repeat (split; [done|]). split; [by eapply clear_dark|].
    split; congruence.
  - intros Hw Hhits.
    destruct (preprocess_ok (profile is_in_corner).1 (profile is_in_corner).2
                hits [] 0%Q (reset_registries w) (playable_fields _ Hhits))
      as [total Hpre].
    set (schedule := synthetic_schedule _ _ _ _) in Hpre.
    set (w1 := with_draws _ _) in Hpre.
    assert (healthy w1) as Hw1.
    { split; [done| |]; apply map_Forall_empty. }
    destruct (show_loop_total (clock w1) schedule
                (schedule_dispatchable _ _ _ _ Hhits) (length schedule) 0 w1)
      as (fuel & w2 & Hloop & _ & _ & _ & Htrail); [lia|done|].
    destruct (clear w2) as [r w'] eqn:Hclear.
    assert (r = Ok tt) as -> by (unfold clear in Hclear;
                                 rewrite fill_black in Hclear; congruence).
    destruct (clear_registries _ _ Hclear) as (_ & _ & Hcalls).
    exists fuel, w'. rewrite play_visualization_unfold by done.
    rewrite (bind_ok _ _ _ _ _ Hpre). erewrite bind_ok by reflexivity.
    rewrite (bind_ok _ _ _ _ _ Hloop). split; [done|].
    by rewrite Hcalls, Htrail.
Qed.

Lemma show_runs_until_idle_then_clears_witness :
  ∃ fuel w',
    play_visualization fuel [[FNum 0; FNum 0; FNum 0; FColor (255, 0, 0)]]
      false fresh_world = (Ok tt, w') ∧
    all_dark w' ∧ active_hits w' = ∅ ∧ active_vertical_leds w' = ∅.
Proof.
  destruct (show_runs_until_idle_then_clears
              [[FNum 0; FNum 0; FNum 0; FColor (255, 0, 0)]] false fresh_world)
    as [_ Hshow].
  destruct Hshow as [Hexit Hreturns]; [discriminate|].
  destruct Hreturns as (fuel & w' & Hrun & _).
  - split; reflexivity.
  - apply Forall_singleton. unfold playable, in_grid, ROWS, COLS. simpl. lia.
  - destruct (Hexit fuel w' Hrun)
      as (_ & _ & _ & _ & _ & _ & _ & _ & _ & Hdark & Hh & Hv).
    exists fuel, w'. split; [exact Hrun|]. split; [exact Hdark|].
    split; [exact Hh|exact Hv].
Defined.

(** Counterexample to C2 as stated: on the empty list the call returns
    without clearing, and a pixel that was lit stays lit. *)
Lemma empty_show_leaves_grid_lit :
  ∃ w', play_visualization 100 [] false lit_world = (Ok tt, w') ∧
        ¬ all_dark w'.
Proof.
  eexists. split; [reflexivity|]. intros [H _].
  apply Forall_cons in H as [H _]. discriminate H.
Qed.

(** * Further properties of the code *)

(** ** The mapper covers both strips *)

(** X1. Every LED of both strips is wired to exactly one cell of the
    grid: the mapper is onto the 120 pixels of strip A and the 64 pixels of
    strip B, and [led_to_grid] is its inverse. *)
Theorem every_led_has_one_cell (s : strip_id) (i : Z) :
  0 ≤ i < capacity s →
  in_grid (led_to_grid s i) ∧
  grid_to_led (led_to_grid s i) = Ok (Some (s, i)) ∧
  ∀ cell, grid_to_led cell = Ok (Some (s, i)) → cell = led_to_grid s i.
Proof.
  intros Hi.
  assert (in_grid (led_to_grid s i) ∧
          grid_to_led (led_to_grid s i) = Ok (Some (s, i))) as [Hg E].
  { unfold led_to_grid, capacity, LED_NUM_A, LED_NUM_B in *.
    pose proof (Z.div_mod i 8 ltac:(lia)) as Hdm.
    pose proof (Z.mod_pos_bound i 8 ltac:(lia)) as Hm.
    assert (0 ≤ i / 8 < match s with A => 15 | B => 8 end) as Hq.
    { destruct s; zlia. }
    set (q := i / 8) in *. set (m := i mod 8) in *. clearbody q m.
    destruct s; destruct (Z.eqb_spec (q mod 2) 0);
      (split; [unfold in_grid, ROWS, COLS; simpl; zlia|]);
      grid_cases; try (exfalso; zlia);
      change ((16 + 1) `div` 2) with 8; change ((15 + 1) `div` 2) with 8;
      do 2 f_equal; apply (f_equal (pair _)); zlia. }
  split; [done|]. split; [done|].
  intros cell Hcell. by apply (grid_to_led_same_led _ _ s i).
Qed.

Lemma every_led_has_one_cell_witness :
  in_grid (led_to_grid B 63) ∧
  grid_to_led (led_to_grid B 63) = Ok (Some (B, 63)) ∧
  ∀ cell, grid_to_led cell = Ok (Some (B, 63)) → cell = led_to_grid B 63.
Proof.
  apply (every_led_has_one_cell B 63). unfold capacity, LED_NUM_B. lia.
Defined.

(** X2. Serpentine wiring: two LEDs with consecutive indices on a strip
    belong to cells that are next to each other along the cable: on strip A
    two rows apart in one column, or side by side where the cable turns
    into the next column; on strip B two columns apart in one row, or one
    above the other where the cable turns into the next b-row. *)
Theorem consecutive_leds_are_neighbours (s : strip_id) (i : Z)
    (c1 c2 : Z * Z) :
  grid_to_led c1 = Ok (Some (s, i)) →
  grid_to_led c2 = Ok (Some (s, i + 1)) →
  cable_neighbours s c1 c2.
Proof.
  destruct c1 as [r1 k1], c2 as [r2 k2].
  intros [[??] G1]%grid_to_led_inv [[??] G2]%grid_to_led_inv.
  unfold in_grid, ROWS, COLS, cable_neighbours in *. simpl in *.
  destruct G1 as [(-> & ? & E1)|(-> & ? & ? & E1)],
           G2 as [(? & ? & E2)|(? & ? & ? & E2)];
    try discriminate; subst i; repeat case_decide; zlia.
Qed.

Lemma consecutive_leds_are_neighbours_witness :
  cable_neighbours A (14, 0) (14, 1).
Proof.
  apply (consecutive_leds_are_neighbours A 7 (14, 0) (14, 1)); reflexivity.
Defined.

(** ** Pixels *)

(** X3. Painting a cell that has an LED, on strips of the configured
    sizes: the cell then shows [scale(color, boost)], every other cell
    shows what it showed before, and the wire is brought up to date exactly
    when [auto_write] is set. *)
Theorem set_pixel_paints_one_cell from (cell : Z * Z) (color : rgb)
    (boost : Q) (auto_write : bool) (w : world) :
  strips_ok w → in_grid cell → ¬ is_hole cell →
  ∃ w', set_pixel from cell color boost auto_write w = (Ok tt, w') ∧
        pixel_at w' cell = Some (scale color boost) ∧
        (∀ other, other ≠ cell → pixel_at w' other = pixel_at w other) ∧
        (if auto_write then shownA w' = stripA w' ∧ shownB w' = stripB w'
         else shownA w' = shownA w ∧ shownB w' = shownB w).
Proof.
  intros Hw Hg Hh.
  destruct (grid_to_led_in_grid _ Hg) as [[? _]|[_ (s & i & E)]]; [done|].
  destruct (set_pixel_led from cell color boost auto_write w s i E Hw)
    as (w' & Hrun & Hs & Hother & Hwire).
  pose proof (grid_to_led_index_bound _ _ _ E) as Hi.
  exists w'. split; [done|]. split; [|split; [|done]].
  - unfold pixel_at. rewrite E, Hs. apply list_lookup_insert_eq.
    destruct Hw, s; simpl in *; lia.
  - intros other Hne. unfold pixel_at.
    destruct (grid_to_led other) as [[[s' i']|]|e|] eqn:E'; try done.
    assert (s' = s ∨ s' ≠ s) as [->|Hs']
      by (destruct s, s'; (by left) || (by right)).
    + rewrite Hs. apply list_lookup_insert_ne. intros Heq.
      apply Hne, (grid_to_led_same_led _ _ s i); [|done].
      pose proof (grid_to_led_index_bound _ _ _ E').
      replace i with i' by lia. done.
    + by rewrite Hother.
Qed.

Lemma set_pixel_paints_one_cell_witness :
  ∃ w', set_pixel HitPoint (2, 3) (200, 100, 40) 10 true fresh_world
          = (Ok tt, w') ∧
        pixel_at w' (2, 3) = Some (100, 50, 20) ∧
        pixel_at w' (2, 4) = Some (0, 0, 0).
Proof.
  destruct (set_pixel_paints_one_cell HitPoint (2, 3) (200, 100, 40) 10 true
              fresh_world) as (w' & Hrun & Hcell & Hother & _).
  - split; reflexivity.
  - unfold in_grid, ROWS, COLS. simpl. lia.
  - intros [H _]. discriminate H.
  - exists w'. split; [exact Hrun|]. split; [exact Hcell|].
    rewrite (Hother (2, 4)) by discriminate. reflexivity.
Defined.

(** X4. Painting a hole does nothing at all: no error, no pixel, and --
    even with [auto_write] set -- no write to the wire; this needs no
    assumption on the strips. *)
Theorem set_pixel_on_hole_is_noop from (cell : Z * Z) (color : rgb)
    (boost : Q) (auto_write : bool) (w : world) :
  in_grid cell → is_hole cell →
  ∃ w', set_pixel from cell color boost auto_write w = (Ok tt, w') ∧
        untouched w w' ∧ pixel_at w' cell = None.
Proof.
  intros Hg Hh.
  destruct (grid_to_led_in_grid _ Hg) as [[_ E]|[? _]]; [|done].
  unfold set_pixel, record, mbind, M_bind, modify, lift. simpl.
  rewrite E. simpl. eexists. split; [done|]. split; [done|].
  unfold pixel_at. by rewrite E.
Qed.

Lemma set_pixel_on_hole_is_noop_witness :
  ∃ w', set_pixel WaveLeft (3, 5) (255, 0, 0) 1 true lit_world = (Ok tt, w') ∧
        untouched lit_world w' ∧ pixel_at w' (3, 5) = None.
Proof.
  apply (set_pixel_on_hole_is_noop WaveLeft (3, 5) (255, 0, 0) 1 true
           lit_world).
  - unfold in_grid, ROWS, COLS. simpl. lia.
  - split; reflexivity.
Defined.

(** X5. After [fill(color)] every cell of the grid that has an LED shows
    [scale(color)], on strips of the configured sizes, and the wire shows
    the same. *)
Theorem fill_paints_every_cell (color : rgb) (w : world) :
  strips_ok w →
  ∃ w', fill color w = (Ok tt, w') ∧ strips_ok w' ∧
        shownA w' = stripA w' ∧ shownB w' = stripB w' ∧
        ∀ cell, in_grid cell → ¬ is_hole cell →
                pixel_at w' cell = Some (scale color 1).
Proof.
  intros [HA HB]. eexists. split; [reflexivity|]. simpl.
  split; [by split; simpl; rewrite length_replicate|].
  split; [done|]. split; [done|].
  intros cell Hg Hh.
  destruct (grid_to_led_in_grid _ Hg) as [[? _]|[_ (s & i & E)]]; [done|].
  pose proof (grid_to_led_index_bound _ _ _ E) as Hi.
  unfold pixel_at. rewrite E.
  destruct s; simpl; apply lookup_replicate_2; simpl in Hi; lia.
Qed.

Lemma fill_paints_every_cell_witness :
  ∃ w', fill (255, 40, 0) lit_world = (Ok tt, w') ∧
        pixel_at w' (0, 0) = Some (12, 2, 0) ∧
        pixel_at w' (15, 14) = Some (12, 2, 0).
Proof.
  destruct (fill_paints_every_cell (255, 40, 0) lit_world)
    as (w' & Hrun & _ & _ & _ & Hcells).
  - split; reflexivity.
  - exists w'. split; [exact Hrun|].
    split; apply Hcells; unfold in_grid, is_hole, ROWS, COLS; simpl;
      first [lia | intros [? ?]; discriminate].
Defined.

(** ** Brightness *)

Lemma int_scaled_mono (r : Z) (f1 f2 : Q) :
  0 ≤ r → (0 <= f1)%Q → (f1 <= f2)%Q →
  int (inject_Z r * f1) ≤ int (inject_Z r * f2).
Proof.
  intros Hr H1 H12. pose proof (inject_Z_nonneg r Hr) as Hq.
  assert (0 <= f2)%Q as H2 by (apply (Qle_trans _ f1); assumption).
  rewrite (int_floor (inject_Z r * f1))
    by (apply Qmult_le_0_compat; assumption).
  rewrite (int_floor (inject_Z r * f2))
    by (apply Qmult_le_0_compat; assumption).
  apply Qfloor_resp_le. rewrite !(Qmult_comm (inject_Z r)).
  by apply Qmult_le_compat_r.
Qed.

(** X6. What [scale] does at the boosts the program uses, for a colour
    with channels in [0, 255]: at the default boost every channel is
    divided by 20 (so a channel below 20 goes dark), at the hit boost it is
    halved, and from a boost of 20 on the colour comes out unchanged. *)
Theorem scale_at_the_program_boosts (color : rgb) :
  color_ok color →
  scale color 1 = (color.1.1 / 20, color.1.2 / 20, color.2 / 20) ∧
  scale color HIT_POINT_BRIGHTNESS_BOOST
    = (color.1.1 / 2, color.1.2 / 2, color.2 / 2) ∧
  ∀ boost, (20 <= boost)%Q → scale color boost = color.
Proof.
  intros Hc%color_ok_nonneg. split; [|split].
  - by apply scale_default.
  - by apply scale_hit_boost.
  - intros boost Hboost. by apply scale_saturated.
Qed.

Lemma scale_at_the_program_boosts_witness :
  scale (255, 19, 40) 1 = (12, 0, 2) ∧
  scale (255, 19, 40) HIT_POINT_BRIGHTNESS_BOOST = (127, 9, 20) ∧
  ∀ boost, (20 <= boost)%Q → scale (255, 19, 40) boost = (255, 19, 40).
Proof.
  apply (scale_at_the_program_boosts (255, 19, 40)).
  unfold color_ok, channel_ok. simpl. lia.
Defined.

(** X7. A larger boost never dims: for a colour without negative
    channel and boosts [0 <= boost1 <= boost2], no channel of
    [scale(color, boost1)] exceeds that of [scale(color, boost2)]. *)
Theorem scale_monotone_in_boost (color : rgb) (boost1 boost2 : Q) :
  nonneg_color color → (0 <= boost1)%Q → (boost1 <= boost2)%Q →
  no_brighter (scale color boost1) (scale color boost2).
Proof.
  intros (Hr & Hg & Hb) H1 H12. rewrite !scale_dim.
  assert (0 <= Qmin (BRIGHTNESS * boost1) 1)%Q as Hf1.
  { apply Q.min_glb; [|done]. by apply Qmult_le_0_compat. }
  assert (Qmin (BRIGHTNESS * boost1) 1 <= Qmin (BRIGHTNESS * boost2) 1)%Q
    as Hf12.
  { apply Q.min_le_compat_r. unfold BRIGHTNESS. lra. }
  unfold no_brighter, dim. simpl.
  repeat split; by apply int_scaled_mono.
Qed.

Lemma scale_monotone_in_boost_witness :
  no_brighter (scale (255, 19, 40) 1) (scale (255, 19, 40) (10 # 1)).
Proof.
  apply (scale_monotone_in_boost (255, 19, 40) 1 (10 # 1)).
  - unfold nonneg_color. simpl. lia.
  - unfold Qle. simpl. lia.
  - unfold Qle. simpl. lia.
Defined.

(** ** Companions *)

Lemma scan_above_nearest budget (row above_row col : Z) color w :
  0 ≤ col < COLS → -1 ≤ above_row < row → row ≤ ROWS →
  (Z.to_nat (above_row + 1) ≤ budget)%nat →
  (∀ r, above_row < r < row → grid_to_led (r, col) = Ok None) →
  ∃ found,
    scan_above budget above_row col color w
      = (Ok ((λ r, (r, col, color)) <$> found), w) ∧
    nearest_led_above row col found.
Proof.
  intros Hcol. revert above_row.
  induction budget as [|budget IH]; intros above_row Hrow Hmax Hb Hholes;
    cbn [scan_above]; destruct (Z.leb_spec 0 above_row) as [Hge|Hlt];
    try lia.
  - exists []. split; [done|]. intros r Hr. apply Hholes. lia.
  - unfold mbind, M_bind, lift.
    destruct (grid_to_led_in_grid (above_row, col))
      as [[_ E]|[_ (s & i & E)]];
      [unfold in_grid; simpl; lia| |]; rewrite E.
    + destruct (IH (above_row - 1)) as (found & Hrun & Hfound);
        [lia|lia|lia| |by exists found].
      intros r Hr. destruct (decide (r = above_row)) as [->|]; [done|].
      apply Hholes. lia.
    + exists [above_row]. split; [done|]. simpl.
      split; [lia|]. split; [by eauto|done].
  - exists []. split; [done|]. intros r Hr. apply Hholes. lia.
Qed.

Lemma scan_below_nearest budget (row below_row col : Z) color w :
  0 ≤ col < COLS → row < below_row ≤ ROWS → 0 ≤ row →
  (Z.to_nat (ROWS - below_row) ≤ budget)%nat →
  (∀ r, row < r < below_row → grid_to_led (r, col) = Ok None) →
  ∃ found,
    scan_below budget below_row col color w
      = (Ok ((λ r, (r, col, color)) <$> found), w) ∧
    nearest_led_below row col found.
Proof.
  intros Hcol. revert below_row.
  induction budget as [|budget IH]; intros below_row Hrow Hmin Hb Hholes;
    cbn [scan_below]; destruct (Z.ltb_spec below_row ROWS) as [Hlt|Hge];
    try lia.
  - exists []. split; [done|]. intros r Hr. apply Hholes. lia.
  - unfold mbind, M_bind, lift.
    destruct (grid_to_led_in_grid (below_row, col))
      as [[_ E]|[_ (s & i & E)]];
      [unfold in_grid; simpl; lia| |]; rewrite E.
    + destruct (IH (below_row + 1)) as (found & Hrun & Hfound);
        [lia|lia|lia| |by exists found].
      intros r Hr. destruct (decide (r = below_row)) as [->|]; [done|].
      apply Hholes. lia.
    + exists [below_row]. split; [done|]. simpl.
      split; [lia|]. split; [by eauto|done].
  - exists []. split; [done|]. intros r Hr. apply Hholes. lia.
Qed.

(** X8. The two scans of [display_hit_effect] for a hit inside the grid
    never raise and leave the state alone; each returns at most one
    companion, in the hit's column and colour: the nearest cell above
    (below) the hit that has an LED, and none when there is no such cell.
    A companion is never more than two rows away. *)
Theorem companions_are_nearest_leds (row col : Z) (color : rgb) (w : world) :
  in_grid (row, col) →
  ∃ above below,
    scan_above (Z.to_nat (row - 1 + 1)) (row - 1) col color w
      = (Ok ((λ r, (r, col, color)) <$> above), w) ∧
    scan_below (Z.to_nat (ROWS - (row + 1))) (row + 1) col color w
      = (Ok ((λ r, (r, col, color)) <$> below), w) ∧
    nearest_led_above row col above ∧ nearest_led_below row col below ∧
    Forall (λ r, row - 2 ≤ r) above ∧ Forall (λ r, r ≤ row + 2) below.
Proof.
  intros [Hrow Hcol]. simpl in Hrow, Hcol.
  destruct (scan_above_nearest (Z.to_nat (row - 1 + 1)) row (row - 1) col
              color w) as (above & Ha & Hna); [done|lia|lia|lia| |].
  { intros r Hr. lia. }
  destruct (scan_below_nearest (Z.to_nat (ROWS - (row + 1))) row (row + 1) col
              color w) as (below & Hb & Hnb); [done|lia|lia|lia| |].
  { intros r Hr. lia. }
  exists above, below. repeat (split; [done|]). split.
  - destruct above as [|r' [|]]; [done| |done].
    apply Forall_singleton. destruct Hna as (Hr' & _ & Hholes).
    destruct (decide (row - 2 ≤ r')) as [|Hfar]; [done|]. exfalso.
    pose proof (Hholes (row - 1) ltac:(lia)) as H1.
    pose proof (Hholes (row - 2) ltac:(lia)) as H2.
    revert H1 H2. clear -Hrow Hcol Hr' Hfar. intros H1 H2.
    grid_cases; try discriminate; zlia.
  - destruct below as [|r' [|]]; [done| |done].
    apply Forall_singleton. destruct Hnb as (Hr' & _ & Hholes).
    destruct (decide (r' ≤ row + 2)) as [|Hfar]; [done|]. exfalso.
    pose proof (Hholes (row + 1) ltac:(lia)) as H1.
    pose proof (Hholes (row + 2) ltac:(lia)) as H2.
    revert H1 H2. clear -Hrow Hcol Hr' Hfar. intros H1 H2.
    grid_cases; try discriminate; zlia.
Qed.

Lemma companions_are_nearest_leds_witness :
  ∃ above below,
    scan_above (Z.to_nat (14 - 1 + 1)) (14 - 1) 3 (255, 0, 0) fresh_world
      = (Ok ((λ r, (r, 3, (255, 0, 0))) <$> above), fresh_world) ∧
    scan_below (Z.to_nat (ROWS - (14 + 1))) (14 + 1) 3 (255, 0, 0) fresh_world
      = (Ok ((λ r, (r, 3, (255, 0, 0))) <$> below), fresh_world) ∧
    nearest_led_above 14 3 above ∧ nearest_led_below 14 3 below.
Proof.
  destruct (companions_are_nearest_leds 14 3 (255, 0, 0) fresh_world)
    as (above & below & Ha & Hb & Hna & Hnb & _).
  - unfold in_grid, ROWS, COLS. simpl. lia.
  - exists above, below. split; [exact Ha|]. split; [exact Hb|].
    split; [exact Hna|exact Hnb].
Defined.

(** ** The registries *)

Lemma with_active_hits_same w : with_active_hits (active_hits w) w = w.
Proof. by destruct w. Qed.

Lemma with_active_vertical_leds_same w :
  with_active_vertical_leds (active_vertical_leds w) w = w.
Proof. by destruct w. Qed.

Lemma register_hits_run (now : Z) (points : list (Z * Z * rgb)) w :
  for_each points (λ (_ : unit) '(row, col, color),
    let start_fade_time := now + 100 in
    modify (λ w, with_active_hits
      (<[(row, col) := (color, start_fade_time)]> (active_hits w)) w)) tt w
  = (Ok tt,
     with_active_hits
       (foldl (λ d p, <[p.1 := (p.2, now + 100)]> d) (active_hits w) points)
       w).
Proof.
  revert w. induction points as [|[[row col] color] points IH]; intros w.
  - simpl. by rewrite with_active_hits_same.
  - cbn [for_each foldl]. erewrite bind_ok by reflexivity. by rewrite IH.
Qed.

Lemma register_vertical_run (now : Z) (points : list (Z * Z * rgb)) w :
  for_each points (λ (_ : unit) '(row, col, color),
    let start_fade_time := now + 50 in
    modify (λ w, with_active_vertical_leds
      (<[(row, col) := (color, start_fade_time)]> (active_vertical_leds w))
      w)) tt w
  = (Ok tt,
     with_active_vertical_leds
       (foldl (λ d p, <[p.1 := (p.2, now + 50)]> d) (active_vertical_leds w)
          points) w).
Proof.
  revert w. induction points as [|[[row col] color] points IH]; intros w.
  - simpl. by rewrite with_active_vertical_leds_same.
  - cbn [for_each foldl]. erewrite bind_ok by reflexivity. by rewrite IH.
Qed.

Lemma registered_lookup (t : Z) (points : list (Z * Z * rgb))
    (d : gmap (Z * Z) (rgb * Z)) :
  NoDup points.*1 →
  (∀ cell color, (cell, color) ∈ points →
     foldl (λ d p, <[p.1 := (p.2, t)]> d) d points !! cell
     = Some (color, t)) ∧
  (∀ cell, cell ∉ points.*1 →
     foldl (λ d p, <[p.1 := (p.2, t)]> d) d points !! cell = d !! cell).
Proof.
  revert d. induction points as [|[c k] points IH]; intros d Hnd.
  - split; [by intros ?? ?%elem_of_nil|done].
  - apply NoDup_cons in Hnd as [Hc Hnd]. cbn [foldl].
    destruct (IH (<[c := (k, t)]> d) Hnd) as [IH1 IH2]. split.
    + intros cell color [[= -> ->]|Hin]%elem_of_cons; [|by apply IH1].
      rewrite IH2 by done. apply lookup_insert_eq.
    + intros cell Hcell. simpl in Hcell.
      apply not_elem_of_cons in Hcell as [Hne Hcell].
      rewrite IH2 by done. by apply lookup_insert_ne.
Qed.

(** X9. [start_fade_animation] only writes the two registries.  With
    no cell listed twice, every listed hit point is afterwards registered
    with its colour and the start time [now + 100], every listed vertical
    point with [now + 50] (an older entry of the cell is overwritten), and
    the entries of all other cells stay as they were. *)
Theorem start_fade_animation_registers (now : Z)
    (hit_points vertical_points : list (Z * Z * rgb)) (w : world) :
  NoDup hit_points.*1 → NoDup vertical_points.*1 →
  ∃ w',
    start_fade_animation now hit_points vertical_points w = (Ok tt, w') ∧
    w' = with_active_vertical_leds (active_vertical_leds w')
           (with_active_hits (active_hits w') w) ∧
    (∀ cell color, (cell, color) ∈ hit_points →
       active_hits w' !! cell = Some (color, now + 100)) ∧
    (∀ cell, cell ∉ hit_points.*1 →
       active_hits w' !! cell = active_hits w !! cell) ∧
    (∀ cell color, (cell, color) ∈ vertical_points →
       active_vertical_leds w' !! cell = Some (color, now + 50)) ∧
    (∀ cell, cell ∉ vertical_points.*1 →
       active_vertical_leds w' !! cell = active_vertical_leds w !! cell).
Proof.
  intros Hh Hv. unfold start_fade_animation.
  rewrite (bind_ok _ _ _ _ _ (register_hits_run now hit_points w)).
  rewrite register_vertical_run. eexists. split; [reflexivity|]. simpl.
  destruct (registered_lookup (now + 100) hit_points (active_hits w) Hh).
  destruct (registered_lookup (now + 50) vertical_points
              (active_vertical_leds w) Hv).
  by repeat split.
Qed.

Lemma start_fade_animation_registers_witness :
  ∃ w',
    start_fade_animation 300 [((0, 0), (0, 0, 255))]
      [((1, 0), (0, 0, 255))] fading_world = (Ok tt, w') ∧
    active_hits w' !! (0, 0) = Some ((0, 0, 255), 400) ∧
    active_vertical_leds w' !! (1, 0) = Some ((0, 0, 255), 350).
Proof.
  destruct (start_fade_animation_registers 300 [((0, 0), (0, 0, 255))]
              [((1, 0), (0, 0, 255))] fading_world)
    as (w' & Hrun & _ & Hh & _ & Hv & _).
  - apply NoDup_singleton.
  - apply NoDup_singleton.
  - exists w'. split; [exact Hrun|]. split.
    + apply Hh. apply list_elem_of_singleton. reflexivity.
    + apply Hv. apply list_elem_of_singleton. reflexivity.
Defined.

(** X10. A tick of the registries never adds or changes an entry and
    never moves the clock; an entry whose hold delay has not passed is kept
    as it is and nothing is rendered for its cell. *)
Theorem tick_leaves_waiting_entries (w : world) :
  strips_ok w → cells_in_grid (active_hits w) →
  cells_in_grid (active_vertical_leds w) →
  ∃ w' new,
    process_active_points w = (Ok tt, w') ∧ calls w' = calls w ++ new ∧
    clock w' = clock w ∧
    (∀ cell entry, active_hits w' !! cell = Some entry →
                   active_hits w !! cell = Some entry) ∧
    (∀ cell entry, active_vertical_leds w' !! cell = Some entry →
                   active_vertical_leds w !! cell = Some entry) ∧
    (∀ cell color start,
       ticks_diff (clock w) start < 0 →
       (active_hits w !! cell = Some (color, start) →
        active_hits w' !! cell = Some (color, start) ∧
        rendered FadeHit cell new = []) ∧
       (active_vertical_leds w !! cell = Some (color, start) →
        active_vertical_leds w' !! cell = Some (color, start) ∧
        rendered FadeCompanion cell new = [])).
Proof.
  intros Hw Hh Hv. destruct (tick_ok w Hw Hh Hv) as (w' & Hrun & Ht).
  eexists w', _. split; [done|]. split; [apply (ticked_calls _ _ Ht)|].
  split; [apply (ticked_clock _ _ Ht)|].
  split; [|split].
  - intros cell entry. rewrite (ticked_hits _ _ Ht).
    by intros [? _]%map_lookup_filter_Some.
  - intros cell entry. rewrite (ticked_vertical _ _ Ht).
    by intros [? _]%map_lookup_filter_Some.
  - intros cell color start Hwait.
    assert (¬ faded_out (clock w) (color, start)) as Hnf.
    { intros Hf%fade_started_full. simpl in Hf. lia. }
    assert ((0 <=? ticks_diff (clock w) start) = false) as Hleb
      by (apply Z.leb_gt; lia).
    split; intros Hin.
    + rewrite (ticked_hits _ _ Ht), (survivors_lookup _ _ _ _ Hin).
      rewrite decide_False by done. split; [done|].
      rewrite rendered_app, (rendered_companion_other _ FadeHit) by by left.
      rewrite app_nil_r, (rendered_hit_entry _ cell (color, start));
        [|apply NoDup_fst_map_to_list|by apply elem_of_map_to_list].
      unfold render_hit. by rewrite Hleb.
    + rewrite (ticked_vertical _ _ Ht), (survivors_lookup _ _ _ _ Hin).
      rewrite decide_False by done. split; [done|].
      rewrite rendered_app, (rendered_hit_other _ FadeCompanion) by by left.
      rewrite app_nil_l, (rendered_companion_entry _ cell (color, start));
        [|apply NoDup_fst_map_to_list|by apply elem_of_map_to_list].
      unfold render_companion. by rewrite Hleb.
Qed.

Lemma tick_leaves_waiting_entries_witness :
  ∃ w' new,
    process_active_points (with_clock 50 fading_world) = (Ok tt, w') ∧
    calls w' = new ∧
    active_hits w' !! (0, 0) = Some ((255, 0, 0), 100) ∧
    rendered FadeHit (0, 0) new = [].
Proof.
  destruct (healthy_cells _ fading_world_healthy) as [Hh Hv].
  destruct (tick_leaves_waiting_entries (with_clock 50 fading_world))
    as (w' & new & Hrun & Hcalls & _ & _ & _ & Hwait).
  - split; reflexivity.
  - exact Hh.
  - exact Hv.
  - destruct (Hwait (0, 0) (255, 0, 0) 100) as [Hhit _].
    { unfold ticks_diff. simpl. lia. }
    destruct (Hhit eq_refl) as [Hkept Hnone].
    exists w', new. split; [exact Hrun|]. split; [exact Hcalls|].
    split; [exact Hkept|exact Hnone].
Defined.

(** ** The end of a hit effect *)

Lemma registries_ticked_end_by T w w' :
  registries_ticked w w' → fades_end_by T w → fades_end_by T w'.
Proof.
  intros [Eh Ev] [Hh Hv]. unfold fades_end_by. rewrite Eh, Ev.
  split; by apply survivors_Forall.
Qed.

Lemma registries_ticked_empty T w w' :
  registries_ticked w w' → fades_end_by T w → T ≤ clock w →
  active_hits w' = ∅ ∧ active_vertical_leds w' = ∅.
Proof.
  intros [Eh Ev] [Hh Hv] HT. rewrite Eh, Ev.
  split; by apply (survivors_all_faded _ T).
Qed.

Lemma registries_ticked_stay_empty w w' :
  registries_ticked w w' →
  active_hits w = ∅ → active_vertical_leds w = ∅ →
  active_hits w' = ∅ ∧ active_vertical_leds w' = ∅.
Proof.
  intros [Eh Ev] Hh Hv. rewrite Eh, Ev, Hh, Hv. unfold survivors.
  by rewrite !map_filter_empty.
Qed.

Lemma expansion_step_registries row col color step active_wave_pixels w :
  healthy w → in_grid (row, col) →
  1 ≤ step ≤ Z.max col (COLS - 1 - col) →
  Forall (λ p : Z * Z, in_grid (row, p.1)) active_wave_pixels →
  ∃ kept w',
    expansion_step row col color step active_wave_pixels w
      = (Ok (kept, false), w') ∧
    healthy w' ∧ clock w' = clock w + WAVE_LIGHT_SPREAD_DELAY ∧
    registries_ticked w w' ∧
    Forall (λ p : Z * Z, in_grid (row, p.1)) kept.
Proof.
  intros Hw [Hrow Hcol] Hstep Hawp. simpl in Hrow, Hcol.
  unfold expansion_step, ticks_ms.
  destruct (process_active_points_ok w Hw) as (w1 & Hrun1 & Ht).
  rewrite (bind_ok _ _ _ _ _ Hrun1). erewrite bind_ok by reflexivity.
  pose proof (ticked_healthy _ _ Ht Hw) as Hw1.
  destruct (light_ok (left_boundary <=? col - step) WaveLeft
              (row, col - step) color active_wave_pixels
              (col - step, clock w1 + WAVE_LIGHT_DURATION) w1)
    as (w2 & Hrun2 & Hst2 & Hc2); [apply Hw1| |].
  { intros ?%Z.leb_le. unfold in_grid, left_boundary, COLS in *. simpl. lia. }
  rewrite (bind_ok _ _ _ _ _ Hrun2).
  pose proof (steady_healthy _ _ Hst2 Hw1) as Hw2.
  match goal with
  | |- context [if col + step <=? right_boundary then _ else mret ?l] =>
      destruct (light_ok (col + step <=? right_boundary) WaveRight
                  (row, col + step) color l
                  (col + step, clock w1 + WAVE_LIGHT_DURATION) w2)
        as (w3 & Hrun3 & Hst3 & Hc3); [apply Hw2| |]
  end.
  { intros ?%Z.leb_le. unfold in_grid, right_boundary, COLS in *. simpl. lia. }
  rewrite (bind_ok _ _ _ _ _ Hrun3).
  pose proof (steady_healthy _ _ Hst3 Hw2) as Hw3.
  match goal with
  | |- context [age_wave_pixels WaveAge row ?now ?l] =>
      destruct (age_wave_pixels_ok WaveAge row now l w3 eq_refl)
        as (kept & w4 & Hrun4 & Hst4 & Htr4 & Hk); [apply Hw3| |]
  end.
  { unfold in_grid, left_boundary, right_boundary, COLS in *.
    destruct (Z.leb_spec 0 (col - step)), (Z.leb_spec (col + step) (15 - 1));
      rewrite ?Forall_app, ?Forall_singleton; simpl; repeat split;
      done || lia. }
  rewrite (bind_ok _ _ _ _ _ Hrun4).
  pose proof (steady_healthy _ _ Hst4 Hw3) as Hw4.
  erewrite bind_ok by reflexivity. erewrite bind_ok by reflexivity.
  erewrite bind_ok by reflexivity.
  exists kept. eexists. split.
  { unfold mret, M_ret. do 3 f_equal. unfold left_boundary, right_boundary, COLS.
    destruct (Z.ltb_spec (col - step) 0), (Z.ltb_spec (15 - 1) (col + step));
      simpl; try done. unfold COLS in Hstep. lia. }
  split; [|split; [|split; [|done]]].
  - apply healthy_sleep; [|done].
    eapply steady_healthy; [|exact Hw4].
    eapply steady_trans; apply steady_shown.
  - simpl. rewrite (steady_clock _ _ Hst4), (steady_clock _ _ Hst3),
      (steady_clock _ _ Hst2), (ticked_clock _ _ Ht). done.
  - split; simpl.
    + rewrite (steady_hits _ _ Hst4), (steady_hits _ _ Hst3),
        (steady_hits _ _ Hst2). apply (ticked_hits _ _ Ht).
    + rewrite (steady_vertical _ _ Hst4), (steady_vertical _ _ Hst3),
        (steady_vertical _ _ Hst2). apply (ticked_vertical _ _ Ht).
Qed.

Lemma expansion_loop_registries T row col color steps active_wave_pixels w :
  healthy w → in_grid (row, col) → fades_end_by T w →
  Forall (λ step, 1 ≤ step ≤ Z.max col (COLS - 1 - col)) steps →
  Forall (λ p : Z * Z, in_grid (row, p.1)) active_wave_pixels →
  ∃ kept w',
    expansion_loop row col color steps active_wave_pixels w = (Ok kept, w') ∧
    healthy w' ∧ fades_end_by T w' ∧
    clock w' = clock w + WAVE_LIGHT_SPREAD_DELAY * Z.of_nat (length steps) ∧
    Forall (λ p : Z * Z, in_grid (row, p.1)) kept.
Proof.
  intros Hw Hg HT Hsteps. revert active_wave_pixels w Hw HT.
  induction Hsteps as [|step steps Hstep Hsteps IH];
    intros active_wave_pixels w Hw HT Hawp.
  - exists active_wave_pixels, w. simpl. unfold WAVE_LIGHT_SPREAD_DELAY.
    split; [done|]. split; [done|]. split; [done|]. split; [lia|done].
  - destruct (expansion_step_registries row col color step
                active_wave_pixels w)
      as (kept1 & w1 & Hrun1 & Hw1 & Hc1 & Hr1 & Hk1); [done..|].
    destruct (IH kept1 w1 Hw1 (registries_ticked_end_by _ _ _ Hr1 HT) Hk1)
      as (kept & w' & Hrun & Hw' & HT' & Hc & Hk).
    exists kept, w'. cbn [expansion_loop]. rewrite (bind_ok _ _ _ _ _ Hrun1).
    split; [done|]. split; [done|]. split; [done|].
    split; [|done]. rewrite Hc, Hc1. cbn [length].
    unfold WAVE_LIGHT_SPREAD_DELAY. lia.
Qed.

Lemma reflection_step_registries row col color current_col
    active_wave_pixels w :
  healthy w → 0 ≤ row < ROWS → 0 ≤ current_col < COLS →
  Forall (λ p : Z * Z, in_grid (row, p.1)) active_wave_pixels →
  ∃ kept w',
    reflection_step row col color current_col active_wave_pixels w
      = (Ok kept, w') ∧
    healthy w' ∧ clock w' = clock w + WAVE_LIGHT_SPREAD_DELAY ∧
    registries_ticked w w' ∧
    Forall (λ p : Z * Z, in_grid (row, p.1)) kept.
Proof.
  intros Hw Hrow Hcol Hawp. unfold reflection_step, ticks_ms.
  destruct (process_active_points_ok w Hw) as (w1 & Hrun1 & Ht).
  rewrite (bind_ok _ _ _ _ _ Hrun1). erewrite bind_ok by reflexivity.
  pose proof (ticked_healthy _ _ Ht Hw) as Hw1.
  destruct (light_ok (negb (current_col =? col)) Reflect
              (row, current_col) color active_wave_pixels
              (current_col, clock w1 + WAVE_LIGHT_DURATION) w1)
    as (w2 & Hrun2 & Hst2 & Hc2); [apply Hw1|by intros _; split|].
  rewrite (bind_ok _ _ _ _ _ Hrun2).
  pose proof (steady_healthy _ _ Hst2 Hw1) as Hw2.
  match goal with
  | |- context [age_wave_pixels ReflectAge row ?now ?l] =>
      destruct (age_wave_pixels_ok ReflectAge row now l w2 eq_refl)
        as (kept & w3 & Hrun3 & Hst3 & Htr3 & Hk); [apply Hw2| |]
  end.
  { destruct (negb (current_col =? col)); [|done].
    apply Forall_app. split; [done|]. apply Forall_singleton. by split. }
  rewrite (bind_ok _ _ _ _ _ Hrun3).
  pose proof (steady_healthy _ _ Hst3 Hw2) as Hw3.
  erewrite bind_ok by reflexivity. erewrite bind_ok by reflexivity.
  erewrite bind_ok by reflexivity.
  exists kept. eexists. split; [reflexivity|].
  split; [|split; [|split; [|done]]].
  - apply healthy_sleep; [|done].
    eapply steady_healthy; [|exact Hw3].
    eapply steady_trans; apply steady_shown.
  - simpl. by rewrite (steady_clock _ _ Hst3), (steady_clock _ _ Hst2),
      (ticked_clock _ _ Ht).
  - split; simpl.
    + rewrite (steady_hits _ _ Hst3), (steady_hits _ _ Hst2).
      apply (ticked_hits _ _ Ht).
    + rewrite (steady_vertical _ _ Hst3), (steady_vertical _ _ Hst2).
      apply (ticked_vertical _ _ Ht).
Qed.

Lemma reflection_loop_registries T budget row col color current_col
    active_wave_pixels w :
  healthy w → 0 ≤ row < ROWS → 0 ≤ current_col < COLS →
  (Z.to_nat (current_col + 1) ≤ budget)%nat →
  Forall (λ p : Z * Z, in_grid (row, p.1)) active_wave_pixels →
  (fades_end_by T w ∧ T ≤ clock w) ∨
  (active_hits w = ∅ ∧ active_vertical_leds w = ∅) →
  ∃ kept w',
    reflection_loop budget row col color current_col active_wave_pixels w
      = (Ok kept, w') ∧
    healthy w' ∧ active_hits w' = ∅ ∧ active_vertical_leds w' = ∅.
Proof.
  intros Hw Hrow. revert current_col active_wave_pixels w Hw.
  induction budget as [|budget IH];
    intros current_col active_wave_pixels w Hw Hcol Hb Hawp Hregs;
    cbn [reflection_loop]; unfold left_boundary;
    destruct (Z.leb_spec 0 current_col) as [Hge|Hlt]; try lia.
  destruct (reflection_step_registries row col color current_col
              active_wave_pixels w)
    as (kept1 & w1 & Hrun1 & Hw1 & Hc1 & Hr1 & Hk1); [done..|].
  rewrite (bind_ok _ _ _ _ _ Hrun1).
  assert (active_hits w1 = ∅ ∧ active_vertical_leds w1 = ∅) as [Hh1 Hv1].
  { destruct Hregs as [[HT Hle]|[Hh Hv]].
    - by apply (registries_ticked_empty T w).
    - by apply (registries_ticked_stay_empty w). }
  destruct (decide (current_col = 0)) as [->|Hne].
  - exists kept1, w1. destruct budget; by cbn [reflection_loop].
  - destruct (IH (current_col - 1) kept1 w1 Hw1) as (kept & w' & Hrun & Hpost);
      [lia|lia|done|by right|].
    by exists kept, w'.
Qed.

Lemma set_pixel_black_dark from cell auto_write w :
  strips_ok w → in_grid cell →
  ∃ w', set_pixel from cell (0, 0, 0) 1 auto_write w = (Ok tt, w') ∧
        steady w w' ∧ dark w' cell ∧
        ∀ other, dark w other → dark w' other.
Proof.
  intros Hw Hg.
  destruct (set_pixel_pixels from cell (0, 0, 0) 1 auto_write w Hw Hg)
    as (w' & Hrun & Hst & Hcell & Hother).
  exists w'. split; [done|]. split; [done|].
  split; [exact Hcell|].
  intros other Hd p. destruct (decide (other = cell)) as [->|Hne].
  - apply Hcell.
  - rewrite (Hother _ Hne). apply Hd.
Qed.

Lemma row_clear_dark row col (cols : list Z) w :
  strips_ok w → 0 ≤ row < ROWS → Forall (λ c, 0 ≤ c < COLS) cols →
  ∃ w',
    for_each cols (λ (_ : unit) c,
      if negb (c =? col) then set_pixel RowClear (row, c) (0, 0, 0) 1 false
      else mret tt) tt w = (Ok tt, w') ∧
    steady w w' ∧
    ∀ c, c ≠ col → (c ∈ cols ∨ dark w (row, c)) → dark w' (row, c).
Proof.
  intros Hw Hrow Hcols. revert w Hw.
  induction Hcols as [|c0 cols Hc0 Hcols IH]; intros w Hw.
  - exists w. split; [done|]. split; [apply steady_refl|].
    intros c _ [[]%elem_of_nil|]. done.
  - cbn [for_each]. destruct (Z.eqb_spec c0 col) as [->|Hne]; cbn [negb].
    + erewrite bind_ok by reflexivity.
      destruct (IH w Hw) as (w' & Hrun & Hst & Hdark).
      exists w'. split; [done|]. split; [done|].
      intros c Hc [[->|Hin]%elem_of_cons|Hd]; [done|apply Hdark..]; auto.
    + destruct (set_pixel_black_dark RowClear (row, c0) false w Hw)
        as (w1 & Hrun1 & Hst1 & Hcell & Hkeep); [by split|].
      rewrite (bind_ok _ _ _ _ _ Hrun1).
      destruct (IH w1 (steady_strips_ok _ _ Hst1 Hw))
        as (w' & Hrun & Hst & Hdark).
      exists w'. split; [done|]. split; [by eapply steady_trans|].
      intros c Hc [[->|Hin]%elem_of_cons|Hd]; apply Hdark; auto.
Qed.

Lemma healthy_fades_end_by w :
  healthy w → fades_end_by (clock w + 500) w.
Proof.
  intros [_ Hh Hv].
  split; intros cell entry E; [apply Hh in E|apply Hv in E];
    destruct E; simpl in *; unfold FADE_STEPS, FADE_INTERVAL; lia.
Qed.

(** X11. A hit inside the grid, shown from a healthy state, leaves nothing
    behind: when [display_hit_effect] returns, both fade registries are
    empty (every fade pending before the call and the two it scheduled
    itself have run out during the wave), every cell of the hit's row other
    than the hit's own is dark, and the wire shows the buffers. *)
Theorem hit_effect_leaves_nothing_pending (row col : Z) (color : rgb)
    (w : world) :
  healthy w → in_grid (row, col) →
  ∃ w', display_hit_effect row col color w = (Ok tt, w') ∧
        active_hits w' = ∅ ∧ active_vertical_leds w' = ∅ ∧
        (∀ c, 0 ≤ c < COLS → c ≠ col → dark w' (row, c)) ∧
        shownA w' = stripA w' ∧ shownB w' = stripB w'.
Proof.
  intros Hw Hg. pose proof Hg as [Hrow Hcol]. simpl in Hrow, Hcol.
  unfold display_hit_effect, ticks_ms.
  erewrite bind_ok by reflexivity.
  set (w0 := with_calls _ w).
  assert (healthy w0) as Hw0 by (eapply steady_healthy; [|exact Hw]; by split).
  destruct (scan_above_spec (Z.to_nat (row - 1 + 1)) (row - 1) col color w0
              (le_n _)) as (ra & Ha & Hra & Haok).
  destruct Haok as [above ->]; [lia|done|].
  rewrite (bind_ok _ _ _ _ _ Ha).
  destruct (scan_below_spec (Z.to_nat (ROWS - (row + 1))) (row + 1) col color
              w0 (le_n _)) as (rb & Hb & Hrb & Hbok).
  destruct Hbok as [below ->]; [lia|done|].
  rewrite (bind_ok _ _ _ _ _ Hb).
  assert (Forall (λ p : Z * Z * rgb, in_grid p.1) (above ++ below)) as Hvert.
  { apply Forall_app. split; by eapply scan_result_in_grid. }
  destruct (set_pixel_ok HitPoint (row, col) color HIT_POINT_BRIGHTNESS_BOOST
              true w0 Hg (healthy_strips _ Hw0))
    as (w1 & Hrun1 & Hst1 & _).
  rewrite (bind_ok _ _ _ _ _ Hrun1).
  pose proof (steady_healthy _ _ Hst1 Hw0) as Hw1.
  match goal with
  | |- context [for_each (above ++ below) ?body tt] =>
      destruct (for_each_steady body (λ _ _, tt)
                  (λ p, [Call_set_pixel Companion p.1 p.2])
                  (λ p, in_grid p.1) (above ++ below) tt w1)
        as (w2 & Hrun2 & Hst2 & _); [|apply Hw1|exact Hvert|]
  end.
  { intros [] [[vr vc] k] w' Hs Hin. simpl in *.
    by apply set_pixel_ok. }
  rewrite (bind_ok _ _ _ _ _ Hrun2).
  pose proof (steady_healthy _ _ Hst2 Hw1) as Hw2.
  erewrite bind_ok by reflexivity.
  destruct (start_fade_animation_ok (clock w2) [(row, col, color)]
              (above ++ below) w2 Hw2) as (w3 & Hrun3 & Hw3 & Hk3 & _);
    [lia|by apply Forall_singleton|done|].
  rewrite (bind_ok _ _ _ _ _ Hrun3).
  (* every fade is over 500 ms from now; the expansion alone takes longer *)
  replace (Z.max (right_boundary - col) (col - left_boundary))
    with (Z.max col (COLS - 1 - col))
    by (unfold right_boundary, left_boundary; lia).
  destruct (expansion_loop_registries (clock w3 + 500) row col color
              (seqZ 1 (Z.max col (COLS - 1 - col))) [] w3 Hw3 Hg
              (healthy_fades_end_by _ Hw3))
    as (awp1 & w4 & Hrun4 & Hw4 & HT4 & Hk4 & Hawp1); [|done|].
  { apply Forall_seqZ. intros step ?. lia. }
  rewrite (bind_ok _ _ _ _ _ Hrun4).
  rewrite length_seqZ in Hk4.
  destruct (reflection_loop_registries (clock w3 + 500)
              (Z.to_nat (right_boundary - left_boundary + 1)) row col color
              right_boundary awp1 w4 Hw4 Hrow)
    as (awp2 & w5 & Hrun5 & Hw5 & Hh5 & Hv5);
    [unfold right_boundary, COLS; lia
    |unfold right_boundary, left_boundary; lia|done| |].
  { left. split; [done|].
    unfold WAVE_LIGHT_SPREAD_DELAY, COLS in *. lia. }
  rewrite (bind_ok _ _ _ _ _ Hrun5).
  (* the row is cleared and committed *)
  destruct (row_clear_dark row col (seqZ 0 COLS) w5 (healthy_strips _ Hw5)
              Hrow) as (w6 & Hrun6 & Hst6 & Hdark).
  { apply Forall_seqZ. intros c ?. lia. }
  rewrite (bind_ok _ _ _ _ _ Hrun6).
  erewrite bind_ok by reflexivity.
  eexists. split; [reflexivity|]. simpl.
  split; [by rewrite (steady_hits _ _ Hst6)|].
  split; [by rewrite (steady_vertical _ _ Hst6)|].
  split; [|done].
  intros c Hc Hne p. 
  assert (dark w6 (row, c)) as Hd.
  { apply Hdark; [done|]. left. apply elem_of_seqZ. lia. }
  intros Hp. apply Hd. revert Hp. unfold pixel_at.
  by destruct (grid_to_led (row, c)) as [[[[] i]|]|e|].
Qed.

Lemma hit_effect_leaves_nothing_pending_witness :
  ∃ w', display_hit_effect 4 6 (0, 0, 255) fading_world = (Ok tt, w') ∧
        active_hits w' = ∅ ∧ active_vertical_leds w' = ∅ ∧
        (∀ c, 0 ≤ c < COLS → c ≠ 6 → dark w' (4, c)) ∧
        shownA w' = stripA w' ∧ shownB w' = stripB w'.
Proof.
  apply (hit_effect_leaves_nothing_pending 4 6 (0, 0, 255) fading_world).
  - apply fading_world_healthy.
  - unfold in_grid, ROWS, COLS. simpl. lia.
Defined.

(** ** The schedule of the show *)

Lemma preprocess_hit_same_but_time min_delay max_delay acc (h h' : hit) :
  same_but_time h h' →
  preprocess_hit min_delay max_delay acc h
  = preprocess_hit min_delay max_delay acc h'.
Proof.
  unfold same_but_time. intros Ht. destruct acc as [processed_hits t].
  by destruct h as [|x h], h' as [|x' h']; simpl in Ht; subst.
Qed.

(** X12. The show does not look at the time stamps of the data: two hit
    lists that agree, record by record, on everything after the first
    field give the same run of [play_visualization] -- same outcome, same
    final state -- from every state and with every iteration budget. *)
Theorem time_stamps_are_ignored (hits hits' : list hit) (is_in_corner : bool)
    (fuel : nat) (w : world) :
  Forall2 same_but_time hits hits' →
  play_visualization fuel hits is_in_corner w
  = play_visualization fuel hits' is_in_corner w.
Proof.
  intros H.
  assert (∀ acc w0,
    for_each hits
      (preprocess_hit (profile is_in_corner).1 (profile is_in_corner).2)
      acc w0
    = for_each hits'
        (preprocess_hit (profile is_in_corner).1 (profile is_in_corner).2)
        acc w0) as Hpre.
  { induction H as [|h h' hits hits' Hh _ IH]; intros acc w0; [done|].
    cbn [for_each]. unfold mbind, M_bind.
    rewrite (preprocess_hit_same_but_time _ _ acc h h' Hh).
    destruct (preprocess_hit _ _ acc h' w0) as [[acc'| |] w1]; [apply IH|done..]. }
  destruct H as [|h h' hits hits' Hh Hrest]; [done|].
  rewrite !play_visualization_unfold by done.
  unfold mbind, M_bind. rewrite Hpre. done.
Qed.

Lemma time_stamps_are_ignored_witness :
  play_visualization 40
    [[FNum 0; FNum 2; FNum 3; FColor (255, 0, 0)]; [FNum 7]] true fresh_world
  = play_visualization 40
      [[FNull; FNum 2; FNum 3; FColor (255, 0, 0)]; []] true fresh_world.
Proof.
  apply (time_stamps_are_ignored
           [[FNum 0; FNum 2; FNum 3; FColor (255, 0, 0)]; [FNum 7]]
           [[FNull; FNum 2; FNum 3; FColor (255, 0, 0)]; []] true 40
           fresh_world).
  repeat constructor.
Defined.

Lemma delay_ms_range (rand : nat → Q) (min_delay max_delay : Z) (k : nat) :
  min_delay ≤ max_delay → (0 <= rand k <= 1)%Q →
  (inject_Z min_delay * inject_Z 1000
   <= delay_ms rand min_delay max_delay k
   <= inject_Z max_delay * inject_Z 1000)%Q.
Proof.
  intros Hle [H0 H1]. unfold delay_ms.
  rewrite Zle_Qle in Hle.
  set (a := inject_Z min_delay) in *. set (b := inject_Z max_delay) in *.
  set (r := rand k) in *. clearbody a b r.
  assert (0 <= (b - a) * r)%Q as Hlo by (apply Qmult_le_0_compat; lra).
  assert (0 <= (b - a) * (1 - r))%Q as Hhi by (apply Qmult_le_0_compat; lra).
  change (inject_Z 1000) with (1000 # 1)%Q. split; lra.
Qed.

Lemma schedule_scheduled (delay : nat → Q) (lo hi : Q) (hits : list hit) :
  (0 <= lo)%Q → (∀ k, lo <= delay k <= hi)%Q →
  ∀ n j due,
    (inject_Z j * lo <= due)%Q → (due <= inject_Z j * hi)%Q →
    scheduled lo hi (j + 1) due (synthetic_schedule delay n due hits).
Proof.
  intros Hlo Hd. induction hits as [|h hits IH]; intros n j due Hl Hh; [done|].
  destruct h as [|a [|b [|c [|d [|e t]]]]]; simpl; try by apply IH.
  specialize (Hd n). rewrite inject_Z_plus. change (inject_Z 1) with 1%Q.
  assert (inject_Z (j + 1) == inject_Z j + 1)%Q as Hj
    by (by rewrite inject_Z_plus).
  split; [lra|]. split; [lra|]. split; [lra|].
  apply IH; rewrite Hj; lra.
Qed.

(** X13. The due times the show gives to the hits it keeps follow the
    order of the list and the delay bounds: when no record has more than
    four fields, the random source stays in [0, 1] and
    [0 <= min_delay <= max_delay], the preprocessing loop returns a list
    whose due times never decrease and in which the k-th kept hit is due
    between [k * min_delay * 1000] and [k * max_delay * 1000] ms after the
    start. *)
Theorem due_times_follow_the_delay_bounds (min_delay max_delay : Z)
    (hits : list hit) (w : world) :
  Forall (λ h : hit, (length h ≤ 4)%nat) hits →
  0 ≤ min_delay → min_delay ≤ max_delay →
  (∀ k, 0 <= entropy w k <= 1)%Q →
  ∃ processed_hits total w',
    for_each hits (preprocess_hit min_delay max_delay) ([], 0%Q) w
      = (Ok (processed_hits, total), w') ∧
    scheduled (inject_Z min_delay * inject_Z 1000)
      (inject_Z max_delay * inject_Z 1000) 1 0 processed_hits.
Proof.
  intros Hhits H0 Hle Hrand.
  destruct (preprocess_ok min_delay max_delay hits [] 0%Q w Hhits)
    as [total Hpre].
  eexists _, total, _. split; [exact Hpre|]. simpl.
  assert (0 <= inject_Z min_delay * inject_Z 1000)%Q as Hlo
    by (apply Qmult_le_0_compat; [by apply inject_Z_nonneg|done]).
  apply (schedule_scheduled _ _ _ hits Hlo
           (λ k, delay_ms_range _ _ _ k Hle (Hrand k)) (draws w) 0);
    change (inject_Z 0) with 0%Q; lra.
Qed.

Lemma due_times_follow_the_delay_bounds_witness :
  ∃ processed_hits total w',
    for_each [[FNum 0; FNum 2; FNum 3; FColor (255, 0, 0)]; [FNum 1];
              [FNum 9; FNum 4; FNum 4; FNull]]
      (preprocess_hit 5 10) ([], 0%Q) (boot (λ k, 1 # Pos.of_succ_nat k))
      = (Ok (processed_hits, total), w') ∧
    scheduled (inject_Z 5 * inject_Z 1000) (inject_Z 10 * inject_Z 1000) 1 0
      processed_hits.
Proof.
  apply (due_times_follow_the_delay_bounds 5 10
           [[FNum 0; FNum 2; FNum 3; FColor (255, 0, 0)]; [FNum 1];
            [FNum 9; FNum 4; FNum 4; FNull]]
           (boot (λ k, 1 # Pos.of_succ_nat k))).
  - repeat constructor.
  - lia.
  - lia.
  - intros k. simpl. unfold Qle. simpl. lia.
Defined.

Lemma preprocess_short min_delay max_delay (hits : list hit) acc w :
  Forall (λ h : hit, (length h < 4)%nat) hits →
  for_each hits (preprocess_hit min_delay max_delay) acc w = (Ok acc, w).
Proof.
  intros H. induction H as [|h hits Hh _ IH]; [done|].
  cbn [for_each]. unfold mbind, M_bind.
  replace (preprocess_hit min_delay max_delay acc h w) with (Ok acc, w);
    [exact IH|].
  destruct acc as [processed_hits t]. unfold preprocess_hit.
  destruct (Z.ltb_spec (Z.of_nat (length h)) 4); [done|lia].
Qed.

(** X14. A list that is not empty but holds only records with fewer than
    four fields is played as one reset and one clearing: with every
    iteration budget, zero included, [play_visualization] returns, the
    grid is dark, the registries are empty, and no delay has been drawn,
    no time has passed and no pixel call has been made.  (The empty list,
    in contrast, returns before the clearing.) *)
Theorem show_of_short_records_only_clears (hits : list hit)
    (is_in_corner : bool) (fuel : nat) (w : world) :
  hits ≠ [] → Forall (λ h : hit, (length h < 4)%nat) hits →
  play_visualization fuel hits is_in_corner w = clear (reset_registries w) ∧
  ∃ w', play_visualization fuel hits is_in_corner w = (Ok tt, w') ∧
        all_dark w' ∧ active_hits w' = ∅ ∧ active_vertical_leds w' = ∅ ∧
        draws w' = draws w ∧ clock w' = clock w ∧ calls w' = calls w.
Proof.
  intros Hne Hshort.
  assert (play_visualization fuel hits is_in_corner w
          = clear (reset_registries w)) as Hrun.
  { rewrite play_visualization_unfold by done.
    unfold mbind at 1, M_bind at 1.
    rewrite (preprocess_short _ _ hits _ _ Hshort).
    unfold ticks_ms. erewrite bind_ok by reflexivity.
    erewrite bind_ok; [reflexivity|].
    by destruct fuel. }
  split; [exact Hrun|]. rewrite Hrun. unfold clear. rewrite fill_black.
  eexists. split; [reflexivity|].
  split; [by eapply clear_dark; unfold clear; rewrite fill_black|done].
Qed.

Lemma show_of_short_records_only_clears_witness :
  play_visualization 0 [[FNum 0; FNum 1; FNum 1]; []] false lit_world
    = clear (reset_registries lit_world) ∧
  ∃ w', play_visualization 0 [[FNum 0; FNum 1; FNum 1]; []] false lit_world
          = (Ok tt, w') ∧
        all_dark w' ∧ active_hits w' = ∅ ∧ active_vertical_leds w' = ∅ ∧
        draws w' = draws lit_world ∧ clock w' = clock lit_world ∧
        calls w' = calls lit_world.
Proof.
  apply (show_of_short_records_only_clears [[FNum 0; FNum 1; FNum 1]; []]
           false 0 lit_world).
  - discriminate.
  - repeat constructor.
Defined.

(** ** The script *)

Lemma run_clear w :
  ∃ w', run clear w = (Finished, w') ∧ all_dark w' ∧
        (strips_ok w → strips_ok w') ∧
        active_hits w' = active_hits w ∧
        active_vertical_leds w' = active_vertical_leds w ∧
        draws w' = draws w ∧ clock w' = clock w ∧ calls w' = calls w.
Proof.
  unfold run. destruct (clear w) as [r w'] eqn:Hclear.
  pose proof Hclear as Hc. unfold clear in Hc. rewrite fill_black in Hc.
  injection Hc as <- <-. eexists. split; [reflexivity|].
  split; [by eapply clear_dark|]. split; [|done].
  intros [HA HB]. split; simpl; by rewrite length_replicate.
Qed.

Lemma try_finally_clear (body : script) w how w' :
  try_finally body (run clear) w = (how, w') →
  how ≠ Unfinished → all_dark w'.
Proof.
  unfold try_finally.
  destruct (body w) as [[|e|] w1]; [| |by intros [= <- <-]];
    destruct (run_clear w1) as (w2 & -> & Hdark & _);
    by intros [= <- <-].
Qed.

Lemma play_visualization_returns (hits : list hit) is_in_corner w :
  strips_ok w → Forall playable hits →
  ∃ fuel w', play_visualization fuel hits is_in_corner w = (Ok tt, w').
Proof.
  intros Hw Hhits. destruct (decide (hits = [])) as [->|Hne].
  { by exists 0%nat, (reset_registries w). }
  destruct (preprocess_ok (profile is_in_corner).1 (profile is_in_corner).2
              hits [] 0%Q (reset_registries w) (playable_fields _ Hhits))
    as [total Hpre].
  set (schedule := synthetic_schedule _ _ _ _) in Hpre.
  set (w1 := with_draws _ _) in Hpre.
  assert (healthy w1) as Hw1.
  { split; [done| |]; apply map_Forall_empty. }
  destruct (show_loop_total (clock w1) schedule
              (schedule_dispatchable _ _ _ _ Hhits) (length schedule) 0 w1)
    as (fuel & w2 & Hloop & _); [lia|done|].
  exists fuel. eexists. rewrite play_visualization_unfold by done.
  rewrite (bind_ok _ _ _ _ _ Hpre). erewrite bind_ok by reflexivity.
  rewrite (bind_ok _ _ _ _ _ Hloop). unfold clear. by rewrite fill_black.
Qed.

(** X15. Without a file [hits.json] on the flash the script still clears
    the grid: with every iteration budget it ends in [OSError], raised by
    [play_hits] before any hit is read, and the [finally] clause has
    cleared the grid by then; nothing else of the state has changed. *)
Theorem missing_file_ends_in_oserror_after_clearing (files : flash)
    (fuel : nat) (w : world) :
  files !! "hits.json" = None →
  ∃ w', main files fuel w = (Failed OSError, w') ∧ all_dark w' ∧
        active_hits w' = active_hits w ∧
        active_vertical_leds w' = active_vertical_leds w ∧
        draws w' = draws w ∧ clock w' = clock w ∧ calls w' = calls w.
Proof.
  intros Hnone. unfold main, try_finally, and_then, play_hits.
  destruct (run_clear w) as (w1 & -> & _ & _ & Hh1 & Hv1 & Hd1 & Hk1 & Hc1).
  rewrite Hnone.
  destruct (run_clear w1) as (w2 & -> & Hdark & _ & Hh2 & Hv2 & Hd2 & Hk2 & Hc2).
  exists w2. split; [done|]. split; [done|].
  repeat split; congruence.
Qed.

Lemma missing_file_ends_in_oserror_after_clearing_witness :
  ∃ w', main {[ "hits.csv" := [] ]} 0 lit_world = (Failed OSError, w') ∧
        all_dark w' ∧
        active_hits w' = active_hits lit_world ∧
        active_vertical_leds w' = active_vertical_leds lit_world ∧
        draws w' = draws lit_world ∧ clock w' = clock lit_world ∧
        calls w' = calls lit_world.
Proof.
  apply (missing_file_ends_in_oserror_after_clearing
           {[ "hits.csv" := [] ]} 0 lit_world).
  reflexivity.
Defined.

(** X16. However the script leaves -- at its end, with [OSError], or with
    an exception that escaped from the show, such as the [ValueError] of a
    hit outside the grid -- the grid is dark when it does: the [finally]
    clause has cleared it.  And it does leave at its end, with some
    iteration budget, when the strips have their configured sizes and
    [hits.json] holds playable records. *)
Theorem script_leaves_grid_dark (files : flash) (w : world) :
  (∀ fuel how w',
     main files fuel w = (how, w') → how ≠ Unfinished → all_dark w') ∧
  (∀ hits,
     strips_ok w → files !! "hits.json" = Some hits → Forall playable hits →
     ∃ fuel w', main files fuel w = (Finished, w') ∧ all_dark w').
Proof.
  split.
  - intros fuel how w'. apply try_finally_clear.
  - intros hits Hw Hfile Hhits.
    destruct (run_clear w) as (w1 & Hrun1 & _ & Hw1 & _).
    destruct (play_visualization_returns hits true w1 (Hw1 Hw) Hhits)
      as (fuel & w2 & Hrun2).
    destruct (run_clear w2) as (w3 & Hrun3 & Hdark & _).
    exists fuel, w3. split; [|done].
    unfold main, try_finally, and_then, play_hits.
    rewrite Hrun1, Hfile. unfold run at 1. rewrite Hrun2. by rewrite Hrun3.
Qed.

Lemma script_leaves_grid_dark_witness :
  ∃ w', main {[ "hits.json" := [] ]} 0 lit_world = (Finished, w') ∧
        all_dark w' ∧
        ∃ fuel w'', main {[ "hits.json" := [] ]} fuel lit_world
                      = (Finished, w'') ∧ all_dark w''.
Proof.
  destruct (script_leaves_grid_dark {[ "hits.json" := [] ]} lit_world)
    as [Hany Hends].
  eexists. split; [reflexivity|]. split.
  - apply (Hany 0%nat Finished); [reflexivity|discriminate].
  - apply (Hends []); [split; reflexivity|reflexivity|constructor].
Defined.

(** ** The heat map *)

Lemma zeros_shaped : grid_shaped (zeros ROWS COLS).
Proof.
  split; [apply length_replicate|].
  apply Forall_forall. intros cells [-> _]%elem_of_replicate.
  apply length_replicate.
Qed.

Lemma cell_count_zeros row col :
  in_grid (row, col) → cell_count (zeros ROWS COLS) row col = Some 0.
Proof.
  intros [Hr Hc]. simpl in Hr, Hc. unfold cell_count, zeros.
  rewrite lookup_replicate_2 by (unfold ROWS in *; lia).
  unfold mbind, option_bind. apply lookup_replicate_2. unfold COLS in *. lia.
Qed.

Lemma count_hit_ok heatmap_grid (h : hit) :
  grid_shaped heatmap_grid → countable_hit h →
  ∃ heatmap_grid',
    count_hit heatmap_grid h = Ok heatmap_grid' ∧
    grid_shaped heatmap_grid' ∧
    ∀ row col, in_grid (row, col) →
      cell_count heatmap_grid' row col
      = (λ n, n + (if lands_on row col h then 1 else 0))
          <$> cell_count heatmap_grid row col.
Proof.
  intros [Hlen Hrows] Hh.
  assert (∀ grid' : list (list Z), grid' = heatmap_grid →
          ∀ row col, lands_on row col h = false →
            cell_count grid' row col
            = (λ n, n + (if lands_on row col h then 1 else 0))
                <$> cell_count heatmap_grid row col) as Hsame.
  { intros ? -> row col ->. destruct (cell_count _ _ _); simpl; f_equal; lia. }
  destruct h as [|t [|[r| |] [|col0 [|rgb0 [|]]]]]; try done.
  cbn [count_hit]. simpl in Hh.
  destruct (decide (0 ≤ r < ROWS)) as [Hr|Hr].
  2: { rewrite bool_decide_false by done. eexists. split; [done|].
       split; [done|]. intros row col [Hrow _]. apply Hsame; [done|].
       simpl in *. destruct col0; try done.
       apply bool_decide_false. intros [-> _]. done. }
  rewrite bool_decide_true by done. destruct (Hh Hr) as [c ->].
  destruct (decide (0 ≤ c < COLS)) as [Hc|Hc].
  2: { rewrite bool_decide_false by done. eexists. split; [done|].
       split; [done|]. intros row col [_ Hcol]. apply Hsame; [done|].
       simpl in *. apply bool_decide_false. intros [_ ->]. done. }
  rewrite bool_decide_true by done. eexists. split; [done|]. split.
  { split; [by rewrite length_alter|].
    apply Forall_forall. intros cells Hin.
    apply list_elem_of_lookup in Hin as [i Hi].
    rewrite list_lookup_alter in Hi.
    destruct (decide (Z.to_nat r = i)) as [<-|Hne].
    - destruct (heatmap_grid !! Z.to_nat r) as [cells0|] eqn:E; [|done].
      simpl in Hi. injection Hi as <-. rewrite length_alter.
      by apply (Forall_lookup_1 _ _ _ _ Hrows E).
    - by apply (Forall_lookup_1 _ _ _ _ Hrows Hi). }
  intros row col [Hrow Hcol]. simpl in Hrow, Hcol. unfold cell_count, lands_on.
  rewrite list_lookup_alter.
  destruct (decide (Z.to_nat r = Z.to_nat row)) as [Er|Er].
  - assert (r = row) as -> by lia.
    destruct (heatmap_grid !! Z.to_nat row) as [cells|]; [|done]. simpl.
    rewrite list_lookup_alter.
    destruct (decide (Z.to_nat c = Z.to_nat col)) as [Ec|Ec].
    + assert (c = col) as -> by lia. by rewrite bool_decide_true.
    + rewrite bool_decide_false by (intros [_ ->]; done).
      destruct (cells !! Z.to_nat col); simpl; f_equal; lia.
  - rewrite bool_decide_false by (intros [-> _]; done).
    destruct (heatmap_grid !! Z.to_nat row ≫= _); simpl; f_equal; lia.
Qed.

Lemma count_hits_ok (hits : list hit) :
  Forall countable_hit hits →
  ∀ heatmap_grid, grid_shaped heatmap_grid →
  ∃ heatmap_grid',
    count_hits heatmap_grid hits = Ok heatmap_grid' ∧
    grid_shaped heatmap_grid' ∧
    ∀ row col, in_grid (row, col) →
      cell_count heatmap_grid' row col
      = (λ n, n + hits_at row col hits) <$> cell_count heatmap_grid row col.
Proof.
  induction 1 as [|h hits Hh _ IH]; intros heatmap_grid Hshape.
  - exists heatmap_grid. split; [done|]. split; [done|].
    intros row col _. unfold hits_at. simpl.
    destruct (cell_count _ _ _); simpl; f_equal; lia.
  - destruct (count_hit_ok _ _ Hshape Hh) as (grid1 & Hrun1 & Hshape1 & Hc1).
    destruct (IH grid1 Hshape1) as (grid2 & Hrun2 & Hshape2 & Hc2).
    exists grid2. cbn [count_hits]. rewrite Hrun1. split; [done|].
    split; [done|]. intros row col Hg. rewrite Hc2, Hc1 by done.
    unfold hits_at.
    destruct (cell_count heatmap_grid row col); [|done]. simpl. f_equal.
    destruct (lands_on row col h) eqn:E.
    + rewrite filter_cons_True by done. cbn [length]. lia.
    + rewrite filter_cons_False by (by rewrite E). lia.
Qed.

(** X17. On records that are well formed, [create_heatmap_data] returns a
    grid of [ROWS] by [COLS] cells whose cell [(row, col)] holds the number
    of records that name that cell; records that name a cell outside the
    grid are counted nowhere and raise nothing. *)
Theorem heatmap_counts_the_hits_of_each_cell (hits : list hit) :
  Forall countable_hit hits →
  ∃ heatmap_grid,
    create_heatmap_data hits = Ok heatmap_grid ∧
    grid_shaped heatmap_grid ∧
    ∀ row col, in_grid (row, col) →
      cell_count heatmap_grid row col = Some (hits_at row col hits).
Proof.
  intros Hhits.
  destruct (count_hits_ok hits Hhits _ zeros_shaped)
    as (heatmap_grid & Hrun & Hshape & Hcount).
  exists heatmap_grid. split; [done|]. split; [done|].
  intros row col Hg. rewrite Hcount by done.
  by rewrite cell_count_zeros.
Qed.

Lemma heatmap_counts_the_hits_of_each_cell_witness :
  ∃ heatmap_grid,
    create_heatmap_data
      [[FNum 0; FNum 2; FNum 3; FNull]; [FNum 1; FNum 16; FNull; FNull];
       [FNull; FNum 2; FNum 3; FColor (0, 0, 255)];
       [FNum 5; FNum 2; FNum 15; FNull]] = Ok heatmap_grid ∧
    cell_count heatmap_grid 2 3 = Some 2 ∧
    cell_count heatmap_grid 15 14 = Some 0.
Proof.
  destruct (heatmap_counts_the_hits_of_each_cell
              [[FNum 0; FNum 2; FNum 3; FNull]; [FNum 1; FNum 16; FNull; FNull];
               [FNull; FNum 2; FNum 3; FColor (0, 0, 255)];
               [FNum 5; FNum 2; FNum 15; FNull]])
    as (heatmap_grid & Hrun & _ & Hcount).
  - repeat constructor; simpl; unfold ROWS; try lia; by eexists.
  - exists heatmap_grid. split; [exact Hrun|].
    split; apply Hcount; unfold in_grid, ROWS, COLS; simpl; lia.
Defined.

Lemma count_hits_app heatmap_grid (before after : list hit) :
  count_hits heatmap_grid (before ++ after)
  = match count_hits heatmap_grid before with
    | Ok heatmap_grid' => count_hits heatmap_grid' after
    | stopped => stopped
    end.
Proof.
  revert heatmap_grid. induction before as [|h before IH];
    intros heatmap_grid; [done|].
  cbn [app count_hits]. by destruct (count_hit heatmap_grid h).
Qed.

(** X18. A record with fewer than four fields stops
    [create_heatmap_data] with [ValueError], while the show on the LED grid
    skips it: the same file can play on the grid and fail in the heat
    map. *)
Theorem heatmap_rejects_what_the_show_skips (before after : list hit)
    (h : hit) (min_delay max_delay : Z) (acc : list processed_hit * Q)
    (w : world) :
  Forall countable_hit before → (length h < 4)%nat →
  create_heatmap_data (before ++ h :: after) = Raise ValueError ∧
  preprocess_hit min_delay max_delay acc h w = (Ok acc, w).
Proof.
  intros Hbefore Hshort. split.
  - unfold create_heatmap_data. rewrite count_hits_app.
    destruct (count_hits_ok before Hbefore _ zeros_shaped)
      as (heatmap_grid & -> & _).
    cbn [count_hits].
    destruct h as [|a [|b [|c [|d [|e t]]]]]; try done; simpl in Hshort; lia.
  - destruct acc as [processed_hits t]. unfold preprocess_hit.
    destruct (Z.ltb_spec (Z.of_nat (length h)) 4); [done|lia].
Qed.

Lemma heatmap_rejects_what_the_show_skips_witness :
  create_heatmap_data
    ([[FNum 0; FNum 2; FNum 3; FNull]] ++ [FNum 1; FNum 4; FNum 4] :: [])
    = Raise ValueError ∧
  preprocess_hit 2 5 ([], 0%Q) [FNum 1; FNum 4; FNum 4] fresh_world
    = (Ok ([], 0%Q), fresh_world).
Proof.
  apply (heatmap_rejects_what_the_show_skips
           [[FNum 0; FNum 2; FNum 3; FNull]] [] [FNum 1; FNum 4; FNum 4]
           2 5 ([], 0%Q) fresh_world).
  - repeat constructor; simpl; by eexists.
  - simpl. lia.
Defined.

(** ** The preprocessing of the detector data *)

Lemma py_round_range (x : Q) (n : Z) :
  (0 <= x <= inject_Z n)%Q → 0 ≤ py_round x ≤ n.
Proof.
  intros [H0 Hn]. unfold py_round.
  pose proof (Qfloor_le x) as Hlo. pose proof (Qlt_floor x) as Hhi.
  pose proof (Qfloor_resp_le _ _ H0) as Hf0. change (Qfloor 0) with 0 in Hf0.
  pose proof (Qfloor_resp_le _ _ Hn) as Hfn. rewrite Qfloor_Z in Hfn.
  set (below := Qfloor x) in *. clearbody below.
  assert ((1 # 2 <= x - inject_Z below)%Q → below + 1 ≤ n) as Hup.
  { intros Hhalf. destruct (decide (below = n)) as [->|]; [lra|lia]. }
  destruct (x - inject_Z below ?= 1 # 2)%Q eqn:E.
  - apply Qeq_alt in E. destruct (Z.even below); [lia|].
    split; [lia|]. apply Hup. rewrite E. lra.
  - lia.
  - apply Qgt_alt in E. split; [lia|]. apply Hup. lra.
Qed.

Lemma bucket_range (v vmin vmax : Q) (cells col : Z) :
  1 ≤ cells → (vmin <= v <= vmax)%Q →
  bucket v vmin vmax cells = Some col → 0 ≤ col < cells.
Proof.
  intros Hcells [Hlo Hhi]. unfold bucket.
  destruct (Qeq_bool vmax vmin) eqn:E; [done|]. intros [= <-].
  apply Qeq_bool_neq in E.
  assert (0 < vmax - vmin)%Q as Hpos.
  { destruct (Qlt_le_dec vmin vmax) as [?|Hle]; [lra|].
    exfalso. apply E. lra. }
  assert (0 <= (v - vmin) / (vmax - vmin) <= 1)%Q as [Hr0 Hr1].
  { split.
    - apply Qle_shift_div_l; [done|]. lra.
    - apply Qle_shift_div_r; [done|]. lra. }
  set (ratio := ((v - vmin) / (vmax - vmin))%Q) in *. clearbody ratio.
  assert (0 <= inject_Z (cells - 1))%Q as Hn.
  { change 0%Q with (inject_Z 0). rewrite <- Zle_Qle. lia. }
  enough (0 ≤ py_round (ratio * inject_Z (cells - 1)) ≤ cells - 1) by lia.
  apply py_round_range. split.
  - by apply Qmult_le_0_compat.
  - rewrite <- (Qmult_1_l (inject_Z (cells - 1))) at 2.
    by apply Qmult_le_compat_r.
Qed.

Lemma angle_to_rgb_colour (angle : Q) : angle_colour (angle_to_rgb angle).
Proof.
  unfold angle_to_rgb, angle_colour.
  destruct (Qltb angle (3 # 50)); [by left|].
  destruct (Qltb angle (3 # 25)); [right; by left|right; by right].
Qed.

Section preprocess_proofs.

Variable parse_int : string → option Z.
Variable parse_float : string → option Q.
Variable calculate_angle_2d : Q * Q → Q * Q → Q * Q → Q.

Lemma scan_row_within range row x y :
  within range x y → within (scan_row parse_int parse_float range row) x y.
Proof.
  intros Hin. unfold scan_row.
  destruct (row !! DETECTOR_COL ≫= parse_int) as [detector|]; [|done].
  destruct (bool_decide (detector ≠ 1)); [done|].
  destruct (row !! X_COL ≫= parse_float) as [x'|]; [|done].
  destruct (row !! Y_COL ≫= parse_float) as [y'|]; [|done].
  destruct range as [[[[xmin xmax] ymin] ymax]|]; [|done].
  destruct Hin as [[? ?] [? ?]].
  pose proof (Q.le_min_l xmin x'). pose proof (Q.le_max_l xmax x').
  pose proof (Q.le_min_l ymin y'). pose proof (Q.le_max_l ymax y').
  split; split; lra.
Qed.

Lemma scan_row_measured range row x y :
  measured parse_int parse_float row x y → within (scan_row parse_int parse_float range row) x y.
Proof.
  intros (Hd & Hx & Hy). unfold scan_row. rewrite Hd, Hx, Hy.
  rewrite bool_decide_false by (intros H; by apply H).
  destruct range as [[[[xmin xmax] ymin] ymax]|].
  - pose proof (Q.le_min_r xmin x). pose proof (Q.le_max_r xmax x).
    pose proof (Q.le_min_r ymin y). pose proof (Q.le_max_r ymax y).
    split; split; lra.
  - split; split; lra.
Qed.

Lemma scan_range_within rows x y :
  ∀ range,
    within range x y ∨ (∃ row, row ∈ rows ∧ measured parse_int parse_float row x y) →
    within (foldl (scan_row parse_int parse_float) range rows) x y.
Proof.
  induction rows as [|row rows IH]; intros range H.
  - destruct H as [?|(row & []%elem_of_nil & _)]. done.
  - cbn [foldl]. apply IH.
    destruct H as [?|(row' & [->|Hin]%elem_of_cons & Hm)].
    + left. by apply scan_row_within.
    + left. by apply scan_row_measured.
    + right. by exists row'.
Qed.

Lemma record_event_entries events_by_time t_ns detector pos t event :
  (t, event) ∈ record_event events_by_time t_ns detector pos →
  ∀ p, event !! 1 = Some p →
    (detector = 1 ∧ p = pos) ∨
    (∃ event', (t, event') ∈ events_by_time ∧ event' !! 1 = Some p).
Proof.
  induction events_by_time as [|[t' event'] rest IH]; cbn [record_event].
  - intros [= -> ->]%list_elem_of_singleton p Hp.
    apply lookup_singleton_Some in Hp as [-> <-]. by left.
  - destruct (Qeq_bool t' t_ns).
    + intros [[= -> ->]|Hin]%elem_of_cons p Hp.
      * destruct (decide (detector = 1)) as [->|Hne].
        -- rewrite lookup_insert_eq in Hp. injection Hp as <-. by left.
        -- rewrite lookup_insert_ne in Hp by done. right.
           exists event'. split; [left|done].
      * right. exists event. split; [by right|done].
    + intros [[= -> ->]|Hin]%elem_of_cons p Hp.
      * right. exists event'. split; [left|done].
      * destruct (IH Hin p Hp) as [?|(e & ? & ?)]; [by left|].
        right. exists e. split; [by right|done].
Qed.

Lemma read_rows_measured (all rows : list (list string)) :
  rows ⊆ all →
  ∀ first_timestamp events_by_time first_timestamp' events_by_time',
    foldl (read_row parse_int parse_float) (first_timestamp, events_by_time)
      rows = (first_timestamp', events_by_time') →
    (events_by_time ≠ [] → first_timestamp ≠ None) →
    (∀ t event x y, (t, event) ∈ events_by_time → event !! 1 = Some (x, y) →
       ∃ row, row ∈ all ∧ measured parse_int parse_float row x y) →
    (events_by_time' ≠ [] → first_timestamp' ≠ None) ∧
    (∀ t event x y, (t, event) ∈ events_by_time' → event !! 1 = Some (x, y) →
       ∃ row, row ∈ all ∧ measured parse_int parse_float row x y).
Proof.
  induction rows as [|row rows IH];
    intros Hsub first_timestamp events_by_time first' events' Hrun Hfirst Hev.
  - injection Hrun as <- <-. done.
  - cbn [foldl] in Hrun.
    destruct (read_row parse_int parse_float (first_timestamp, events_by_time)
                row) as [first1 events1] eqn:Hrow.
    assert (rows ⊆ all) as Hsub' by (intros r Hr; apply Hsub; by right).
    assert (row ∈ all) as Hrow_in by (apply Hsub; left).
    apply (IH Hsub' _ _ _ _ Hrun); revert Hrow; unfold read_row;
      destruct (row !! DETECTOR_COL ≫= parse_int) as [detector|] eqn:Hd;
      try (by intros [= <- <-]);
      destruct (bool_decide (detector ∈ DETECTOR_LEVELS));
      try (by intros [= <- <-]);
      destruct (row !! TIME_COL ≫= parse_float) as [t_ns|];
      try (by intros [= <- <-]);
      destruct (row !! X_COL ≫= parse_float) as [x0|] eqn:Hx;
      try (intros [= <- <-]; by destruct first_timestamp);
      destruct (row !! Y_COL ≫= parse_float) as [y0|] eqn:Hy;
      try (intros [= <- <-]; by destruct first_timestamp);
      intros [= <- <-]; try (by destruct first_timestamp).
    intros t event x y Hin Hp.
    destruct (record_event_entries _ _ _ _ _ _ Hin _ Hp)
      as [[-> [= <- <-]]|(event' & Hin' & Hp')].
    + exists row. split; [done|done].
    + by eapply Hev.
Qed.

Lemma collect_fits range first_timestamp events_by_time :
  (events_by_time ≠ [] → first_timestamp ≠ None) →
  (∀ t event x y, (t, event) ∈ events_by_time → event !! 1 = Some (x, y) →
     within range x y) →
  ∀ hits event_count,
    Forall (λ h, in_grid (h.1.1.2, h.1.2) ∧ angle_colour h.2) hits →
    length hits = event_count → (event_count < MAX_EVENTS)%nat →
    match collect calculate_angle_2d range first_timestamp events_by_time
            hits event_count with
    | Hits hits' =>
        Forall (λ h, in_grid (h.1.1.2, h.1.2) ∧ angle_colour h.2) hits' ∧
        (length hits' ≤ MAX_EVENTS)%nat
    | Died e => e = ZeroDivisionError
    end.
Proof.
  induction events_by_time as [|[t_ns event] rest IH];
    intros Hfirst Hev hits event_count Hhits Hlen Hcount.
  - cbn [collect]. split; [done|lia].
  - assert (∀ hits' n,
      Forall (λ h, in_grid (h.1.1.2, h.1.2) ∧ angle_colour h.2) hits' →
      length hits' = n → (n < MAX_EVENTS)%nat →
      match collect calculate_angle_2d range first_timestamp rest hits' n with
      | Hits hits'' =>
          Forall (λ h, in_grid (h.1.1.2, h.1.2) ∧ angle_colour h.2) hits'' ∧
          (length hits'' ≤ MAX_EVENTS)%nat
      | Died e => e = ZeroDivisionError
      end) as Hrest.
    { apply IH.
      - intros _. apply Hfirst. done.
      - intros t e x y Hin. apply (Hev t). by right. }
    cbn [collect].
    destruct (event !! 1) as [[x y]|] eqn:E1; [|by apply Hrest].
    destruct (event !! 2) as [pos2|]; [|by apply Hrest].
    destruct (event !! 3) as [pos3|]; [|by apply Hrest].
    destruct (Qltb _ _); [by apply Hrest|].
    destruct first_timestamp as [first|]; [|by destruct Hfirst].
    pose proof (Hev t_ns event x y ltac:(left) E1) as Hin.
    destruct range as [[[[xmin xmax] ymin] ymax]|]; [|done].
    destruct Hin as [Hx Hy].
    destruct (bucket x xmin xmax COLS) as [col|] eqn:Ecol; [|done].
    destruct (bucket y ymin ymax ROWS) as [row|] eqn:Erow; [|done].
    apply bucket_range in Ecol; [|unfold COLS; lia|done].
    apply bucket_range in Erow; [|unfold ROWS; lia|done].
    match goal with
    | |- context [hits ++ [?new]] =>
        assert (Forall (λ h, in_grid (h.1.1.2, h.1.2) ∧ angle_colour h.2)
                  (hits ++ [new])) as Hhits'
    end.
    { apply Forall_app. split; [done|]. apply Forall_singleton.
      split; [by split|apply angle_to_rgb_colour]. }
    unfold TAKE_ALL_EVENTS. rewrite andb_true_r.
    destruct (decide (MAX_EVENTS ≤ S event_count)%nat) as [Hmax|Hmax].
    + rewrite bool_decide_true by done. split; [done|].
      rewrite length_app. simpl. lia.
    + rewrite bool_decide_false by done. apply Hrest; [done| |lia].
      rewrite length_app. simpl. lia.
Qed.

(** X19. The preprocessing never ends with a record outside the grid:
    whatever the CSV file holds, every record of the list it ends with
    names a cell inside the 16 x 15 grid, so that [grid_to_led] does not
    raise on any record written to [hits.json]. *)
Theorem preprocessed_hits_fit_the_grid (rows : list (list string)) :
  ∀ hits,
    preprocess parse_int parse_float calculate_angle_2d rows = Hits hits →
    Forall (λ h, in_grid (h.1.1.2, h.1.2) ∧
                 ∃ led, grid_to_led (h.1.1.2, h.1.2) = Ok led) hits.
Proof.
  intros hits. unfold preprocess.
  destruct (foldl _ (None, []) rows) as [first_timestamp events_by_time]
    eqn:Hread.
  destruct (read_rows_measured rows rows ltac:(done) _ _ _ _ Hread)
    as [Hfirst Hev]; [done|by intros ? ? ? ? []%elem_of_nil|].
  pose proof (collect_fits (foldl (scan_row parse_int parse_float) None rows)
                first_timestamp events_by_time Hfirst) as Hfit.
  lapply Hfit.
  2: { intros t event x y Hin Hp. apply scan_range_within. right.
       by apply (Hev t event). }
  clear Hfit. intros Hfit.
  specialize (Hfit [] 0%nat ltac:(constructor) eq_refl
                ltac:(unfold MAX_EVENTS; lia)).
  intros Hrun. rewrite Hrun in Hfit.
  destruct Hfit as [Hfit _]. eapply Forall_impl; [exact Hfit|].
  intros h [Hg _]. split; [done|].
  destruct (grid_to_led_in_grid _ Hg) as [[_ E]|[_ (s & i & E)]];
    eexists; exact E.
Qed.

(** X20. The preprocessing never ends with more than [MAX_EVENTS]
    records, and each of them carries blue, red or no colour at all. *)
Theorem preprocessing_stops_at_max_events (rows : list (list string)) :
  ∀ hits,
    preprocess parse_int parse_float calculate_angle_2d rows = Hits hits →
    (length hits ≤ MAX_EVENTS)%nat ∧ Forall (λ h, angle_colour h.2) hits.
Proof.
  intros hits. unfold preprocess.
  destruct (foldl _ (None, []) rows) as [first_timestamp events_by_time]
    eqn:Hread.
  destruct (read_rows_measured rows rows ltac:(done) _ _ _ _ Hread)
    as [Hfirst Hev]; [done|by intros ? ? ? ? []%elem_of_nil|].
  pose proof (collect_fits (foldl (scan_row parse_int parse_float) None rows)
                first_timestamp events_by_time Hfirst) as Hfit.
  lapply Hfit.
  2: { intros t event x y Hin Hp. apply scan_range_within. right.
       by apply (Hev t event). }
  clear Hfit. intros Hfit.
  specialize (Hfit [] 0%nat ltac:(constructor) eq_refl
                ltac:(unfold MAX_EVENTS; lia)).
  intros Hrun. rewrite Hrun in Hfit. destruct Hfit as [Hfit Hlen].
  split; [done|]. eapply Forall_impl; [exact Hfit|]. by intros h [_ ?].
Qed.

End preprocess_proofs.

Lemma preprocessed_hits_fit_the_grid_witness :
  ∃ hits,
    preprocess sample_int sample_float (λ _ _ _, 1 # 25) sample_rows
      = Hits hits ∧
    length hits = 2%nat ∧
    Forall (λ h, in_grid (h.1.1.2, h.1.2) ∧
                 ∃ led, grid_to_led (h.1.1.2, h.1.2) = Ok led) hits.
Proof.
  eexists. split; [vm_compute; reflexivity|]. split; [reflexivity|].
  apply (preprocessed_hits_fit_the_grid sample_int sample_float
           (λ _ _ _, 1 # 25) sample_rows).
  vm_compute. reflexivity.
Defined.

Lemma preprocessing_stops_at_max_events_witness :
  ∃ hits,
    preprocess sample_int sample_float (λ _ _ _, 3 # 25) sample_rows
      = Hits hits ∧
    length hits = 2%nat ∧
    (length hits ≤ MAX_EVENTS)%nat ∧ Forall (λ h, angle_colour h.2) hits.
Proof.
  eexists. split; [vm_compute; reflexivity|]. split; [reflexivity|].
  apply (preprocessing_stops_at_max_events sample_int sample_float
           (λ _ _ _, 3 # 25) sample_rows).
  vm_compute. reflexivity.
Defined.

Lemma py_round_cases (x : Q) :
  let below := Qfloor x in
  let rest := (x - inject_Z below)%Q in
  ((rest < 1 # 2)%Q ∧ py_round x = below) ∨
  ((rest == 1 # 2)%Q ∧
   py_round x = if Z.even below then below else below + 1) ∨
  ((1 # 2 < rest)%Q ∧ py_round x = below + 1).
Proof.
  intros below rest. unfold py_round. fold below. fold rest.
  destruct (rest ?= 1 # 2)%Q eqn:E.
  - apply Qeq_alt in E. right. by left.
  - apply Qlt_alt in E. by left.
  - apply Qgt_alt in E. right. by right.
Qed.

Lemma py_round_mono (x y : Q) : (x <= y)%Q → py_round x ≤ py_round y.
Proof.
  intros Hxy. pose proof (Qfloor_resp_le _ _ Hxy) as Hf.
  pose proof (py_round_cases x) as Hx. pose proof (py_round_cases y) as Hy.
  cbv zeta in Hx, Hy.
  destruct (decide (Qfloor x = Qfloor y)) as [E|Hne].
  - rewrite <- E in Hy. set (below := Qfloor x) in *. clearbody below.
    destruct Hx as [[Hrx ->]|[[Hrx ->]|[Hrx ->]]],
      Hy as [[Hry ->]|[[Hry ->]|[Hry ->]]];
      destruct (Z.even below); first [lia|exfalso; lra].
  - destruct Hx as [[_ ->]|[[_ ->]|[_ ->]]],
      Hy as [[_ ->]|[[_ ->]|[_ ->]]];
      destruct (Z.even (Qfloor x)), (Z.even (Qfloor y)); lia.
Qed.

Lemma py_round_Z (n : Z) : py_round (inject_Z n) = n.
Proof.
  pose proof (py_round_cases (inject_Z n)) as H. cbv zeta in H.
  rewrite Qfloor_Z in H.
  destruct H as [[_ H]|[[H _]|[H _]]]; [done|exfalso; lra..].
Qed.

Lemma py_round_proper (x y : Q) : (x == y)%Q → py_round x = py_round y.
Proof.
  intros E.
  pose proof (py_round_mono x y ltac:(lra)).
  pose proof (py_round_mono y x ltac:(lra)). lia.
Qed.

Lemma bucket_some (v vmin vmax : Q) (cells : Z) :
  (vmin < vmax)%Q →
  bucket v vmin vmax cells
  = Some (py_round ((v - vmin) / (vmax - vmin) * inject_Z (cells - 1))).
Proof.
  intros Hrange. unfold bucket.
  destruct (Qeq_bool vmax vmin) eqn:E; [|done].
  apply Qeq_bool_iff in E. lra.
Qed.

(** X21. The scaling of a coordinate to a row or column index spreads
    the measured range over the whole grid and keeps the order: when the
    range is not empty, and its ends stay clear of the overflow of the
    floats, the smallest coordinate lands on index 0, the largest on the
    last index [cells - 1], and a larger coordinate never lands on a
    smaller index. *)
Theorem bucket_spreads_the_range_in_order (v v' vmin vmax : Q) (cells : Z) :
  cells = COLS ∨ cells = ROWS →
  (- coordinate_bound <= vmin)%Q → (vmax <= coordinate_bound)%Q →
  (vmin < vmax)%Q → (vmin <= v)%Q → (v <= v')%Q → (v' <= vmax)%Q →
  bucket vmin vmin vmax cells = Some 0 ∧
  bucket vmax vmin vmax cells = Some (cells - 1) ∧
  ∃ i i', bucket v vmin vmax cells = Some i ∧
          bucket v' vmin vmax cells = Some i' ∧
          0 ≤ i ≤ i' ∧ i' < cells.
Proof.
  intros Hgrid _ _ Hrange Hlo Hvv Hhi.
  assert (1 ≤ cells) as Hcells by (unfold COLS, ROWS in Hgrid; lia).
  clear Hgrid.
  assert (0 < vmax - vmin)%Q as Hpos by lra.
  assert (0 <= inject_Z (cells - 1))%Q as Hn.
  { change 0%Q with (inject_Z 0). rewrite <- Zle_Qle. lia. }
  rewrite !bucket_some by done. split; [|split].
  - f_equal. transitivity (py_round (inject_Z 0)); [|apply py_round_Z].
    apply py_round_proper. change (inject_Z 0) with 0%Q. field. lra.
  - f_equal.
    transitivity (py_round (inject_Z (cells - 1))); [|apply py_round_Z].
    apply py_round_proper. field. lra.
  - eexists _, _. split; [done|]. split; [done|].
    pose proof (bucket_range v vmin vmax cells _ Hcells ltac:(split; lra)
                  (bucket_some v vmin vmax cells Hrange)).
    pose proof (bucket_range v' vmin vmax cells _ Hcells ltac:(split; lra)
                  (bucket_some v' vmin vmax cells Hrange)).
    split; [|lia]. split; [lia|]. apply py_round_mono.
    apply Qmult_le_compat_r; [|done].
    apply Qmult_le_compat_r; [lra|].
    apply Qlt_le_weak, Qinv_lt_0_compat. done.
Qed.

Lemma bucket_spreads_the_range_in_order_witness :
  bucket (1 # 2) (1 # 2) 4 15 = Some 0 ∧
  bucket 4 (1 # 2) 4 15 = Some (15 - 1) ∧
  ∃ i i', bucket 1 (1 # 2) 4 15 = Some i ∧
          bucket (9 # 4) (1 # 2) 4 15 = Some i' ∧
          0 ≤ i ≤ i' ∧ i' < 15.
Proof.
  apply (bucket_spreads_the_range_in_order 1 (9 # 4) (1 # 2) 4 15).
  - left. reflexivity.
  - discriminate.
  - discriminate.
  - reflexivity.
  - discriminate.
  - discriminate.
  - discriminate.
Defined.
